(** * IntelliBase front end: a shallow embedding of the chat client

    The development follows the TypeScript sources of the React client:
    - [PDFViewer]      the zoom handlers of the split-view PDF viewer;
    - [ChatSidebar]    [groupSessionsByDate];
    - [FileUpload]     the two [handleUpload] handlers (upload dialog and
                       documents page);
    - [ChatArea]       the chat component as a state machine over its
                       [useState] cells, with [handleSend] split at its
                       [await];
    - [ChatMessage]    [hasFlashcards], [displayContent] and the paragraph
                       renderer that turns [Source: [file.pdf, p.N]] into a
                       citation button;
    - [UploadDialog]   the upload dialog of the chat as a state machine:
                       files, progress interval, pending upload, reset;
    - [DocumentsPage]  the upload flow of the documents page;
    - [ChatTurns]      the queries and sessions of a run of [ChatArea];
    - [DisplayedText]  the displayed text as a part of the content;
    - [CitationClick]  [handleCitationClick], the citation chips, the
                       cell [pdfView] of [Chat] and the frame of the viewer;
    - [Auth]           [AuthProvider]: check, login, signup, logout;
    - [LoginPage], [SignupPage], [SettingsPage]
                       the handlers of the pages that sign in and out;
    - [Sidebar]        deleting a conversation and signing out;
    - [Landing]        the title that types itself;
    - [FlashcardViewer] loading the flashcards of a session.

    A JavaScript string is the list of its code units, read as characters
    below 256; a JavaScript number that holds an integer is a [Z]. *)

From Stdlib Require Import ZArith List Bool Lia Permutation.
From Stdlib Require Import Ascii String.
Import ListNotations.
Open Scope list_scope.

Set Implicit Arguments.

(* ===================================================================== *)
(** * Part I: definitions                                                  *)
(* ===================================================================== *)

(** ** JavaScript strings *)

Module Js.

(** A string is the list of its code units. *)
Definition jsstring := list ascii.

(** String literals of the source. *)
Definition str (s : string) : jsstring := list_ascii_of_string s.
Arguments str s%_string.

Definition code (c : ascii) : nat := nat_of_ascii c.

(** White space as [String.prototype.trim] and the regular expression
    class [\s] see it, among the code units below 256: TAB, LF, VT, FF,
    CR, SPACE and NO-BREAK SPACE. *)
Definition isSpace (c : ascii) : bool :=
  let n := code c in
  ((9 <=? n) && (n <=? 13)) || (n =? 32) || (n =? 160).

Fixpoint trimStart (s : jsstring) : jsstring :=
  match s with
  | [] => []
  | c :: rest => if isSpace c then trimStart rest else s
  end.

Definition trimEnd (s : jsstring) : jsstring := rev (trimStart (rev s)).

(** [s.trim()] *)
Definition trim (s : jsstring) : jsstring := trimEnd (trimStart s).

(** A string in a boolean position is true unless it is empty. *)
Definition truthy (s : jsstring) : bool :=
  match s with [] => false | _ :: _ => true end.

(** [!s.trim()] *)
Definition isBlank (s : jsstring) : bool := negb (truthy (trim s)).

(** [s.startsWith(p)] *)
Fixpoint startsWith (p s : jsstring) : bool :=
  match p, s with
  | [], _ => true
  | _ :: _, [] => false
  | a :: p', b :: s' => Ascii.eqb a b && startsWith p' s'
  end.

(** [s.includes(p)] *)
Fixpoint includes (p s : jsstring) : bool :=
  startsWith p s ||
  match s with
  | [] => false
  | _ :: s' => includes p s'
  end.

(** Equality of strings, [a === b]. *)
Fixpoint eqb (a b : jsstring) : bool :=
  match a, b with
  | [], [] => true
  | x :: a', y :: b' => Ascii.eqb x y && eqb a' b'
  | _, _ => false
  end.

(** *** Numbers

    The numbers of the components are integers (page and line numbers,
    identifiers taken from the clock) or NaN. The model is exact on the
    safe integers, below [2^53] in absolute value; it says nothing about
    the rounding of larger values. *)
Inductive number := Int (z : Z) | NaN.

Definition maxSafeInteger : Z := 2 ^ 53 - 1.

(** A number in a boolean position: false for 0 and NaN. *)
Definition truthyNumber (n : number) : bool :=
  match n with
  | Int z => negb (Z.eqb z 0)
  | NaN => false
  end.

Definition isDigit (c : ascii) : bool :=
  (48 <=? code c) && (code c <=? 57).

Definition digitValue (c : ascii) : Z := Z.of_nat (code c) - 48.

Definition digitChar (d : Z) : ascii := ascii_of_nat (Z.to_nat (48 + d)).

(** The value of a run of decimal digits, most significant first. *)
Definition decimalValue (ds : jsstring) : Z :=
  fold_left (fun acc c => acc * 10 + digitValue c)%Z ds 0%Z.

(** The longest prefix of decimal digits. *)
Fixpoint digitPrefix (s : jsstring) : jsstring :=
  match s with
  | c :: rest => if isDigit c then c :: digitPrefix rest else []
  | [] => []
  end.

(** [parseInt(s, 10)]: leading white space is skipped, a sign is read,
    then the longest run of digits; NaN when there is no digit. *)
Definition parseInt10 (s : jsstring) : number :=
  let body := trimStart s in
  let (negative, rest) :=
    match body with
    | c :: r =>
      if Ascii.eqb c "-"%char then (true, r)
      else if Ascii.eqb c "+"%char then (false, r)
      else (false, body)
    | [] => (false, body)
    end in
  match digitPrefix rest with
  | [] => NaN
  | ds => Int (if negative then - decimalValue ds else decimalValue ds)
  end.

(** The decimal digits of a non-negative integer, prepended to [acc]. *)
Fixpoint digitsOf (fuel : nat) (n : Z) (acc : jsstring) : jsstring :=
  match fuel with
  | O => acc
  | S fuel' =>
    let acc' := digitChar (n mod 10) :: acc in
    if (n / 10 =? 0)%Z then acc' else digitsOf fuel' (n / 10) acc'
  end.

Definition decimal (n : Z) : jsstring :=
  digitsOf (S (Z.to_nat (Z.log2 n))) n [].

(** [String(n)], as template literals and JSX text apply it. *)
Definition Number_toString (n : number) : jsstring :=
  match n with
  | NaN => str "NaN"
  | Int z => if (z <? 0)%Z then "-"%char :: decimal (- z) else decimal z
  end.

End Js.

(** ** Regular expressions

    A backtracking matcher for the constructs the two patterns of
    [ChatMessage] use: literals, character classes, sequence, greedy and
    lazy repetition of a class, and capture groups. Alternatives are tried
    in the order of the JavaScript matcher: a greedy repetition takes the
    longest run first, a lazy one the shortest. *)

Module Regex.

Import Js.

Inductive re :=
| Eps
| Lit (c : ascii)
| Class (p : ascii -> bool)
| Seq (a b : re)
| Star (greedy : bool) (p : ascii -> bool)
| Group (i : nat) (r : re).

(** [p+] *)
Definition Plus (p : ascii -> bool) : re := Seq (Class p) (Star true p).

(** A run of literal characters. *)
Fixpoint lits (s : jsstring) : re :=
  match s with
  | [] => Eps
  | c :: rest => Seq (Lit c) (lits rest)
  end.

(** Canonicalization under the [i] flag. The literals of the patterns are
    ASCII, and a code unit from 128 on never canonicalizes to an ASCII
    one, so upper-casing the ASCII letters decides every comparison with
    a literal. The classes of the patterns hold no letter, and the flag
    leaves them as they are. *)
Definition canonicalize (c : ascii) : ascii :=
  if (97 <=? code c) && (code c <=? 122)
  then ascii_of_nat (code c - 32)
  else c.

Definition litMatches (ignoreCase : bool) (c ch : ascii) : bool :=
  if ignoreCase then Ascii.eqb (canonicalize c) (canonicalize ch)
  else Ascii.eqb c ch.

(** The text of the captures, by group number. *)
Definition captures := list (nat * jsstring).

Fixpoint capture (i : nat) (c : captures) : option jsstring :=
  match c with
  | [] => None
  | (j, v) :: rest => if (i =? j)%nat then Some v else capture i rest
  end.

Section Matcher.

Variable ignoreCase : bool.
Variable R : Type.

(** [p*] with continuation [k]: the longest run first. *)
Fixpoint starGreedy (p : ascii -> bool) (s : jsstring)
    (k : jsstring -> option R) : option R :=
  match s with
  | ch :: rest =>
    if p ch then
      match starGreedy p rest k with
      | Some r => Some r
      | None => k s
      end
    else k s
  | [] => k s
  end.

(** [p*?] with continuation [k]: the shortest run first. *)
Fixpoint starLazy (p : ascii -> bool) (s : jsstring)
    (k : jsstring -> option R) : option R :=
  match k s with
  | Some r => Some r
  | None =>
    match s with
    | ch :: rest => if p ch then starLazy p rest k else None
    | [] => None
    end
  end.

(** [matchRe r s c k] matches [r] at the front of [s] and passes the
    rest of the input and the captures to [k]; when [k] fails the next
    alternative of [r] is tried. *)
Fixpoint matchRe (r : re) (s : jsstring) (c : captures)
    (k : jsstring -> captures -> option R) : option R :=
  match r with
  | Eps => k s c
  | Lit l =>
    match s with
    | ch :: rest => if litMatches ignoreCase l ch then k rest c else None
    | [] => None
    end
  | Class p =>
    match s with
    | ch :: rest => if p ch then k rest c else None
    | [] => None
    end
  | Seq a b => matchRe a s c (fun s' c' => matchRe b s' c' k)
  | Star greedy p =>
    (if greedy then starGreedy else starLazy) p s (fun s' => k s' c)
  | Group i g =>
    matchRe g s c
      (fun s' c' => k s' ((i, firstn (List.length s - List.length s') s) :: c'))
  end.

End Matcher.

(** The continuation at the end of a pattern: the match succeeds. *)
Definition done (s : jsstring) (c : captures) : option (captures * jsstring) :=
  Some (c, s).

(** A match at the front of [s]: the captures and the input after the
    match. *)
Definition exec (ignoreCase : bool) (r : re) (s : jsstring)
    : option (captures * jsstring) :=
  matchRe ignoreCase r s [] done.

(** [s.match(r)] for a pattern without the [g] flag: the leftmost
    match. *)
Fixpoint search (ignoreCase : bool) (r : re) (s : jsstring) : option captures :=
  match exec ignoreCase r s with
  | Some (c, _) => Some c
  | None =>
    match s with
    | [] => None
    | _ :: rest => search ignoreCase r rest
    end
  end.

(** [s.replace(r, '')] for a pattern with the [g] flag. The scan goes
    left to right; [skip] counts the characters of the current match
    that are still to be dropped. After an empty match the scan moves on
    by one character, which is kept. *)
Fixpoint removeFrom (ignoreCase : bool) (r : re) (skip : nat) (s : jsstring)
    : jsstring :=
  match s with
  | [] => []
  | ch :: rest =>
    match skip with
    | S n => removeFrom ignoreCase r n rest
    | O =>
      match exec ignoreCase r s with
      | Some (_, after) =>
        match List.length s - List.length after with
        | O => ch :: removeFrom ignoreCase r 0 rest
        | S n => removeFrom ignoreCase r n rest
        end
      | None => ch :: removeFrom ignoreCase r 0 rest
      end
    end
  end.

Definition removeAll (ignoreCase : bool) (r : re) (s : jsstring) : jsstring :=
  removeFrom ignoreCase r 0 s.

End Regex.

(** ** FileUploadDialog and the documents page: [handleUpload] *)

Module FileUpload.

Import Js.

(** A browser [File], as far as the handlers look at it. *)
Record File := mkFile {
  name : jsstring;
  type : jsstring;
  size : Z
}.

Inductive CollectionType := main | isolated.

(** The argument of [documentsAPI.upload]. *)
Record UploadRequest := mkUploadRequest {
  req_files : list File;
  collection_type : CollectionType;
  collection_name : option jsstring
}.

Inductive ToastKind :=
| NoFilesSelected
| CollectionNameRequired
| UploadSuccessful
| UploadStarted
| UploadFailed.

(** What a handler does to the outside world, in program order. *)
Inductive Effect :=
| Toast (k : ToastKind)
| Upload (r : UploadRequest)
| StartProgressTimer
| StopProgressTimer
| ScheduleReset
| ScheduleReload.

(** [collectionType === "isolated" && !collectionName.trim()] *)
Definition nameMissing (t : CollectionType) (n : jsstring) : bool :=
  match t with
  | isolated => isBlank n
  | main => false
  end.

(** [collectionType === "isolated" ? collectionName : undefined] *)
Definition nameArgument (t : CollectionType) (n : jsstring) : option jsstring :=
  match t with
  | isolated => Some n
  | main => None
  end.

(** *** The upload dialog of the chat page *)

Module Dialog.

Record State := mkState {
  files : list File;
  collectionType : CollectionType;
  collectionName : jsstring;
  uploading : bool;
  uploadProgress : Z;
  isOpen : bool
}.

(** [handleUpload] up to its [await]. *)
Definition handleUpload (s : State) : State * list Effect :=
  match files s with
  | [] => (s, [Toast NoFilesSelected])
  | _ :: _ =>
    if nameMissing (collectionType s) (collectionName s)
    then (s, [Toast CollectionNameRequired])
    else
      (mkState (files s) (collectionType s) (collectionName s) true 0 (isOpen s),
       [StartProgressTimer;
        Upload (mkUploadRequest (files s) (collectionType s)
                  (nameArgument (collectionType s) (collectionName s)))])
  end.

(** The rest of the [try] block, once the upload promise is fulfilled. *)
Definition uploadFulfilled (s : State) : State * list Effect :=
  (mkState (files s) (collectionType s) (collectionName s) (uploading s) 100 (isOpen s),
   [StopProgressTimer; Toast UploadSuccessful; ScheduleReset]).

(** The [setTimeout] callback that resets the dialog. *)
Definition resetState (s : State) : State :=
  mkState [] main [] false 0 false.

(** The [catch] block. *)
Definition uploadRejected (s : State) : State * list Effect :=
  (mkState (files s) (collectionType s) (collectionName s) false 0 (isOpen s),
   [Toast UploadFailed]).

End Dialog.

(** *** The documents page *)

Module Documents.

Record State := mkState {
  uploading : bool;
  uploadDialogOpen : bool;
  collectionType : CollectionType;
  collectionName : jsstring;
  selectedFiles : list File
}.

(** [handleUpload] up to its [await]. *)
Definition handleUpload (s : State) : State * list Effect :=
  match selectedFiles s with
  | [] => (s, [])
  | _ :: _ =>
    if nameMissing (collectionType s) (collectionName s)
    then (s, [Toast CollectionNameRequired])
    else
      (mkState true false (collectionType s) (collectionName s) (selectedFiles s),
       [Upload (mkUploadRequest (selectedFiles s) (collectionType s)
                  (nameArgument (collectionType s) (collectionName s)))])
  end.

(** The [finally] block. *)
Definition settle (s : State) : State :=
  mkState false (uploadDialogOpen s) main [] [].

Definition uploadFulfilled (s : State) : State * list Effect :=
  (settle s, [Toast UploadStarted; ScheduleReload]).

Definition uploadRejected (s : State) : State * list Effect :=
  (settle s, [Toast UploadFailed]).

End Documents.

End FileUpload.

(** ** ChatArea: the chat component as a state machine *)

Module ChatArea.

Import Js.
Local Open Scope Z_scope.

(** ["study" | "research" | "casual"] *)
Inductive Mode := casual | study | research.

(** ["user" | "assistant"] *)
Inductive Role := user | assistant.

(** A citation as the back end returns it. Absent fields are [None]. *)
Record ApiCitation := mkApiCitation {
  document : jsstring;
  api_page : option number;
  line_start : option number;
  line_end : option number;
  text_snippet : option jsstring;
  api_score : option number
}.

(** A citation as the component stores it in a message. *)
Record Citation := mkCitation {
  file : jsstring;
  page : number;
  lines : jsstring;
  snippet : option jsstring;
  score : option number
}.

Record Message := mkMessage {
  id : Z;
  type : Role;
  content : jsstring;
  timestamp : Z;
  citations : option (list Citation)
}.

(** The argument of [chatAPI.query]. *)
Record QueryRequest := mkQueryRequest {
  query : jsstring;
  session_id : option jsstring;
  top_k : Z;
  session_mode : Mode
}.

(** The value a fulfilled [chatAPI.query] promise carries. *)
Record QueryResponse := mkQueryResponse {
  answer : jsstring;
  resp_session_id : option jsstring;
  resp_citations : option (list ApiCitation)
}.

(** The reason of a rejected promise, an object whose
    [response?.data?.detail] may be present. *)
Record ApiError := mkApiError {
  detail : option jsstring
}.

(** A stored message as [chatAPI.getSession] returns it. *)
Record ApiMessage := mkApiMessage {
  role : jsstring;
  api_content : jsstring;
  api_timestamp : Z;
  api_citations : option (list Citation)
}.

(** The [useState] cells of [ChatArea], the [sessionId] it receives from
    the page ([currentSessionId] of [Chat]), and the queries that were
    sent and are not settled yet. *)
Record State := mkState {
  message : jsstring;
  messages : list Message;
  loading : bool;
  uploadDialogOpen : bool;
  modeDialogOpen : bool;
  sessionMode : Mode;
  sessionId : option jsstring;
  inflight : list QueryRequest
}.

Inductive Output :=
| CallQuery (r : QueryRequest)
| CallGetSession (sid : jsstring)
| ToastQueryFailed (description : jsstring)
| ToastLoadFailed.

(** The initial values of the cells. *)
Definition initial : State :=
  mkState [] [] false false false casual None [].

Definition setMessage (v : jsstring) (s : State) : State :=
  mkState v (messages s) (loading s) (uploadDialogOpen s)
    (modeDialogOpen s) (sessionMode s) (sessionId s) (inflight s).

Definition setMessages (v : list Message) (s : State) : State :=
  mkState (message s) v (loading s) (uploadDialogOpen s)
    (modeDialogOpen s) (sessionMode s) (sessionId s) (inflight s).

Definition setLoading (v : bool) (s : State) : State :=
  mkState (message s) (messages s) v (uploadDialogOpen s)
    (modeDialogOpen s) (sessionMode s) (sessionId s) (inflight s).

Definition setUploadDialogOpen (v : bool) (s : State) : State :=
  mkState (message s) (messages s) (loading s) v
    (modeDialogOpen s) (sessionMode s) (sessionId s) (inflight s).

Definition setModeDialogOpen (v : bool) (s : State) : State :=
  mkState (message s) (messages s) (loading s) (uploadDialogOpen s)
    v (sessionMode s) (sessionId s) (inflight s).

Definition setSessionMode (v : Mode) (s : State) : State :=
  mkState (message s) (messages s) (loading s) (uploadDialogOpen s)
    (modeDialogOpen s) v (sessionId s) (inflight s).

Definition setCurrentSessionId (v : option jsstring) (s : State) : State :=
  mkState (message s) (messages s) (loading s) (uploadDialogOpen s)
    (modeDialogOpen s) (sessionMode s) v (inflight s).

Definition setInflight (v : list QueryRequest) (s : State) : State :=
  mkState (message s) (messages s) (loading s) (uploadDialogOpen s)
    (modeDialogOpen s) (sessionMode s) (sessionId s) v.

(** [sessionId] in a boolean position: [null] and the empty string are
    false. *)
Definition hasSession (sid : option jsstring) : bool :=
  match sid with
  | Some v => truthy v
  | None => false
  end.

(** [x || undefined] and [x || null] on a string that may be absent. *)
Definition orAbsent (sid : option jsstring) : option jsstring :=
  if hasSession sid then sid else None.

(** *** [handleSend] *)

Definition userMessage (now : Z) (text : jsstring) : Message :=
  mkMessage now user text now None.

Definition requestOf (s : State) : QueryRequest :=
  mkQueryRequest (message s) (orAbsent (sessionId s)) 15 (sessionMode s).

(** [handleSend] up to its [await]: the guard, the user message, the
    cleared input, the loading flag and the call of [chatAPI.query].
    [now] is the clock reading of [Date.now()] and [new Date()]. *)
Definition handleSend (now : Z) (s : State) : State * list Output :=
  if isBlank (message s) || loading s then (s, [])
  else
    let s1 := setMessages (messages s ++ [userMessage now (message s)]) s in
    let s2 := setMessage [] s1 in
    let s3 := setLoading true s2 in
    (setInflight (inflight s ++ [requestOf s]) s3, [CallQuery (requestOf s)]).

(** [citation.page || 0] *)
Definition pageOrZero (p : option number) : number :=
  match p with
  | Some n => if truthyNumber n then n else Int 0
  | None => Int 0
  end.

(** [line_start && line_end ? `${line_start}-${line_end}` : ""] *)
Definition linesOf (c : ApiCitation) : jsstring :=
  match line_start c, line_end c with
  | Some a, Some b =>
    if truthyNumber a && truthyNumber b
    then Number_toString a ++ str "-" ++ Number_toString b
    else []
  | _, _ => []
  end.

Definition formatCitation (c : ApiCitation) : Citation :=
  mkCitation (document c) (pageOrZero (api_page c)) (linesOf c)
    (text_snippet c) (api_score c).

(** [response.citations?.map(...) || []] *)
Definition formattedCitations (r : QueryResponse) : list Citation :=
  match resp_citations r with
  | Some cs => map formatCitation cs
  | None => []
  end.

Definition assistantMessage (now : Z) (r : QueryResponse) : Message :=
  mkMessage (now + 1) assistant (answer r) now (Some (formattedCitations r)).

Definition apology : jsstring :=
  str "Sorry, I encountered an error processing your request. Please try again.".

Definition errorMessage (now : Z) : Message :=
  mkMessage (now + 1) assistant apology now (Some []).

(** The rest of the [try] block and the [finally] block, when the query
    promise is fulfilled. [req] is the request of this call: its
    [session_id] is the [sessionId] the handler closed over. *)
Definition queryFulfilled (now : Z) (req : QueryRequest) (r : QueryResponse)
    (s : State) : State :=
  let s1 :=
    if negb (hasSession (session_id req)) && hasSession (resp_session_id r)
    then setCurrentSessionId (resp_session_id r) s
    else s in
  let s2 := setMessages (messages s1 ++ [assistantMessage now r]) s1 in
  setLoading false s2.

(** [error.response?.data?.detail || "Failed to get response"] *)
Definition failureDescription (e : ApiError) : jsstring :=
  match detail e with
  | Some d => if truthy d then d else str "Failed to get response"
  | None => str "Failed to get response"
  end.

(** The [catch] block and the [finally] block, when the query promise is
    rejected. *)
Definition queryRejected (now : Z) (e : ApiError) (s : State)
    : State * list Output :=
  let s1 := setMessages (messages s ++ [errorMessage now]) s in
  (setLoading false s1, [ToastQueryFailed (failureDescription e)]).

(** *** The mode dialog and the session list *)

(** [SessionModeDialog.handleSelect]: [onModeSelect(mode)] then
    [onOpenChange(false)]. *)
Definition handleSelect (m : Mode) (s : State) : State :=
  setModeDialogOpen false (setSessionMode m s).

(** [Chat.handleSessionSelect]: [setCurrentSessionId(sessionId || null)]. *)
Definition handleSessionSelect (sid : jsstring) (s : State) : State :=
  setCurrentSessionId (orAbsent (Some sid)) s.

(** The messages [loadSession] builds from a stored session:
    [response.messages?.map(...) || []]. *)
Fixpoint loadedFrom (index : Z) (ms : list ApiMessage) : list Message :=
  match ms with
  | [] => []
  | m :: rest =>
    mkMessage index
      (if Js.eqb (role m) (str "user") then user else assistant)
      (api_content m) (api_timestamp m)
      (Some (match api_citations m with Some cs => cs | None => [] end))
    :: loadedFrom (index + 1) rest
  end.

Definition loadedMessages (ms : option (list ApiMessage)) : list Message :=
  match ms with
  | Some l => loadedFrom 0 l
  | None => []
  end.

(** *** Effects

    The first [useEffect] opens the mode dialog on a new chat; the second
    loads the session or clears the messages when [sessionId] changes. *)
Definition modeDialogEffect (s : State) : State :=
  if negb (hasSession (sessionId s)) && (List.length (messages s) =? 0)%nat
  then setModeDialogOpen true s
  else s.

Definition sessionEffect (s : State) : State * list Output :=
  match sessionId s with
  | Some sid =>
    if truthy sid then (s, [CallGetSession sid]) else (setMessages [] s, [])
  | None => (setMessages [] s, [])
  end.

Definition sameSession (a b : option jsstring) : bool :=
  match a, b with
  | None, None => true
  | Some x, Some y => Js.eqb x y
  | _, _ => false
  end.

Definition sameLength (a b : list Message) : bool :=
  (List.length a =? List.length b)%nat.

(** The effects that run after the render that follows a state change
    from [old] to [new], by their dependency arrays, and the one further
    render the second effect can cause. *)
Definition afterRender (old new : State) : State * list Output :=
  let sessionChanged := negb (sameSession (sessionId old) (sessionId new)) in
  let lengthChanged := negb (sameLength (messages old) (messages new)) in
  let s1 := if sessionChanged || lengthChanged then modeDialogEffect new else new in
  let (s2, out) := if sessionChanged then sessionEffect s1 else (s1, []) in
  let s3 := if sameLength (messages s1) (messages s2) then s2 else modeDialogEffect s2 in
  (s3, out).

(** The state after the first render: every effect runs once. *)
Definition mounted : State :=
  fst (sessionEffect (modeDialogEffect initial)).

(** *** Events

    What can happen to the component: the user types, sends, picks a mode,
    closes or opens a dialog, or chooses a session in the side bar (the
    empty identifier is the New Chat button); a query promise or a session
    load settles. A stored history may arrive at any time. *)

Inductive Event :=
| Type_ (text : jsstring)
| Send (now : Z)
| QueryFulfilled (i : nat) (now : Z) (r : QueryResponse)
| QueryRejected (i : nat) (now : Z) (e : ApiError)
| SelectMode (m : Mode)
| CloseModeDialog
| OpenUploadDialog
| CloseUploadDialog
| SessionSelect (sid : jsstring)
| SessionLoaded (ms : option (list ApiMessage))
| SessionLoadFailed.

Fixpoint removeAt {A} (i : nat) (l : list A) : list A :=
  match i, l with
  | _, [] => []
  | O, _ :: rest => rest
  | S j, x :: rest => x :: removeAt j rest
  end.

(** The handler of an event; [None] when the event cannot happen in the
    state: a promise settles only if it is pending, and the mode buttons
    exist only while the dialog is open. *)
Definition handler (e : Event) (s : State) : option (State * list Output) :=
  match e with
  | Type_ text => Some (setMessage text s, [])
  | Send now => Some (handleSend now s)
  | QueryFulfilled i now r =>
    match nth_error (inflight s) i with
    | Some req =>
      Some (queryFulfilled now req r (setInflight (removeAt i (inflight s)) s), [])
    | None => None
    end
  | QueryRejected i now err =>
    match nth_error (inflight s) i with
    | Some _ => Some (queryRejected now err (setInflight (removeAt i (inflight s)) s))
    | None => None
    end
  | SelectMode m =>
    if modeDialogOpen s then Some (handleSelect m s, []) else None
  | CloseModeDialog => Some (setModeDialogOpen false s, [])
  | OpenUploadDialog => Some (setUploadDialogOpen true s, [])
  | CloseUploadDialog => Some (setUploadDialogOpen false s, [])
  | SessionSelect sid => Some (handleSessionSelect sid s, [])
  | SessionLoaded ms => Some (setMessages (loadedMessages ms) s, [])
  | SessionLoadFailed => Some (s, [ToastLoadFailed])
  end.

(** One event: its handler, then the effects of the render it causes. *)
Definition step (e : Event) (s : State) : option (State * list Output) :=
  match handler e s with
  | Some (s1, out1) =>
    let (s2, out2) := afterRender s s1 in Some (s2, out1 ++ out2)
  | None => None
  end.

(** A run of the component from a state: the events that happened, oldest
    first, and the outputs they produced. *)
Inductive run : State -> list Event -> list Output -> State -> Prop :=
| run_nil s : run s [] [] s
| run_cons s e s1 out1 es out2 s2 :
    step e s = Some (s1, out1) ->
    run s1 es out2 s2 ->
    run s (e :: es) (out1 ++ out2) s2.

Definition reachable (s : State) : Prop :=
  exists es out, run mounted es out s.

(** The same run as a function, for concrete event lists. *)
Fixpoint runEvents (es : list Event) (s : State) : option (State * list Output) :=
  match es with
  | [] => Some (s, [])
  | e :: rest =>
    match step e s with
    | Some (s1, out1) =>
      match runEvents rest s1 with
      | Some (s2, out2) => Some (s2, out1 ++ out2)
      | None => None
      end
    | None => None
    end
  end.

(** A new chat: no session is selected and no message is shown. *)
Definition newChat (s : State) : Prop :=
  hasSession (sessionId s) = false /\ messages s = [].

(** The invariant behind the guard of [handleSend]: the loading flag is
    set exactly while one query is pending. *)
Definition guardInvariant (s : State) : Prop :=
  (loading s = false /\ inflight s = []) \/
  (loading s = true /\ exists r, inflight s = [r]).

(** A run of two chats: the user picks [study], sends a message that is
    answered with a new session, and then starts a new chat. *)
Definition twoChats : list Event :=
  [ SelectMode study;
    Type_ (str "hi");
    Send 1000%Z;
    QueryFulfilled 0 2000%Z (mkQueryResponse (str "hello") (Some (str "s1")) None);
    SessionSelect [] ].

(** The events that keep the message list of the session: every event but
    the choice of another session and the arrival of a stored history. *)
Definition keepsHistory (e : Event) : bool :=
  match e with
  | SessionSelect _ | SessionLoaded _ => false
  | _ => true
  end.

(** A message list made of (user, assistant) pairs in order, followed by
    one more user message exactly when [pending] is set. *)
Inductive paired : bool -> list Message -> Prop :=
| paired_nil : paired false []
| paired_user ms u :
    paired false ms -> type u = user -> paired true (ms ++ [u])
| paired_assistant ms a :
    paired true ms -> type a = assistant -> paired false (ms ++ [a]).

(** The events that can lie between a send and the settling of its query
    and leave the turn alone: every event but a settled query, the choice
    of a session and the arrival of a stored conversation. *)
Definition keepsTurn (e : Event) : bool :=
  match e with
  | QueryFulfilled _ _ _ | QueryRejected _ _ _
  | SessionSelect _ | SessionLoaded _ => false
  | _ => true
  end.

(** A stored conversation of one question and its answer. *)
Definition storedTurn (q a : jsstring) : option (list ApiMessage) :=
  Some [mkApiMessage (str "user") q 100%Z None;
        mkApiMessage (str "assistant") a 200%Z None].

(** A question left behind: in the session [s1] the user sends a question
    and presses New Chat before the query fails. *)
Definition abandonedTurn : list Event :=
  [ SessionSelect (str "s1");
    SessionLoaded (storedTurn (str "q1") (str "a1"));
    Type_ (str "q2");
    Send 1000%Z;
    SessionSelect [];
    QueryRejected 0 2000%Z (mkApiError None) ].

(** An answer in another conversation: in the session [s1] the user sends
    a question and opens the session [s2] before the answer arrives. *)
Definition crossedSessions : list Event :=
  [ SessionSelect (str "s1");
    SessionLoaded (storedTurn (str "q1") (str "a1"));
    Type_ (str "q2");
    Send 1000%Z;
    SessionSelect (str "s2");
    SessionLoaded (storedTurn (str "q3") (str "a3"));
    QueryFulfilled 0 2000%Z (mkQueryResponse (str "a2") (Some (str "s1")) None) ].

(** The requests passed to [chatAPI.query] in a list of outputs. *)
Fixpoint queriesOf (out : list Output) : list QueryRequest :=
  match out with
  | [] => []
  | CallQuery r :: rest => r :: queriesOf rest
  | _ :: rest => queriesOf rest
  end.

End ChatArea.

(** ** ChatMessage: flashcard markers and citation paragraphs *)

Module ChatMessage.

Import Js Regex.

Definition FLASHCARD_START : jsstring := str "FLASHCARD_START".
Definition FLASHCARD_END : jsstring := str "FLASHCARD_END".

(** [[\s\S]]: every character. *)
Definition anyChar (c : ascii) : bool := isSpace c || negb (isSpace c).

(** [/FLASHCARD_START[\s\S]*?FLASHCARD_END/g] *)
Definition flashcardBlock : re :=
  Seq (lits FLASHCARD_START) (Seq (Star false anyChar) (lits FLASHCARD_END)).

(** [message.content.includes('FLASHCARD_START') &&
     message.content.includes('FLASHCARD_END')] *)
Definition hasFlashcards (content : jsstring) : bool :=
  includes FLASHCARD_START content && includes FLASHCARD_END content.

(** [message.content.replace(/FLASHCARD_START[\s\S]*?FLASHCARD_END/g, '')
     .trim()] *)
Definition displayContent (content : jsstring) : jsstring :=
  trim (removeAll false flashcardBlock content).

(** [hasFlashcards && sessionId]: the flashcard viewer is rendered. *)
Definition showsFlashcardViewer (content : jsstring) (sessionId : option jsstring)
    : bool :=
  hasFlashcards content && ChatArea.hasSession sessionId.

(** *** The paragraph renderer *)

Definition notBracket (c : ascii) : bool := negb (Ascii.eqb c "]"%char).

(** The part of the source pattern after the file name:
    [,\s*p\.(\d+)\]]. *)
Definition afterName : re :=
  Seq (Lit ","%char)
 (Seq (Star true isSpace)
 (Seq (lits (str "p."))
 (Seq (Group 2 (Plus isDigit))
      (Lit "]"%char)))).

(** [/Source:\s*\[([^\]]+\.pdf),\s*p\.(\d+)\]/i] *)
Definition sourcePattern : re :=
  Seq (lits (str "Source:"))
 (Seq (Star true isSpace)
 (Seq (Lit "["%char)
 (Seq (Group 1 (Seq (Plus notBracket) (lits (str ".pdf"))))
      afterName))).

(** A child of a paragraph: a string or an element. *)
Inductive Child :=
| Text (s : jsstring)
| Element.

(** [interface Citation] *)
Record Citation := mkCitation {
  file : jsstring;
  page : number;
  lines : jsstring
}.

(** What the renderer returns: the paragraph with the citation button,
    whose click calls [handleCitationClick] with the citation, or the
    paragraph with its children, styled as a source line or not. *)
Inductive Paragraph :=
| CitationParagraph (c : Citation)
| PlainParagraph (isSource : bool) (children : list Child).

Definition matchGroup (i : nat) (c : captures) : jsstring :=
  match capture i c with
  | Some v => v
  | None => []
  end.

(** The [p] component. *)
Definition p (children : list Child) : Paragraph :=
  match children with
  | Text firstChild :: _ =>
    let isSource := startsWith (str "Source:") (trim firstChild) in
    if isSource then
      let sourceText := trim firstChild in
      match search true sourcePattern sourceText with
      | Some m =>
        let filename := matchGroup 1 m in
        let pageNum := parseInt10 (matchGroup 2 m) in
        CitationParagraph (mkCitation filename pageNum [])
      | None => PlainParagraph isSource children
      end
    else PlainParagraph isSource children
  | _ => PlainParagraph false children
  end.

(** The citation a rendered paragraph carries. *)
Definition citationsOf (par : Paragraph) : list Citation :=
  match par with
  | CitationParagraph c => [c]
  | PlainParagraph _ _ => []
  end.

Definition childText (c : Child) : jsstring :=
  match c with
  | Text s => s
  | Element => []
  end.

(** The label of the citation button:
    [Source: [{filename}, p.{pageNum}]]. *)
Definition citationLabel (c : Citation) : jsstring :=
  str "Source: [" ++ file c ++ str ", p." ++ Number_toString (page c) ++ str "]".

(** The text a rendered paragraph shows, and the part of it that is not
    inside a citation button. *)
Definition visibleText (par : Paragraph) : jsstring :=
  match par with
  | CitationParagraph c => citationLabel c
  | PlainParagraph _ children => List.concat (map childText children)
  end.

Definition bareText (par : Paragraph) : jsstring :=
  match par with
  | CitationParagraph _ => []
  | PlainParagraph _ children => List.concat (map childText children)
  end.

(** Equality of two strings up to letter case. *)
Fixpoint sameLetters (a b : jsstring) : bool :=
  match a, b with
  | [], [] => true
  | x :: a', y :: b' => litMatches true x y && sameLetters a' b'
  | _, _ => false
  end.

(** The file names the source pattern accepts: no closing bracket, and at
    least one character in front of a final [.pdf] in any letter case. *)
Definition pdfName (f : jsstring) : bool :=
  forallb notBracket f && (5 <=? List.length f) &&
  sameLetters (str ".pdf") (skipn (List.length f - 4) f).

(** The first child is not a string that starts with [Source:]. *)
Definition notSource (children : list Child) : Prop :=
  match children with
  | Text firstChild :: _ => startsWith (str "Source:") (trim firstChild) = false
  | _ => True
  end.

(** *** The text with the flashcard blocks removed *)

(** [cut pat s] splits [s] around the first occurrence of [pat]. *)
Fixpoint cut (pat s : jsstring) : option (jsstring * jsstring) :=
  if startsWith pat s then Some ([], skipn (List.length pat) s)
  else
    match s with
    | [] => None
    | c :: rest =>
      match cut pat rest with
      | Some (before, after) => Some (c :: before, after)
      | None => None
      end
    end.

(** The first delimited block of [s]: the text before its start marker,
    its body, and the text after its end marker. *)
Definition firstBlock (s : jsstring) : option (jsstring * jsstring * jsstring) :=
  match cut FLASHCARD_START s with
  | Some (before, rest) =>
    match cut FLASHCARD_END rest with
    | Some (body, after) => Some (before, body, after)
    | None => None
    end
  | None => None
  end.

(** The content holds a start marker followed by an end marker. *)
Definition hasBlock (s : jsstring) : bool :=
  match firstBlock s with Some _ => true | None => false end.

(** The reading of the specification, to be compared with
    [displayContent]: the content with every delimited block removed,
    blocks taken from left to right, each from a start marker to the
    nearest end marker after it. *)
Fixpoint stripBlocksFuel (fuel : nat) (s : jsstring) : jsstring :=
  match fuel with
  | O => s
  | S fuel' =>
    match firstBlock s with
    | Some (before, _, after) => before ++ stripBlocksFuel fuel' after
    | None => s
    end
  end.

Definition stripBlocks (s : jsstring) : jsstring :=
  stripBlocksFuel (List.length s) s.

End ChatMessage.

(** ** PDFViewer: zoom state *)

Module PDFViewer.

Local Open Scope Z_scope.

(** [useState(100)] *)
Definition initialZoom : Z := 100.

(** [setZoom((prev) => Math.min(prev + 25, 200))] *)
Definition handleZoomIn (prev : Z) : Z := Z.min (prev + 25) 200.

(** [setZoom((prev) => Math.max(prev - 25, 50))] *)
Definition handleZoomOut (prev : Z) : Z := Z.max (prev - 25) 50.

(** The two toolbar buttons that touch the zoom cell. *)
Inductive click := ZoomIn | ZoomOut.

Definition onClick (c : click) (zoom : Z) : Z :=
  match c with
  | ZoomIn => handleZoomIn zoom
  | ZoomOut => handleZoomOut zoom
  end.

(** The zoom cell after a sequence of clicks, oldest first. *)
Definition zoomAfter (cs : list click) : Z :=
  fold_left (fun z c => onClick c z) cs initialZoom.

(** The invariant of the zoom cell. *)
Definition zoomOk (z : Z) : Prop :=
  50 <= z <= 200 /\ (25 | z).

End PDFViewer.

(** ** ChatSidebar: grouping the session list by day *)

Module ChatSidebar.

Local Open Scope Z_scope.

(** [interface ChatSession] *)
Record ChatSession := mkChatSession {
  session_id : string;
  title : string;
  created_at : string;
  message_count : Z
}.

(** The four arrays of the [grouped] object. *)
Record Grouped := mkGrouped {
  today : list ChatSession;
  yesterday : list ChatSession;
  lastWeek : list ChatSession;
  older : list ChatSession
}.

Inductive bucket := Today | Yesterday | LastWeek | Older.

Definition bucket_eqb (a b : bucket) : bool :=
  match a, b with
  | Today, Today | Yesterday, Yesterday
  | LastWeek, LastWeek | Older, Older => true
  | _, _ => false
  end.

Definition select (b : bucket) (g : Grouped) : list ChatSession :=
  match b with
  | Today => today g
  | Yesterday => yesterday g
  | LastWeek => lastWeek g
  | Older => older g
  end.

(** The time value of a [Date]: milliseconds since the epoch, or [None]
    for the NaN of an Invalid Date. *)
Definition timeValue := option Z.

(** [a.getTime() === b.getTime()]: NaN is equal to nothing. *)
Definition time_eq (a b : timeValue) : bool :=
  match a, b with
  | Some x, Some y => x =? y
  | _, _ => false
  end.

(** [a >= b] on two [Date]s: both are converted to their time values and
    a NaN makes the comparison false. *)
Definition time_ge (a b : timeValue) : bool :=
  match a, b with
  | Some x, Some y => y <=? x
  | _, _ => false
  end.

Section Calendar.

(** The calendar of the host is not part of the component; the three
    operations the function uses on [Date] are taken as given.
    - [parseDate s]      is [new Date(s)];
    - [startOfDay d]     is [new Date(d.getFullYear(), d.getMonth(),
                         d.getDate())];
    - [addDays d k]      is [d] after [d.setDate(d.getDate() + k)]. *)
Variable parseDate : string -> timeValue.
Variable startOfDay : timeValue -> timeValue.
Variable addDays : timeValue -> Z -> timeValue.

(** [now] is the value of [new Date()] when the function runs. *)
Variable now : timeValue.

Definition todayStart : timeValue := startOfDay now.
Definition yesterdayStart : timeValue := addDays todayStart (-1).
Definition lastWeekStart : timeValue := addDays todayStart (-7).

(** The if-chain in the body of the [forEach] callback. *)
Definition classify (session : ChatSession) : bucket :=
  let sessionDate := parseDate (created_at session) in
  let sessionDay := startOfDay sessionDate in
  if time_eq sessionDay todayStart then Today
  else if time_eq sessionDay yesterdayStart then Yesterday
  else if time_ge sessionDay lastWeekStart then LastWeek
  else Older.

(** [grouped.<bucket>.push(session)] *)
Definition push (g : Grouped) (session : ChatSession) : Grouped :=
  match classify session with
  | Today => mkGrouped (today g ++ [session]) (yesterday g) (lastWeek g) (older g)
  | Yesterday => mkGrouped (today g) (yesterday g ++ [session]) (lastWeek g) (older g)
  | LastWeek => mkGrouped (today g) (yesterday g) (lastWeek g ++ [session]) (older g)
  | Older => mkGrouped (today g) (yesterday g) (lastWeek g) (older g ++ [session])
  end.

Definition emptyGrouped : Grouped := mkGrouped [] [] [] [].

(** [sessions.forEach(...)] over the initially empty [grouped]. *)
Definition groupSessionsByDate (sessions : list ChatSession) : Grouped :=
  fold_left push sessions emptyGrouped.

(** The sessions of a list that fall in bucket [b]. *)
Definition inBucket (b : bucket) (sessions : list ChatSession) : list ChatSession :=
  filter (fun s => bucket_eqb (classify s) b) sessions.

End Calendar.

End ChatSidebar.

(** ** FileUploadDialog: the whole dialog as a state machine *)

Module UploadDialog.

Import Js FileUpload.

(** [file.type === "application/pdf"] *)
Definition isPdf (f : File) : bool := Js.eqb (type f) (str "application/pdf").

(** What the dialog does to the outside world: the effects of
    [handleUpload] and its continuations, and the toast of
    [handleFileSelect]. *)
Inductive Output :=
| Eff (e : Effect)
| ToastInvalidFiles.

(** [handleFileSelect]: the PDF files of the selection are appended; a
    toast tells when some file was left out. *)
Definition handleFileSelect (selectedFiles : list File) (s : Dialog.State)
    : Dialog.State * list Output :=
  let pdfFiles := filter isPdf selectedFiles in
  (Dialog.mkState (Dialog.files s ++ pdfFiles) (Dialog.collectionType s)
     (Dialog.collectionName s) (Dialog.uploading s) (Dialog.uploadProgress s)
     (Dialog.isOpen s),
   if (List.length pdfFiles =? List.length selectedFiles)%nat
   then [] else [ToastInvalidFiles]).

(** [prev.filter((_, i) => i !== index)], with [i] the position of the
    head of the list. *)
Fixpoint dropIndex (index i : nat) (l : list File) : list File :=
  match l with
  | [] => []
  | f :: rest =>
    if (i =? index)%nat then dropIndex index (S i) rest
    else f :: dropIndex index (S i) rest
  end.

(** [removeFile] *)
Definition removeFile (index : nat) (s : Dialog.State) : Dialog.State :=
  Dialog.mkState (dropIndex index 0 (Dialog.files s)) (Dialog.collectionType s)
    (Dialog.collectionName s) (Dialog.uploading s) (Dialog.uploadProgress s)
    (Dialog.isOpen s).

Definition setCollectionType (t : CollectionType) (s : Dialog.State) : Dialog.State :=
  Dialog.mkState (Dialog.files s) t (Dialog.collectionName s) (Dialog.uploading s)
    (Dialog.uploadProgress s) (Dialog.isOpen s).

Definition setCollectionName (n : jsstring) (s : Dialog.State) : Dialog.State :=
  Dialog.mkState (Dialog.files s) (Dialog.collectionType s) n (Dialog.uploading s)
    (Dialog.uploadProgress s) (Dialog.isOpen s).

(** [onOpenChange(v)]: the parent keeps the [open] flag. *)
Definition setOpen (v : bool) (s : Dialog.State) : Dialog.State :=
  Dialog.mkState (Dialog.files s) (Dialog.collectionType s) (Dialog.collectionName s)
    (Dialog.uploading s) (Dialog.uploadProgress s) v.

(** The callback of the progress interval:
    [setUploadProgress((prev) => prev >= 90 ? prev : prev + 10)]. *)
Definition progressTick (s : Dialog.State) : Dialog.State :=
  Dialog.mkState (Dialog.files s) (Dialog.collectionType s) (Dialog.collectionName s)
    (Dialog.uploading s)
    (if (90 <=? Dialog.uploadProgress s)%Z then Dialog.uploadProgress s
     else (Dialog.uploadProgress s + 10)%Z)
    (Dialog.isOpen s).

(** The dialog with what it has started and not finished: the running
    progress intervals, the upload promises that are not settled and the
    reset timeouts that have not fired. *)
Record Machine := mkMachine {
  cells : Dialog.State;
  timers : nat;
  pending : list UploadRequest;
  resets : nat
}.

(** The initial values of the cells, in a closed dialog. *)
Definition initial : Machine :=
  mkMachine (Dialog.mkState [] main [] false 0 false) 0 [] 0.

(** One effect, as the machine keeps track of it. *)
Definition absorb (m : Machine) (e : Effect) : Machine :=
  match e with
  | StartProgressTimer => mkMachine (cells m) (S (timers m)) (pending m) (resets m)
  | StopProgressTimer => mkMachine (cells m) (pred (timers m)) (pending m) (resets m)
  | Upload r => mkMachine (cells m) (timers m) (pending m ++ [r]) (resets m)
  | ScheduleReset => mkMachine (cells m) (timers m) (pending m) (S (resets m))
  | Toast _ | ScheduleReload => m
  end.

Definition withCells (c : Dialog.State) (m : Machine) : Machine :=
  mkMachine c (timers m) (pending m) (resets m).

(** A handler result taken into the machine. *)
Definition commit (m : Machine) (r : Dialog.State * list Effect)
    : Machine * list Output :=
  (fold_left absorb (snd r) (withCells (fst r) m), map Eff (snd r)).

Inductive Event :=
| Open
| Dismiss
| ClickCancel
| SelectFiles (selectedFiles : list File)
| RemoveFile (index : nat)
| ChooseType (t : CollectionType)
| TypeName (n : jsstring)
| ClickUpload
| Tick
| UploadFulfilled (i : nat)
| UploadRejected (i : nat)
| ResetFires.

(** The controls of the open dialog that carry [disabled={uploading}]. *)
Definition controlsEnabled (m : Machine) : bool :=
  Dialog.isOpen (cells m) && negb (Dialog.uploading (cells m)).

(** [disabled={uploading || files.length === 0}] of the Upload button. *)
Definition uploadEnabled (m : Machine) : bool :=
  Dialog.isOpen (cells m) && negb (Dialog.uploading (cells m)) &&
  negb (List.length (Dialog.files (cells m)) =? 0)%nat.

Definition isIsolated (t : CollectionType) : bool :=
  match t with isolated => true | main => false end.

(** One event of the dialog; [None] when it cannot happen: a control is
    disabled or not rendered, no interval runs, no promise or timeout is
    pending. *)
Definition step (e : Event) (m : Machine) : option (Machine * list Output) :=
  match e with
  | Open => Some (withCells (setOpen true (cells m)) m, [])
  | Dismiss =>
    if Dialog.isOpen (cells m)
    then Some (withCells (setOpen false (cells m)) m, []) else None
  | ClickCancel =>
    if controlsEnabled m
    then Some (withCells (setOpen false (cells m)) m, []) else None
  | SelectFiles fs =>
    if controlsEnabled m
    then let (c, out) := handleFileSelect fs (cells m) in Some (withCells c m, out)
    else None
  | RemoveFile index =>
    if controlsEnabled m && (index <? List.length (Dialog.files (cells m)))%nat
    then Some (withCells (removeFile index (cells m)) m, []) else None
  | ChooseType t =>
    if controlsEnabled m
    then Some (withCells (setCollectionType t (cells m)) m, []) else None
  | TypeName n =>
    if controlsEnabled m && isIsolated (Dialog.collectionType (cells m))
    then Some (withCells (setCollectionName n (cells m)) m, []) else None
  | ClickUpload =>
    if uploadEnabled m then Some (commit m (Dialog.handleUpload (cells m)))
    else None
  | Tick =>
    match timers m with
    | O => None
    | S _ => Some (withCells (progressTick (cells m)) m, [])
    end
  | UploadFulfilled i =>
    match nth_error (pending m) i with
    | Some _ =>
      Some (commit (mkMachine (cells m) (timers m)
                      (ChatArea.removeAt i (pending m)) (resets m))
              (Dialog.uploadFulfilled (cells m)))
    | None => None
    end
  | UploadRejected i =>
    match nth_error (pending m) i with
    | Some _ =>
      Some (commit (mkMachine (cells m) (timers m)
                      (ChatArea.removeAt i (pending m)) (resets m))
              (Dialog.uploadRejected (cells m)))
    | None => None
    end
  | ResetFires =>
    match resets m with
    | O => None
    | S n =>
      Some (mkMachine (Dialog.resetState (cells m)) (timers m) (pending m) n, [])
    end
  end.

Inductive run : Machine -> list Event -> list Output -> Machine -> Prop :=
| run_nil m : run m [] [] m
| run_cons m e m1 out1 es out2 m2 :
    step e m = Some (m1, out1) ->
    run m1 es out2 m2 ->
    run m (e :: es) (out1 ++ out2) m2.

Fixpoint runEvents (es : list Event) (m : Machine) : option (Machine * list Output) :=
  match es with
  | [] => Some (m, [])
  | e :: rest =>
    match step e m with
    | Some (m1, out1) =>
      match runEvents rest m1 with
      | Some (m2, out2) => Some (m2, out1 ++ out2)
      | None => None
      end
    | None => None
    end
  end.

(** The upload requests among the outputs. *)
Fixpoint uploadsOf (out : list Output) : list UploadRequest :=
  match out with
  | [] => []
  | Eff (Upload r) :: rest => r :: uploadsOf rest
  | _ :: rest => uploadsOf rest
  end.

(** The uploads that failed in a list of events. *)
Fixpoint failures (es : list Event) : nat :=
  match es with
  | [] => 0
  | UploadRejected _ :: rest => S (failures rest)
  | _ :: rest => failures rest
  end.

(** The request [handleUpload] builds from the cells. *)
Definition currentRequest (c : Dialog.State) : UploadRequest :=
  mkUploadRequest (Dialog.files c) (Dialog.collectionType c)
    (nameArgument (Dialog.collectionType c) (Dialog.collectionName c)).

(** Where the dialog is in an upload: idle, waiting for the server (with
    the request made of the files and the collection still shown), or done
    and waiting for the reset; with the progress shown there. *)
Definition phase (m : Machine) : Prop :=
  (Dialog.uploading (cells m) = false /\ pending m = [] /\ resets m = 0 /\
   (Dialog.uploadProgress (cells m) <= 90)%Z) \/
  (Dialog.uploading (cells m) = true /\
   pending m = [currentRequest (cells m)] /\
   Dialog.files (cells m) <> [] /\
   nameMissing (Dialog.collectionType (cells m))
     (Dialog.collectionName (cells m)) = false /\
   resets m = 0 /\ (Dialog.uploadProgress (cells m) <= 90)%Z) \/
  (Dialog.uploading (cells m) = true /\ pending m = [] /\ resets m = 1 /\
   Dialog.uploadProgress (cells m) = 100%Z).

(** The invariant of the dialog after [k] failed uploads. *)
Definition invariant (k : nat) (m : Machine) : Prop :=
  forallb isPdf (Dialog.files (cells m)) = true /\
  phase m /\
  (0 <= Dialog.uploadProgress (cells m))%Z /\
  (10 | Dialog.uploadProgress (cells m))%Z /\
  timers m = List.length (pending m) + k.

(** An upload request with at least one file, all of them PDF files. *)
Definition wellFormed (r : UploadRequest) : Prop :=
  req_files r <> [] /\ forallb isPdf (req_files r) = true.

(** A session with the dialog: a PDF and a text file are chosen for an
    isolated collection, the first upload fails, the second succeeds and
    the dialog resets. *)
Definition retryScenario : list Event :=
  [ Open;
    SelectFiles [mkFile (str "a.pdf") (str "application/pdf") 10;
                 mkFile (str "b.txt") (str "text/plain") 20];
    ChooseType isolated;
    TypeName (str "notes");
    ClickUpload; Tick;
    UploadRejected 0;
    ClickUpload;
    UploadFulfilled 0;
    ResetFires ].

End UploadDialog.

(** ** The documents page: choosing files and uploading them *)

Module DocumentsPage.

Import Js FileUpload.

(** [handleFileSelect]: a non-empty selection replaces the selected files
    and opens the dialog. *)
Definition handleFileSelect (files : list File) (s : Documents.State)
    : Documents.State :=
  match files with
  | [] => s
  | _ :: _ =>
    Documents.mkState (Documents.uploading s) true (Documents.collectionType s)
      (Documents.collectionName s) files
  end.

Definition setUploadDialogOpen (v : bool) (s : Documents.State) : Documents.State :=
  Documents.mkState (Documents.uploading s) v (Documents.collectionType s)
    (Documents.collectionName s) (Documents.selectedFiles s).

Definition setCollectionType (t : CollectionType) (s : Documents.State)
    : Documents.State :=
  Documents.mkState (Documents.uploading s) (Documents.uploadDialogOpen s) t
    (Documents.collectionName s) (Documents.selectedFiles s).

Definition setCollectionName (n : jsstring) (s : Documents.State)
    : Documents.State :=
  Documents.mkState (Documents.uploading s) (Documents.uploadDialogOpen s)
    (Documents.collectionType s) n (Documents.selectedFiles s).

(** The upload cells of the page and the upload promises that are not
    settled yet. *)
Record Machine := mkMachine {
  cells : Documents.State;
  pending : list UploadRequest
}.

Definition initial : Machine :=
  mkMachine (Documents.mkState false false main [] []) [].

Definition withCells (c : Documents.State) (m : Machine) : Machine :=
  mkMachine c (pending m).

(** The requests among the effects of a handler. *)
Fixpoint uploadsOf (out : list Effect) : list UploadRequest :=
  match out with
  | [] => []
  | Upload r :: rest => r :: uploadsOf rest
  | _ :: rest => uploadsOf rest
  end.

Inductive Event :=
| PickFiles (files : list File)
| ChooseType (t : CollectionType)
| TypeName (n : jsstring)
| CloseDialog
| ClickUpload
| UploadFulfilled (i : nat)
| UploadRejected (i : nat).

Definition isIsolated (t : CollectionType) : bool :=
  match t with isolated => true | main => false end.

(** One event. The button that opens the file chooser is disabled while
    [uploading]; the radio group, the Cancel and the Upload button exist
    while the dialog is open, the name field while the type is isolated,
    and the Upload button is disabled while the name of an isolated
    collection is blank. *)
Definition step (e : Event) (m : Machine) : option (Machine * list Effect) :=
  match e with
  | PickFiles files =>
    if Documents.uploading (cells m) then None
    else Some (withCells (handleFileSelect files (cells m)) m, [])
  | ChooseType t =>
    if Documents.uploadDialogOpen (cells m)
    then Some (withCells (setCollectionType t (cells m)) m, []) else None
  | TypeName n =>
    if Documents.uploadDialogOpen (cells m) &&
       isIsolated (Documents.collectionType (cells m))
    then Some (withCells (setCollectionName n (cells m)) m, []) else None
  | CloseDialog =>
    if Documents.uploadDialogOpen (cells m)
    then Some (withCells (setUploadDialogOpen false (cells m)) m, []) else None
  | ClickUpload =>
    if Documents.uploadDialogOpen (cells m) &&
       negb (nameMissing (Documents.collectionType (cells m))
               (Documents.collectionName (cells m)))
    then
      let (c, out) := Documents.handleUpload (cells m) in
      Some (mkMachine c (pending m ++ uploadsOf out), out)
    else None
  | UploadFulfilled i =>
    match nth_error (pending m) i with
    | Some _ =>
      let (c, out) := Documents.uploadFulfilled (cells m) in
      Some (mkMachine c (ChatArea.removeAt i (pending m)), out)
    | None => None
    end
  | UploadRejected i =>
    match nth_error (pending m) i with
    | Some _ =>
      let (c, out) := Documents.uploadRejected (cells m) in
      Some (mkMachine c (ChatArea.removeAt i (pending m)), out)
    | None => None
    end
  end.

Fixpoint runEvents (es : list Event) (m : Machine) : option (Machine * list Effect) :=
  match es with
  | [] => Some (m, [])
  | e :: rest =>
    match step e m with
    | Some (m1, out1) =>
      match runEvents rest m1 with
      | Some (m2, out2) => Some (m2, out1 ++ out2)
      | None => None
      end
    | None => None
    end
  end.

(** The invariant of the page: an upload is pending exactly while the
    flag is set, the dialog is closed then, and an open dialog has a
    selection. *)
Definition invariant (m : Machine) : Prop :=
  ((Documents.uploading (cells m) = false /\ pending m = []) \/
   (Documents.uploading (cells m) = true /\
    Documents.uploadDialogOpen (cells m) = false /\
    exists r, pending m = [r])) /\
  (Documents.uploadDialogOpen (cells m) = true ->
   Documents.selectedFiles (cells m) <> []).

(** A text file is chosen on the documents page and uploaded to the main
    corpus; the upload fails. *)
Definition textFileScenario : list Event :=
  [ PickFiles [mkFile (str "b.txt") (str "text/plain") 20];
    ClickUpload;
    UploadRejected 0 ].

End DocumentsPage.

(** ** ChatArea: the queries of a run *)

Module ChatTurns.

Import Js ChatArea.

(** The events that settle a query promise. *)
Definition settles (e : Event) : bool :=
  match e with
  | QueryFulfilled _ _ _ | QueryRejected _ _ _ => true
  | _ => false
  end.

(** The number of query promises settled in a list of events. *)
Definition settled (es : list Event) : nat := List.length (filter settles es).

(** A session identifier as the page keeps it: absent, or a non-empty
    string. *)
Definition properSession (sid : option jsstring) : Prop :=
  sid = None \/ exists v, sid = Some v /\ truthy v = true.

(** The arguments of a [chatAPI.query] call: a text that is not blank,
    fifteen passages, a session identifier that is absent or non-empty. *)
Definition wellFormed (r : QueryRequest) : Prop :=
  isBlank (query r) = false /\ top_k r = 15%Z /\ properSession (session_id r).

(** The role names of a stored message that the component shows as a user
    message. *)
Definition roleOf (m : ApiMessage) : Role :=
  if Js.eqb (role m) (str "user") then user else assistant.

(** The first question of a chat is answered with a new session; the
    stored conversation then arrives. *)
Definition firstTurn : list Event :=
  [ Type_ (str " hi ");
    Send 1000%Z;
    QueryFulfilled 0 2000%Z (mkQueryResponse (str "hello") (Some (str "s1")) None);
    SessionLoaded (Some [mkApiMessage (str "user") (str " hi ") 1000%Z None;
                         mkApiMessage (str "bot") (str "hello") 2000%Z None]) ].

End ChatTurns.

(** ** ChatMessage: what the displayed text is made of *)

Module DisplayedText.

Import Js.

(** [a] is [b] with some characters left out. *)
Inductive subsequence : jsstring -> jsstring -> Prop :=
| sub_nil : subsequence [] []
| sub_skip c a b : subsequence a b -> subsequence a (c :: b)
| sub_keep c a b : subsequence a b -> subsequence (c :: a) (c :: b).

End DisplayedText.

(** ** Opening a cited document: ChatMessage, Chat and PDFViewer *)

Module CitationClick.

Import Js.
Local Open Scope Z_scope.

(** *** [encodeURIComponent], on code units below 256 *)

Definition isAlnum (c : ascii) : bool :=
  let n := code c in
  ((48 <=? n) && (n <=? 57) || (65 <=? n) && (n <=? 90) ||
   (97 <=? n) && (n <=? 122))%nat.

(** The characters [encodeURIComponent] leaves as they are. *)
Definition unreserved (c : ascii) : bool :=
  isAlnum c || existsb (Ascii.eqb c) (str "-_.!~*'()").

Definition hexDigit (n : nat) : ascii :=
  nth n (str "0123456789ABCDEF") "0"%char.

(** One byte as [%XX]. *)
Definition percent (b : nat) : jsstring :=
  ["%"%char; hexDigit (b / 16); hexDigit (b mod 16)].

(** A code unit below 128 is one byte of UTF-8, one below 256 is two. *)
Definition encodeUnit (c : ascii) : jsstring :=
  if unreserved c then [c]
  else if (code c <? 128)%nat then percent (code c)
  else percent (192 + code c / 64) ++ percent (128 + code c mod 64).

Definition encodeURIComponent (s : jsstring) : jsstring :=
  flat_map encodeUnit s.

(** The characters of an encoded component. *)
Definition urlSafe (c : ascii) : bool :=
  unreserved c || Ascii.eqb c "%"%char.

(** The value of a hexadecimal digit. *)
Definition hexValue (c : ascii) : nat :=
  let n := code c in
  if (n <=? 57)%nat then n - 48 else n - 55.

(** The inverse of [encodeURIComponent] on its image, used to tell that
    two names have two encodings. *)
Fixpoint decodeFuel (fuel : nat) (s : jsstring) : jsstring :=
  match fuel with
  | O => []
  | S fuel' =>
    match s with
    | [] => []
    | c :: rest =>
      if Ascii.eqb c "%"%char then
        match rest with
        | h1 :: h2 :: rest2 =>
          let b := (16 * hexValue h1 + hexValue h2)%nat in
          if (b <? 128)%nat then ascii_of_nat b :: decodeFuel fuel' rest2
          else
            match rest2 with
            | _ :: h3 :: h4 :: rest4 =>
              let b2 := (16 * hexValue h3 + hexValue h4)%nat in
              ascii_of_nat ((b - 192) * 64 + (b2 - 128)) :: decodeFuel fuel' rest4
            | _ => []
            end
        | _ => []
        end
      else c :: decodeFuel fuel' rest
    end
  end.

Definition decode (s : jsstring) : jsstring := decodeFuel (List.length s) s.

(** *** The citation chips and [handleCitationClick] *)


(** [n > k] on a number: false for NaN. *)
Definition greater (n : number) (k : Z) : bool :=
  match n with
  | Int z => k <? z
  | NaN => false
  end.





(** [citation.page || 1] *)
Definition pageOrOne (p : number) : number :=
  if truthyNumber p then p else Int 1.

(** A value that was thrown:
    [error instanceof Error ? error.message : 'Unknown error']. *)
Inductive Thrown :=
| ErrorObject (message : jsstring)
| OtherValue.

Definition thrownMessage (e : Thrown) : jsstring :=
  match e with
  | ErrorObject message => message
  | OtherValue => str "Unknown error"
  end.

(** The body of a response that is not ok: [response.json()] gives an
    object whose [detail] may be absent; or it fails and
    [response.text()] gives a text; or that fails too. *)
Inductive ErrorBody :=
| JsonBody (detail : option jsstring)
| TextBody (text : jsstring)
| NoBody (e : Thrown).

Inductive BlobResult :=
| BlobRead (size : Z) (blobUrl : jsstring)
| BlobFailed (e : Thrown).

(** How the [fetch] of the document goes. *)
Inductive FetchResult :=
| FetchFailed (e : Thrown)
| NotOk (status : Z) (body : ErrorBody)
| Ok (blob : BlobResult).

(** What the handler does to the outside world, in program order. *)
Inductive Action :=
| Alert (text : jsstring)
| Fetch (url authorization : jsstring)
| OpenPDF (url filename : jsstring) (page : number)
| WindowOpen (url : jsstring)
| ScheduleRevoke (url : jsstring).

(** [x || y] on strings, [x] possibly absent. *)
Definition orElse (x : option jsstring) (y : jsstring) : jsstring :=
  match x with
  | Some v => if truthy v then v else y
  | None => y
  end.

Definition failedToOpen (reason : jsstring) : Action :=
  Alert (str "Failed to open document: " ++ reason).

(** [`${API_BASE_URL}/documents/view/${encodeURIComponent(citation.file)}`] *)
Definition viewUrl (API_BASE_URL file : jsstring) : jsstring :=
  API_BASE_URL ++ str "/documents/view/" ++ encodeURIComponent file.

(** [handleCitationClick]. [token] is [localStorage.getItem("access_token")],
    [onOpenPDF] tells whether the callback was given, [w] is how the
    request goes and [popupBlocked] whether [window.open] returns null. *)
Definition handleCitationClick (API_BASE_URL : jsstring) (onOpenPDF : bool)
    (token : option jsstring) (citation : ChatMessage.Citation)
    (w : FetchResult) (popupBlocked : bool) : list Action :=
  match token with
  | Some t =>
    if truthy t then
      Fetch (viewUrl API_BASE_URL (ChatMessage.file citation)) (str "Bearer " ++ t) ::
      match w with
      | FetchFailed e => [failedToOpen (thrownMessage e)]
      | NotOk status body =>
        let errorMessage := str "Server returned " ++ Number_toString (Int status) in
        match body with
        | JsonBody detail => [failedToOpen (orElse detail errorMessage)]
        | TextBody text => [failedToOpen (orElse (Some text) errorMessage)]
        | NoBody e => [failedToOpen (thrownMessage e)]
        end
      | Ok (BlobFailed e) => [failedToOpen (thrownMessage e)]
      | Ok (BlobRead size blobUrl) =>
        if size =? 0 then [Alert (str "Document is empty or failed to download")]
        else if onOpenPDF
        then [OpenPDF blobUrl (ChatMessage.file citation)
                (pageOrOne (ChatMessage.page citation))]
        else
          WindowOpen blobUrl ::
          (if popupBlocked
           then [Alert (str "Please allow popups to view documents")] else []) ++
          [ScheduleRevoke blobUrl]
      end
    else [Alert (str "Please log in to view documents")]
  | None => [Alert (str "Please log in to view documents")]
  end.

(** *** The page [Chat] and the viewer *)

(** [interface PDFViewState] *)
Record PDFViewState := mkPDFViewState {
  url : jsstring;
  filename : jsstring;
  page : number
}.

(** [pdfUrlWithPage] of PDFViewer:
    [page > 1 ? `${pdfUrl}#page=${page}` : pdfUrl]. *)
Definition pdfUrlWithPage (v : PDFViewState) : jsstring :=
  if greater (page v) 1
  then url v ++ str "#page=" ++ Number_toString (page v)
  else url v.

(** The header shows [· Page {page}] when [page > 1]. *)
Definition showsPageLabel (v : PDFViewState) : bool := greater (page v) 1.

(** The cell [pdfView] of the page, and the zoom cell of the viewer, which
    exists while the viewer is rendered. React keeps the cells of a
    component that stays at its place in the tree, so the zoom survives
    a change of [pdfView] from one document to another and is lost when
    [pdfView] becomes null. *)
Record State := mkState {
  pdfView : option PDFViewState;
  zoom : option Z
}.

Definition initial : State := mkState None None.

(** [handleOpenPDF] *)
Definition handleOpenPDF (u f : jsstring) (p : number) (s : State) : State :=
  mkState (Some (mkPDFViewState u f p))
    (match zoom s with
     | Some z => Some z
     | None => Some PDFViewer.initialZoom
     end).

(** [handleClosePDF] *)
Definition handleClosePDF (s : State) : State := mkState None None.

Inductive Event :=
| Act (a : Action)
| ClickClose
| Click (c : PDFViewer.click).

(** One event of the page: an action of [handleCitationClick] (only
    [onOpenPDF] touches the page), or a click in the tool bar of the
    viewer, which exists while [pdfView] is set. *)
Definition step (e : Event) (s : State) : option State :=
  match e with
  | Act (OpenPDF u f p) => Some (handleOpenPDF u f p s)
  | Act _ => Some s
  | ClickClose =>
    match pdfView s with
    | Some _ => Some (handleClosePDF s)
    | None => None
    end
  | Click c =>
    match zoom s with
    | Some z => Some (mkState (pdfView s) (Some (PDFViewer.onClick c z)))
    | None => None
    end
  end.

Fixpoint runEvents (es : list Event) (s : State) : option State :=
  match es with
  | [] => Some s
  | e :: rest =>
    match step e s with
    | Some s1 => runEvents rest s1
    | None => None
    end
  end.

(** The [src] of the frame, if the viewer is rendered. *)
Definition frameSrc (s : State) : option jsstring :=
  option_map pdfUrlWithPage (pdfView s).

(** The last document opened in a list of events, if it was not closed
    since. *)
Fixpoint lastOpened (es : list Event) (acc : option PDFViewState)
    : option PDFViewState :=
  match es with
  | [] => acc
  | Act (OpenPDF u f p) :: rest => lastOpened rest (Some (mkPDFViewState u f p))
  | ClickClose :: rest => lastOpened rest None
  | _ :: rest => lastOpened rest acc
  end.

(** The zoom clicks since the viewer was last put on the page, if it is
    there. *)
Fixpoint mountedClicks (es : list Event) (acc : option (list PDFViewer.click))
    : option (list PDFViewer.click) :=
  match es with
  | [] => acc
  | Act (OpenPDF _ _ _) :: rest =>
    mountedClicks rest (match acc with Some cs => Some cs | None => Some [] end)
  | ClickClose :: rest => mountedClicks rest None
  | Click c :: rest =>
    mountedClicks rest (option_map (fun cs => cs ++ [c]) acc)
  | _ :: rest => mountedClicks rest acc
  end.

(** A document is opened and enlarged, another one is opened, the viewer
    is closed and the first document is opened again. *)
Definition twoDocuments : list Event :=
  [ Act (OpenPDF (str "blob:1") (str "a.pdf") (Int 3));
    Click PDFViewer.ZoomIn; Click PDFViewer.ZoomIn;
    Act (OpenPDF (str "blob:2") (str "b.pdf") (Int 1));
    ClickClose;
    Act (OpenPDF (str "blob:3") (str "a.pdf") (Int 3)) ].

End CitationClick.

(** ** AuthContext and the pages that sign in and out *)

Module Auth.

Import Js.

(** [interface User] *)
Record User := mkUser {
  user_id : jsstring;
  username : jsstring;
  email : jsstring;
  pinecone_namespace : jsstring;
  created_at : jsstring
}.

(** The value of a fulfilled [authAPI.login] or [authAPI.signup]. *)
Record AuthResponse := mkAuthResponse {
  access_token : jsstring;
  resp_user : User
}.

(** The two keys of [localStorage] the provider uses. *)
Record Storage := mkStorage {
  token : option jsstring;
  storedUser : option jsstring
}.

(** The cells of [AuthProvider] and the storage. *)
Record State := mkState {
  user : option User;
  isLoading : bool;
  storage : Storage
}.

Inductive Toast :=
| LoginSuccessful (name : jsstring)
| LoginFailed (description : jsstring)
| AccountCreated (name : jsstring)
| SignupFailed (description : jsstring)
| LoggedOut.

(** How an [async] function of the provider ends for its caller. *)
Inductive Settled :=
| Fulfilled
| Rejected (e : ChatArea.ApiError).

(** [x || y] on strings, [x] possibly absent. *)
Definition orElse (x : option jsstring) (y : jsstring) : jsstring :=
  match x with
  | Some v => if truthy v then v else y
  | None => y
  end.

(** The state when the provider is created, over a given storage. *)
Definition initial (st : Storage) : State := mkState None true st.

(** [isAuthenticated: !!user] *)
Definition isAuthenticated (s : State) : bool :=
  match user s with Some _ => true | None => false end.

Definition clearStorage (s : State) : State :=
  mkState (user s) (isLoading s) (mkStorage None None).

(** [checkAuth] up to its [await]: the request is made when a token is
    stored; without one the loading flag is cleared at once. *)
Definition checkAuth (s : State) : State * bool :=
  match token (storage s) with
  | Some t =>
    if truthy t then (s, true) else (mkState (user s) false (storage s), false)
  | None => (mkState (user s) false (storage s), false)
  end.

Definition checkFulfilled (userData : User) (s : State) : State :=
  mkState (Some userData) false (storage s).

Definition checkRejected (s : State) : State :=
  mkState (user s) false (mkStorage None None).

Section Stringify.

(** [JSON.stringify] on a user. *)
Variable stringify : User -> jsstring.

(** The rest of [login] when [authAPI.login] is fulfilled. *)
Definition loginFulfilled (r : AuthResponse) (s : State)
    : State * list Toast * Settled :=
  (mkState (Some (resp_user r)) (isLoading s)
     (mkStorage (Some (access_token r)) (Some (stringify (resp_user r)))),
   [LoginSuccessful (username (resp_user r))], Fulfilled).

(** The rest of [signup] when [authAPI.signup] is fulfilled. *)
Definition signupFulfilled (r : AuthResponse) (s : State)
    : State * list Toast * Settled :=
  (mkState (Some (resp_user r)) (isLoading s)
     (mkStorage (Some (access_token r)) (Some (stringify (resp_user r)))),
   [AccountCreated (username (resp_user r))], Fulfilled).

End Stringify.

(** The [catch] block of [login]: the toast, and the error thrown again. *)
Definition loginRejected (e : ChatArea.ApiError) (s : State)
    : State * list Toast * Settled :=
  (s, [LoginFailed (orElse (ChatArea.detail e) (str "Login failed"))], Rejected e).

Definition signupRejected (e : ChatArea.ApiError) (s : State)
    : State * list Toast * Settled :=
  (s, [SignupFailed (orElse (ChatArea.detail e) (str "Signup failed"))], Rejected e).

(** [logout] after its [await]: the [catch] block only logs, the
    [finally] block clears the storage and the user. [server] is how
    [authAPI.logout] ended. *)
Definition logoutSettled (server : Settled) (s : State)
    : State * list Toast * Settled :=
  (mkState None (isLoading s) (mkStorage None None), [LoggedOut], Fulfilled).

Definition refreshFulfilled (userData : User) (s : State) : State :=
  mkState (Some userData) (isLoading s) (storage s).

Definition refreshRejected (s : State) : State := s.

(** What can happen to the provider: one of its calls settles. *)
Inductive Event :=
| Checked (userData : User)
| CheckFailed
| LoggedIn (r : AuthResponse)
| LoginRefused (e : ChatArea.ApiError)
| SignedUp (r : AuthResponse)
| SignupRefused (e : ChatArea.ApiError)
| LogoutDone (server : Settled)
| Refreshed (userData : User)
| RefreshFailed.

Definition step (stringify : User -> jsstring) (e : Event) (s : State) : State :=
  match e with
  | Checked u => checkFulfilled u s
  | CheckFailed => checkRejected s
  | LoggedIn r => fst (fst (loginFulfilled stringify r s))
  | LoginRefused err => fst (fst (loginRejected err s))
  | SignedUp r => fst (fst (signupFulfilled stringify r s))
  | SignupRefused err => fst (fst (signupRejected err s))
  | LogoutDone o => fst (fst (logoutSettled o s))
  | Refreshed u => refreshFulfilled u s
  | RefreshFailed => refreshRejected s
  end.

Definition runEvents (stringify : User -> jsstring) (es : list Event) (s : State)
    : State :=
  fold_left (fun s e => step stringify e s) es s.

(** The token the storage holds after a list of events. *)
Fixpoint lastToken (es : list Event) (acc : option jsstring) : option jsstring :=
  match es with
  | [] => acc
  | LoggedIn r :: rest | SignedUp r :: rest => lastToken rest (Some (access_token r))
  | CheckFailed :: rest | LogoutDone _ :: rest => lastToken rest None
  | _ :: rest => lastToken rest acc
  end.

(** The two keys are both present or both absent. *)
Definition paired (st : Storage) : Prop :=
  token st = None <-> storedUser st = None.

End Auth.

(** *** The login and signup pages *)

Module LoginPage.

Import Js.

Record State := mkState {
  username : jsstring;
  password : jsstring;
  loading : bool
}.

(** [handleSubmit] up to its [await]: the arguments of [login]. *)
Definition handleSubmit (s : State) : State * (jsstring * jsstring) :=
  (mkState (username s) (password s) true, (username s, password s)).

(** The rest of [handleSubmit]: [navigate("/chat")] when [login] is
    fulfilled; the [finally] block clears the flag. *)
Definition submitSettled (o : Auth.Settled) (s : State) : State * option jsstring :=
  (mkState (username s) (password s) false,
   match o with
   | Auth.Fulfilled => Some (str "/chat")
   | Auth.Rejected _ => None
   end).

End LoginPage.

Module SignupPage.

Import Js.

Record State := mkState {
  username : jsstring;
  email : jsstring;
  password : jsstring;
  loading : bool
}.

Definition handleSubmit (s : State) : State * (jsstring * jsstring * jsstring) :=
  (mkState (username s) (email s) (password s) true,
   (username s, email s, password s)).

Definition submitSettled (o : Auth.Settled) (s : State) : State * option jsstring :=
  (mkState (username s) (email s) (password s) false,
   match o with
   | Auth.Fulfilled => Some (str "/chat")
   | Auth.Rejected _ => None
   end).

End SignupPage.

(** *** The settings page *)

Module SettingsPage.

Import Js.

Record PasswordForm := mkPasswordForm {
  currentPassword : jsstring;
  newPassword : jsstring;
  confirmPassword : jsstring
}.

Record State := mkState {
  passwordForm : PasswordForm;
  changingPassword : bool
}.

Definition emptyForm : PasswordForm := mkPasswordForm [] [] [].

Definition initial : State := mkState emptyForm false.

(** The argument of [authAPI.changePassword]. *)
Record ChangeRequest := mkChangeRequest {
  current_password : jsstring;
  new_password : jsstring
}.

Inductive Toast :=
| MissingFields
| PasswordsDontMatch
| PasswordTooShort
| PasswordChanged
| PasswordChangeFailed (description : jsstring)
| LoggedOutSuccessfully
| LogoutFailed.

Inductive Effect :=
| ShowToast (t : Toast)
| CallChangePassword (r : ChangeRequest)
| ScheduleLogout
| Navigate (route : jsstring).

(** [handleLogout] after [await logout()]. *)
Definition logoutSettled (o : Auth.Settled) : list Effect :=
  match o with
  | Auth.Fulfilled => [ShowToast LoggedOutSuccessfully; Navigate (str "/login")]
  | Auth.Rejected _ => [ShowToast LogoutFailed]
  end.

(** [handleChangePassword] up to its [await]: the three checks, then the
    flag and the request. *)
Definition handleChangePassword (s : State) : State * list Effect :=
  let f := passwordForm s in
  if negb (truthy (currentPassword f)) || negb (truthy (newPassword f)) ||
     negb (truthy (confirmPassword f))
  then (s, [ShowToast MissingFields])
  else if negb (Js.eqb (newPassword f) (confirmPassword f))
  then (s, [ShowToast PasswordsDontMatch])
  else if (List.length (newPassword f) <? 6)%nat
  then (s, [ShowToast PasswordTooShort])
  else (mkState f true,
        [CallChangePassword (mkChangeRequest (currentPassword f) (newPassword f))]).

(** The rest of the [try] block and the [finally] block. *)
Definition changeFulfilled (s : State) : State * list Effect :=
  (mkState emptyForm false, [ShowToast PasswordChanged; ScheduleLogout]).

(** The [catch] block and the [finally] block. *)
Definition changeRejected (e : ChatArea.ApiError) (s : State) : State * list Effect :=
  (mkState (passwordForm s) false,
   [ShowToast (PasswordChangeFailed
                 (Auth.orElse (ChatArea.detail e)
                    (str "Please check your current password")))]).

(** The callback of the timer after [await logout()]. *)
Definition timerSettled (o : Auth.Settled) : list Effect :=
  match o with
  | Auth.Fulfilled => [Navigate (str "/login")]
  | Auth.Rejected _ => []
  end.

(** The requests among the effects. *)
Fixpoint requestsOf (out : list Effect) : list ChangeRequest :=
  match out with
  | [] => []
  | CallChangePassword r :: rest => r :: requestsOf rest
  | _ :: rest => requestsOf rest
  end.

End SettingsPage.

(** ** ChatSidebar: deleting a conversation, signing out *)

Module Sidebar.

Import Js.

(** The cells of ChatSidebar next to the props it gets from [Chat]. *)
Record State := mkState {
  sessions : list ChatSidebar.ChatSession;
  loading : bool
}.

Inductive Toast := Deleted | DeleteFailed | LoggedOut.

Inductive Effect :=
| ShowToast (t : Toast)
| CallGetSessions
| CallDeleteSession (sessionId : jsstring)
| SelectSession (sessionId : jsstring)
| Navigate (route : jsstring).


(** [setSessions(response.sessions || [])] and the [finally] block. *)
Definition loadFulfilled (response : option (list ChatSidebar.ChatSession))
    (s : State) : State :=
  mkState (match response with Some l => l | None => [] end) false.

(** The [catch] block only logs. *)
Definition loadRejected (s : State) : State := mkState (sessions s) false.


(** [handleDeleteSession] up to its first [await]. *)
Definition handleDeleteSession (sessionId : jsstring) : list Effect :=
  [CallDeleteSession sessionId].




(** [handleLogout] after [await logout()]. *)
Definition logoutSettled (o : Auth.Settled) : list Effect :=
  match o with
  | Auth.Fulfilled => [Navigate (str "/login"); ShowToast LoggedOut]
  | Auth.Rejected _ => []
  end.


End Sidebar.

(** ** Landing: the title that types itself *)

Module Landing.

Import Js.

(** The cell [displayText], the variable [currentIndex] of the effect
    and whether the interval is still set. *)
Record State := mkState {
  displayText : jsstring;
  currentIndex : nat;
  running : bool
}.

Definition fullText : jsstring := str "IntelliBase_".

Definition initial : State := mkState [] 0 true.

(** The callback of the interval; it is not called once the interval is
    cleared. [text.slice(0, i)] is [firstn i text]. *)
Definition tick (text : jsstring) (s : State) : State :=
  if running s then
    if (currentIndex s <=? List.length text)%nat
    then mkState (firstn (currentIndex s) text) (S (currentIndex s)) true
    else mkState (displayText s) (currentIndex s) false
  else s.

(** The state after [k] periods of the interval. *)
Fixpoint ticks (text : jsstring) (k : nat) : State :=
  match k with
  | O => initial
  | S k' => tick text (ticks text k')
  end.

End Landing.

(** ** FlashcardViewer: loading the flashcards of a session *)

Module FlashcardViewer.

Import Js.

(** [interface Flashcard] *)
Record Flashcard := mkFlashcard {
  question : jsstring;
  answer : jsstring
}.

(** [interface FlashcardSet], the fields the component shows. *)
Record FlashcardSet := mkFlashcardSet {
  set_id : jsstring;
  topic : jsstring;
  flashcards : list Flashcard
}.

Record State := mkState {
  flashcardSets : list FlashcardSet;
  loading : bool;
  error : option jsstring;
  pending : list jsstring
}.

Definition initial : State := mkState [] true None [].

(** How a request ends: with the sets, or in the [catch] block (the
    request failed, the response is not ok, or it is not JSON). *)
Inductive Reply :=
| Data (sets : list FlashcardSet)
| Failure.

(** [token] in a boolean position: [null] and the empty string are
    false. *)
Definition hasToken (token : option jsstring) : bool :=
  match token with
  | Some t => truthy t
  | None => false
  end.

(** [fetchFlashcards] up to its [await], for the [token] in the storage:
    without a token the error is set; with one the address of the
    session is requested. *)
Definition fetchFlashcards (API_BASE_URL : jsstring) (token : option jsstring)
    (sessionId : jsstring) (s : State) : State :=
  if hasToken token
  then mkState (flashcardSets s) (loading s) (error s)
         (pending s ++ [API_BASE_URL ++ str "/flashcards/session/" ++ sessionId])
  else mkState (flashcardSets s) false
         (Some (str "Please log in to view flashcards")) (pending s).

(** The rest of [fetchFlashcards]. *)
Definition settle (r : Reply) (s : State) : State :=
  match r with
  | Data sets => mkState sets false (error s) (pending s)
  | Failure =>
    mkState (flashcardSets s) false (Some (str "Failed to load flashcards"))
      (pending s)
  end.

Inductive Event :=
| EffectRuns (token : option jsstring) (sessionId : jsstring)
| ReplyArrives (i : nat) (r : Reply).

Definition step (API_BASE_URL : jsstring) (e : Event) (s : State) : option State :=
  match e with
  | EffectRuns token sessionId =>
    Some (fetchFlashcards API_BASE_URL token sessionId s)
  | ReplyArrives i r =>
    match nth_error (pending s) i with
    | Some _ =>
      Some (settle r (mkState (flashcardSets s) (loading s) (error s)
                        (ChatArea.removeAt i (pending s))))
    | None => None
    end
  end.

Fixpoint runEvents (API_BASE_URL : jsstring) (es : list Event) (s : State)
    : option State :=
  match es with
  | [] => Some s
  | e :: rest =>
    match step API_BASE_URL e s with
    | Some s1 => runEvents API_BASE_URL rest s1
    | None => None
    end
  end.






End FlashcardViewer.

(* ===================================================================== *)
(** * Part II: theorems                                                    *)
(* ===================================================================== *)

(** ** PDFViewer *)

Section ZoomFacts.

Import PDFViewer.
Local Open Scope Z_scope.

Lemma zoomOk_initial : zoomOk initialZoom.
Proof.
  unfold zoomOk, initialZoom. split; [lia | exists 4; reflexivity].
Qed.

Lemma zoomOk_in z : zoomOk z -> zoomOk (handleZoomIn z).
Proof.
  unfold zoomOk, handleZoomIn. intros [Hr [k Hk]]. subst z.
  destruct (Z.min_spec (k * 25 + 25) 200) as [[Hlt ->] | [Hle ->]].
  - split; [lia | exists (k + 1); lia].
  - split; [lia | exists 8; reflexivity].
Qed.

Lemma zoomOk_out z : zoomOk z -> zoomOk (handleZoomOut z).
Proof.
  unfold zoomOk, handleZoomOut. intros [Hr [k Hk]]. subst z.
  destruct (Z.max_spec (k * 25 - 25) 50) as [[Hlt ->] | [Hle ->]].
  - split; [lia | exists 2; reflexivity].
  - split; [lia | exists (k - 1); lia].
Qed.

Lemma zoomOk_fold cs : forall z,
  zoomOk z -> zoomOk (fold_left (fun z c => onClick c z) cs z).
Proof.
  induction cs as [| c cs IH]; intros z Hz; simpl; [exact Hz |].
  apply IH. destruct c; simpl; [apply zoomOk_in | apply zoomOk_out]; exact Hz.
Qed.

(** C10. The zoom level starts at 100; zoom-in adds 25 capped at 200 and
    zoom-out subtracts 25 floored at 50; after every sequence of zoom
    clicks the level lies in the closed range 50..200 and is a multiple
    of 25. *)
Theorem zoom_invariant :
  initialZoom = 100 /\
  (forall z, handleZoomIn z = if z + 25 <=? 200 then z + 25 else 200) /\
  (forall z, handleZoomOut z = if 50 <=? z - 25 then z - 25 else 50) /\
  forall cs : list click,
    50 <= zoomAfter cs <= 200 /\ (25 | zoomAfter cs).
Proof.
  split; [reflexivity |]. split; [| split].
  - intro z. unfold handleZoomIn.
    destruct (Z.leb_spec (z + 25) 200); lia.
  - intro z. unfold handleZoomOut.
    destruct (Z.leb_spec 50 (z - 25)); lia.
  - intro cs. apply (zoomOk_fold cs zoomOk_initial).
Qed.

End ZoomFacts.

(** ** ChatSidebar *)

Section GroupingFacts.

Import ChatSidebar.

Variable parseDate : string -> timeValue.
Variable startOfDay : timeValue -> timeValue.
Variable addDays : timeValue -> Z -> timeValue.
Variable now : timeValue.

Local Abbreviation classify := (classify parseDate startOfDay addDays now).
Local Abbreviation push := (push parseDate startOfDay addDays now).
Local Abbreviation groupSessionsByDate :=
  (groupSessionsByDate parseDate startOfDay addDays now).
Local Abbreviation inBucket := (inBucket parseDate startOfDay addDays now).

Lemma bucket_eqb_eq a b : bucket_eqb a b = true <-> a = b.
Proof. destruct a, b; simpl; split; intro H; congruence. Qed.

Lemma select_push b g s :
  select b (push g s) =
  select b g ++ (if bucket_eqb (classify s) b then [s] else []).
Proof.
  unfold push. destruct (classify s), b; simpl;
    rewrite ?app_nil_r; reflexivity.
Qed.

Lemma select_fold b sessions : forall g,
  select b (fold_left push sessions g) = select b g ++ inBucket b sessions.
Proof.
  induction sessions as [| s rest IH]; intro g; simpl.
  - rewrite app_nil_r. reflexivity.
  - rewrite IH, select_push, <- app_assoc.
    destruct (bucket_eqb (classify s) b); reflexivity.
Qed.

Lemma select_group b sessions :
  select b (groupSessionsByDate sessions) = inBucket b sessions.
Proof.
  unfold ChatSidebar.groupSessionsByDate. rewrite select_fold.
  destruct b; reflexivity.
Qed.

Lemma inBucket_perm sessions :
  Permutation sessions
    (inBucket Today sessions ++ inBucket Yesterday sessions ++
     inBucket LastWeek sessions ++ inBucket Older sessions).
Proof.
  induction sessions as [| s rest IH]; simpl; [constructor |].
  destruct (classify s); simpl.
  - constructor. exact IH.
  - apply Permutation_cons_app. exact IH.
  - rewrite !app_assoc. apply Permutation_cons_app.
    rewrite <- !app_assoc. exact IH.
  - rewrite !app_assoc. apply Permutation_cons_app.
    rewrite <- !app_assoc. exact IH.
Qed.

(** C9. [groupSessionsByDate] partitions the session list: every group
    holds exactly the sessions of its class, in input order; a session of
    the input occurs in the group of its class and in no other; the four
    groups together are a rearrangement of the input; and the four sizes
    add up to the number of sessions. *)
Theorem groupSessionsByDate_partition (sessions : list ChatSession) :
  let g := groupSessionsByDate sessions in
  (forall b, select b g = inBucket b sessions) /\
  (forall s b, In s (select b g) <-> In s sessions /\ classify s = b) /\
  Permutation sessions (today g ++ yesterday g ++ lastWeek g ++ older g) /\
  (List.length (today g) + List.length (yesterday g) +
   List.length (lastWeek g) + List.length (older g) =
   List.length sessions)%nat.
Proof.
  intro g.
  assert (Hsel : forall b, select b g = inBucket b sessions)
    by (intro b; apply select_group).
  assert (Hperm : Permutation sessions
            (today g ++ yesterday g ++ lastWeek g ++ older g)).
  { change (today g) with (select Today g).
    change (yesterday g) with (select Yesterday g).
    change (lastWeek g) with (select LastWeek g).
    change (older g) with (select Older g).
    rewrite !Hsel. apply inBucket_perm. }
  split; [exact Hsel |]. split; [| split; [exact Hperm |]].
  - intros s b. rewrite Hsel. unfold ChatSidebar.inBucket.
    rewrite filter_In, bucket_eqb_eq. reflexivity.
  - apply Permutation_length in Hperm.
    rewrite !length_app in Hperm. lia.
Qed.

End GroupingFacts.

(** ** JavaScript strings *)

Section JsFacts.

Import Js.

Lemma isBlank_true s : isBlank s = true <-> trim s = [].
Proof.
  unfold isBlank. destruct (trim s); simpl; split; congruence.
Qed.

Lemma isBlank_false s : isBlank s = false <-> trim s <> [].
Proof.
  unfold isBlank. destruct (trim s); simpl; split; congruence.
Qed.

End JsFacts.

(** ** Upload handlers *)

Section UploadFacts.

Import Js FileUpload.

Lemma dialog_upload_effects s r :
  In (Upload r) (snd (Dialog.handleUpload s)) ->
  r = mkUploadRequest (Dialog.files s) (Dialog.collectionType s)
        (nameArgument (Dialog.collectionType s) (Dialog.collectionName s)) /\
  nameMissing (Dialog.collectionType s) (Dialog.collectionName s) = false.
Proof.
  unfold Dialog.handleUpload.
  destruct (Dialog.files s) as [| f fs] eqn:Hf; simpl.
  - intros [H | []]. discriminate.
  - destruct (nameMissing _ _) eqn:Hn; simpl.
    + intros [H | []]. discriminate.
    + intros [H | [H | []]]; [discriminate |].
      injection H as <-. split; reflexivity.
Qed.

Lemma documents_upload_effects s r :
  In (Upload r) (snd (Documents.handleUpload s)) ->
  r = mkUploadRequest (Documents.selectedFiles s) (Documents.collectionType s)
        (nameArgument (Documents.collectionType s) (Documents.collectionName s)) /\
  nameMissing (Documents.collectionType s) (Documents.collectionName s) = false.
Proof.
  unfold Documents.handleUpload.
  destruct (Documents.selectedFiles s) as [| f fs] eqn:Hf; simpl.
  - intros [].
  - destruct (nameMissing _ _) eqn:Hn; simpl.
    + intros [H | []]. discriminate.
    + intros [H | []]. injection H as <-. split; reflexivity.
Qed.

(** C8. In both upload handlers, an attempt with collection type
    [isolated] and a blank or whitespace-only collection name is rejected
    before the transport is called: the component state (and with it the
    selected files) is unchanged and no [documentsAPI.upload] request is
    issued. Conversely, a request that is issued for an isolated
    collection carries a name that is not blank. *)
Theorem isolated_upload_needs_name :
  (forall s : Dialog.State,
      Dialog.collectionType s = isolated ->
      trim (Dialog.collectionName s) = [] ->
      fst (Dialog.handleUpload s) = s /\
      Dialog.files (fst (Dialog.handleUpload s)) = Dialog.files s /\
      forall r, ~ In (Upload r) (snd (Dialog.handleUpload s))) /\
  (forall s : Documents.State,
      Documents.collectionType s = isolated ->
      trim (Documents.collectionName s) = [] ->
      fst (Documents.handleUpload s) = s /\
      Documents.selectedFiles (fst (Documents.handleUpload s)) =
        Documents.selectedFiles s /\
      forall r, ~ In (Upload r) (snd (Documents.handleUpload s))) /\
  (forall (s : Dialog.State) r,
      In (Upload r) (snd (Dialog.handleUpload s)) ->
      collection_type r = isolated ->
      exists n, collection_name r = Some n /\
                n = Dialog.collectionName s /\ trim n <> []) /\
  (forall (s : Documents.State) r,
      In (Upload r) (snd (Documents.handleUpload s)) ->
      collection_type r = isolated ->
      exists n, collection_name r = Some n /\
                n = Documents.collectionName s /\ trim n <> []).
Proof.
  split; [| split; [| split]].
  - intros s Ht Hn.
    assert (Hm : nameMissing (Dialog.collectionType s) (Dialog.collectionName s) = true)
      by (rewrite Ht; simpl; apply isBlank_true; exact Hn).
    assert (Hs : fst (Dialog.handleUpload s) = s).
    { unfold Dialog.handleUpload. destruct (Dialog.files s); [reflexivity |].
      rewrite Hm. reflexivity. }
    split; [exact Hs | split; [rewrite Hs; reflexivity |]].
    intros r Hin. apply dialog_upload_effects in Hin as [_ Hf]. congruence.
  - intros s Ht Hn.
    assert (Hm : nameMissing (Documents.collectionType s) (Documents.collectionName s) = true)
      by (rewrite Ht; simpl; apply isBlank_true; exact Hn).
    assert (Hs : fst (Documents.handleUpload s) = s).
    { unfold Documents.handleUpload.
      destruct (Documents.selectedFiles s); [reflexivity |].
      rewrite Hm. reflexivity. }
    split; [exact Hs | split; [rewrite Hs; reflexivity |]].
    intros r Hin. apply documents_upload_effects in Hin as [_ Hf]. congruence.
  - intros s r Hin Hiso. apply dialog_upload_effects in Hin as [-> Hm].
    simpl in Hiso. rewrite Hiso in *. simpl in *.
    exists (Dialog.collectionName s). repeat split.
    apply isBlank_false. exact Hm.
  - intros s r Hin Hiso. apply documents_upload_effects in Hin as [-> Hm].
    simpl in Hiso. rewrite Hiso in *. simpl in *.
    exists (Documents.collectionName s). repeat split.
    apply isBlank_false. exact Hm.
Qed.

End UploadFacts.

(** ** ChatArea *)

Section ChatFacts.

Import Js ChatArea.

Lemma Js_eqb_refl a : Js.eqb a a = true.
Proof.
  induction a as [| c a IH]; simpl; [reflexivity |].
  rewrite Ascii.eqb_refl. exact IH.
Qed.

Lemma sameSession_refl a : sameSession a a = true.
Proof. destruct a; simpl; [apply Js_eqb_refl | reflexivity]. Qed.

(** Effects do nothing after a render that keeps the session and shows at
    least one message. *)
Lemma afterRender_keeps old new :
  sessionId new = sessionId old ->
  messages new <> [] ->
  afterRender old new = (new, []).
Proof.
  intros Hs Hm. unfold afterRender.
  rewrite Hs, sameSession_refl. simpl.
  assert (Hd : modeDialogEffect new = new).
  { unfold modeDialogEffect. destruct (messages new); [congruence |].
    simpl. rewrite andb_false_r. reflexivity. }
  destruct (negb (sameLength (messages old) (messages new))); rewrite ?Hd;
    unfold sameLength; rewrite Nat.eqb_refl; reflexivity.
Qed.

(** Effects do nothing after a render that keeps the session and the
    number of messages. *)
Lemma afterRender_idle old new :
  sessionId new = sessionId old ->
  List.length (messages new) = List.length (messages old) ->
  afterRender old new = (new, []).
Proof.
  intros Hs Hl. unfold afterRender, sameLength.
  rewrite Hs, sameSession_refl, <- Hl, Nat.eqb_refl. simpl.
  rewrite Nat.eqb_refl. reflexivity.
Qed.

Lemma handleSend_blocked now s :
  loading s = true \/ trim (message s) = [] ->
  handleSend now s = (s, []).
Proof.
  intros H. unfold handleSend.
  destruct H as [-> | H].
  - rewrite orb_true_r. reflexivity.
  - apply isBlank_true in H. rewrite H. reflexivity.
Qed.

Lemma handleSend_started now s :
  isBlank (message s) = false -> loading s = false ->
  handleSend now s =
    (mkState [] (messages s ++ [userMessage now (message s)]) true
       (uploadDialogOpen s) (modeDialogOpen s) (sessionMode s) (sessionId s)
       (inflight s ++ [requestOf s]),
     [CallQuery (requestOf s)]).
Proof.
  intros Hb Hl. unfold handleSend. rewrite Hb, Hl. reflexivity.
Qed.

Lemma step_send_started now s :
  isBlank (message s) = false -> loading s = false ->
  step (Send now) s = Some (fst (handleSend now s), [CallQuery (requestOf s)]).
Proof.
  intros Hb Hl. unfold step, handler.
  rewrite (handleSend_started now s Hb Hl). simpl fst.
  rewrite afterRender_keeps; [reflexivity | reflexivity |].
  simpl. intro H. apply app_eq_nil in H as [_ H]. discriminate.
Qed.

Lemma afterRender_cells old new s out :
  afterRender old new = (s, out) ->
  loading s = loading new /\ inflight s = inflight new /\
  sessionMode s = sessionMode new.
Proof.
  unfold afterRender, sessionEffect, modeDialogEffect.
  repeat match goal with
         | |- context [if ?b then _ else _] => destruct b
         | |- context [match ?x with Some _ => _ | None => _ end] => destruct x
         end; simpl;
    intro H; injection H as <- <-; simpl; repeat split.
Qed.

Lemma step_guard e s s' out :
  step e s = Some (s', out) -> guardInvariant s -> guardInvariant s'.
Proof.
  unfold step. destruct (handler e s) as [[s1 out1] |] eqn:Hh; [| discriminate].
  destruct (afterRender s s1) as [s2 out2] eqn:Ha.
  intro H. injection H as <- <-.
  apply afterRender_cells in Ha as (Hl & Hi & _).
  intro Hinv. unfold guardInvariant. rewrite Hl, Hi. clear Hl Hi s2.
  destruct e; simpl in Hh.
  - injection Hh as <- <-. exact Hinv.
  - unfold handleSend in Hh.
    destruct (isBlank (message s) || loading s) eqn:Hg.
    + injection Hh as <- <-. exact Hinv.
    + injection Hh as <- <-. simpl. right. split; [reflexivity |].
      apply orb_false_elim in Hg as [_ Hl].
      destruct Hinv as [[_ ->] | [Hl' _]]; [| congruence].
      eexists. reflexivity.
  - destruct (nth_error (inflight s) i) eqn:Hn; [| discriminate].
    injection Hh as <- <-.
    destruct Hinv as [[_ Hi] | [_ [r0 Hi]]]; rewrite Hi in Hn.
    + destruct i; discriminate.
    + left. unfold queryFulfilled. rewrite Hi.
      destruct i as [| [| i]]; simpl in Hn; try discriminate.
      destruct (negb _ && _); simpl; split; reflexivity.
  - destruct (nth_error (inflight s) i) eqn:Hn; [| discriminate].
    injection Hh as <- <-.
    destruct Hinv as [[_ Hi] | [_ [r0 Hi]]]; rewrite Hi in Hn.
    + destruct i; discriminate.
    + left. rewrite Hi.
      destruct i as [| [| i]]; simpl in Hn; try discriminate.
      simpl. split; reflexivity.
  - destruct (modeDialogOpen s); [| discriminate].
    injection Hh as <- <-. exact Hinv.
  - injection Hh as <- <-. exact Hinv.
  - injection Hh as <- <-. exact Hinv.
  - injection Hh as <- <-. exact Hinv.
  - injection Hh as <- <-. exact Hinv.
  - injection Hh as <- <-. exact Hinv.
  - injection Hh as <- <-. exact Hinv.
Qed.

Lemma run_guard s es out s' :
  run s es out s' -> guardInvariant s -> guardInvariant s'.
Proof.
  induction 1 as [| s e s1 out1 es out2 s2 Hstep _ IH]; [auto |].
  intro Hinv. apply IH. eapply step_guard; eassumption.
Qed.

Lemma mounted_guard : guardInvariant mounted.
Proof. left. split; reflexivity. Qed.

Lemma reachable_guard s : reachable s -> guardInvariant s.
Proof.
  intros (es & out & Hrun). eapply run_guard; [exact Hrun | apply mounted_guard].
Qed.

(** The effects keep the messages unless the session was left. *)
Lemma afterRender_messages old new s out :
  afterRender old new = (s, out) ->
  sameSession (sessionId old) (sessionId new) = true \/
  hasSession (sessionId new) = true ->
  messages s = messages new.
Proof.
  assert (Hd : forall t, messages (modeDialogEffect t) = messages t /\
                         sessionId (modeDialogEffect t) = sessionId t).
  { intro t. unfold modeDialogEffect.
    destruct (negb _ && _); split; reflexivity. }
  unfold afterRender. intros H Hc.
  set (s1 := if negb (sameSession (sessionId old) (sessionId new)) ||
                negb (sameLength (messages old) (messages new))
             then modeDialogEffect new else new) in H.
  assert (H1 : messages s1 = messages new /\ sessionId s1 = sessionId new).
  { unfold s1. destruct (negb _ || negb _); [apply Hd | split; reflexivity]. }
  destruct H1 as [Hm1 Hs1].
  assert (H2 : forall s2 out2,
             (if negb (sameSession (sessionId old) (sessionId new))
              then sessionEffect s1 else (s1, [])) = (s2, out2) ->
             messages s2 = messages s1).
  { intros s2 out2. destruct (sameSession (sessionId old) (sessionId new)) eqn:Hss.
    - simpl. intro E. injection E as <- _. reflexivity.
    - destruct Hc as [Hc | Hc]; [discriminate |].
      simpl. unfold sessionEffect. rewrite Hs1.
      destruct (sessionId new) as [sid |]; [| discriminate].
      simpl in Hc. rewrite Hc. intro E. injection E as <- _. reflexivity. }
  destruct (if negb (sameSession (sessionId old) (sessionId new))
            then sessionEffect s1 else (s1, [])) as [s2 out2] eqn:He.
  specialize (H2 s2 out2 eq_refl).
  unfold sameLength in H. rewrite H2, Nat.eqb_refl in H.
  injection H as <- _. rewrite H2. exact Hm1.
Qed.

(** Pairs are appended after the messages [base] a stretch of the run
    started with. *)
Lemma step_paired e s s' out base t :
  step e s = Some (s', out) ->
  keepsHistory e = true ->
  guardInvariant s ->
  messages s = base ++ t ->
  paired (loading s) t ->
  exists t', messages s' = base ++ t' /\ paired (loading s') t'.
Proof.
  unfold step. destruct (handler e s) as [[s1 out1] |] eqn:Hh; [| discriminate].
  destruct (afterRender s s1) as [s2 out2] eqn:Ha.
  intro H. injection H as <- <-. intros Hk Hinv Hm Hp.
  assert (Hgoal : (sameSession (sessionId s) (sessionId s1) = true \/
                   hasSession (sessionId s1) = true) /\
                  exists t', messages s1 = base ++ t' /\
                             paired (loading s1) t').
  { destruct e; simpl in Hh; try discriminate Hk;
      try (injection Hh as <- <-; simpl; split;
           [left; apply sameSession_refl | exists t; split; assumption]).
    - unfold handleSend in Hh.
      destruct (isBlank (message s) || loading s) eqn:Hg;
        injection Hh as <- <-; simpl.
      + split; [left; apply sameSession_refl | exists t; split; assumption].
      + apply orb_false_elim in Hg as [_ Hl]. rewrite Hl in Hp.
        split; [left; apply sameSession_refl |].
        exists (t ++ [userMessage now (message s)]).
        split; [rewrite Hm, app_assoc; reflexivity |].
        apply paired_user; [exact Hp | reflexivity].
    - destruct (nth_error (inflight s) i) eqn:Hn; [| discriminate].
      injection Hh as <- <-.
      assert (Hl : loading s = true).
      { destruct Hinv as [[_ Hi] | [Hl _]]; [| exact Hl].
        rewrite Hi in Hn. destruct i; discriminate. }
      rewrite Hl in Hp. unfold queryFulfilled.
      destruct (negb (hasSession (session_id q)) && hasSession (resp_session_id r))
        eqn:Hc; simpl.
      + apply andb_prop in Hc as [_ Hc].
        split; [right; exact Hc |].
        exists (t ++ [assistantMessage now r]).
        split; [rewrite Hm, app_assoc; reflexivity |].
        apply paired_assistant; [exact Hp | reflexivity].
      + split; [left; apply sameSession_refl |].
        exists (t ++ [assistantMessage now r]).
        split; [rewrite Hm, app_assoc; reflexivity |].
        apply paired_assistant; [exact Hp | reflexivity].
    - destruct (nth_error (inflight s) i) eqn:Hn; [| discriminate].
      injection Hh as <- <-.
      assert (Hl : loading s = true).
      { destruct Hinv as [[_ Hi] | [Hl _]]; [| exact Hl].
        rewrite Hi in Hn. destruct i; discriminate. }
      rewrite Hl in Hp. simpl.
      split; [left; apply sameSession_refl |].
      exists (t ++ [errorMessage now]).
      split; [rewrite Hm, app_assoc; reflexivity |].
      apply paired_assistant; [exact Hp | reflexivity].
    - destruct (modeDialogOpen s); [| discriminate].
      injection Hh as <- <-. simpl.
      split; [left; apply sameSession_refl | exists t; split; assumption]. }
  destruct Hgoal as [Hc (t' & Hm1 & Hp1)].
  exists t'. rewrite (afterRender_messages _ _ Ha Hc).
  apply afterRender_cells in Ha as (-> & _ & _). split; assumption.
Qed.

Lemma run_paired s es out s' :
  run s es out s' ->
  forall base t,
  forallb keepsHistory es = true ->
  guardInvariant s ->
  messages s = base ++ t ->
  paired (loading s) t ->
  exists t', messages s' = base ++ t' /\ paired (loading s') t'.
Proof.
  induction 1 as [| s e s1 out1 es out2 s2 Hstep _ IH];
    intros base t Hk Hinv Hm Hp; [exists t; split; assumption |].
  simpl in Hk. apply andb_prop in Hk as [Hke Hkes].
  destruct (@step_paired _ _ _ _ _ _ Hstep Hke Hinv Hm Hp) as (t1 & Hm1 & Hp1).
  apply (IH base t1); [exact Hkes | eapply step_guard; eassumption | |];
    assumption.
Qed.

(** In a list of pairs the roles alternate, the user first. *)
Lemma paired_roles pending ms :
  paired pending ms ->
  (forall i m, nth_error ms i = Some m ->
     type m = if Nat.even i then user else assistant) /\
  Nat.even (List.length ms) = negb pending.
Proof.
  assert (Hsnoc : forall (l : list Message) x i m,
            nth_error (l ++ [x]) i = Some m ->
            nth_error l i = Some m \/ (i = List.length l /\ m = x)).
  { intros l x i m H. destruct (Nat.lt_ge_cases i (List.length l)) as [Hlt | Hge].
    - left. rewrite nth_error_app1 in H by exact Hlt. exact H.
    - right. rewrite nth_error_app2 in H by exact Hge.
      destruct (i - List.length l)%nat as [| k] eqn:Hk; simpl in H.
      + injection H as <-. split; [lia | reflexivity].
      + destruct k; discriminate H. }
  induction 1 as [| ms u _ [IH1 IH2] Hu | ms a _ [IH1 IH2] Ha].
  - split; [intros [| i] m H; discriminate H | reflexivity].
  - split.
    + intros i m H. apply Hsnoc in H as [H | [-> ->]]; [apply IH1; exact H |].
      rewrite IH2. exact Hu.
    + rewrite length_app, Nat.add_1_r, Nat.even_succ, <- Nat.negb_even, IH2.
      reflexivity.
  - split.
    + intros i m H. apply Hsnoc in H as [H | [-> ->]]; [apply IH1; exact H |].
      rewrite IH2. exact Ha.
    + rewrite length_app, Nat.add_1_r, Nat.even_succ, <- Nat.negb_even, IH2.
      reflexivity.
Qed.

(** While a query is pending, an event that is no settled query, no choice
    of a session and no stored conversation leaves the messages and the
    pending query as they are. *)
Lemma step_keepsTurn e s s' out :
  step e s = Some (s', out) ->
  keepsTurn e = true ->
  loading s = true ->
  messages s' = messages s /\ inflight s' = inflight s /\ loading s' = true.
Proof.
  intros H Hk Hl. unfold step, handler in H.
  destruct e; try discriminate Hk;
    try (cbv beta iota in H;
         rewrite afterRender_idle in H by reflexivity;
         cbv beta iota in H; injection H as <- _; simpl; auto).
  - rewrite (handleSend_blocked now s (or_introl Hl)) in H.
    rewrite afterRender_idle in H by reflexivity.
    injection H as <- _. auto.
  - destruct (modeDialogOpen s); [| discriminate H].
    rewrite afterRender_idle in H by reflexivity.
    injection H as <- _. simpl. auto.
Qed.

Lemma run_keepsTurn s es out s' :
  run s es out s' ->
  forallb keepsTurn es = true ->
  loading s = true ->
  messages s' = messages s /\ inflight s' = inflight s /\ loading s' = true.
Proof.
  induction 1 as [| s e s1 out1 es out2 s2 Hstep _ IH]; [auto |].
  simpl. intros Hk Hl. apply andb_prop in Hk as [Hke Hkes].
  destruct (@step_keepsTurn _ _ _ _ Hstep Hke Hl) as (Hm & Hi & Hl1).
  destruct (IH Hkes Hl1) as (Hm2 & Hi2 & Hl2).
  rewrite Hm2, Hi2, Hm, Hi. auto.
Qed.

Lemma runEvents_run es : forall s s' out,
  runEvents es s = Some (s', out) -> run s es out s'.
Proof.
  induction es as [| e es IH]; simpl; intros s s' out H.
  - injection H as <- <-. constructor.
  - destruct (step e s) as [[s1 out1] |] eqn:Hs; [| discriminate].
    destruct (runEvents es s1) as [[s2 out2] |] eqn:Hr; [| discriminate].
    injection H as <- <-. econstructor; [exact Hs | apply IH; exact Hr].
Qed.

(** C4 (as amended). A failed query is recorded. Whenever the promise of
    a pending query is rejected, exactly one message is appended to the
    list shown: the assistant message with the text [Sorry, I encountered
    an error processing your request. Please try again.] and the empty
    citation list, and the error is told in a toast. From a state the
    component reaches, with an input that is not blank and no query
    loading, a send appends the user message and issues the query; when
    no session is chosen and no stored conversation arrives before the
    query is rejected, the list then is the one before the send followed
    by the user message and the apology, the loading flag is cleared and
    no query is left pending. *)
Theorem failed_query_is_recorded :
  (forall (s : State) (i : nat) (now : Z) (err : ApiError) (req : QueryRequest),
     nth_error (inflight s) i = Some req ->
     exists s2,
       step (QueryRejected i now err) s =
         Some (s2, [ToastQueryFailed (failureDescription err)]) /\
       messages s2 =
         messages s ++
         [mkMessage (now + 1) assistant
            (str "Sorry, I encountered an error processing your request. Please try again.")
            now (Some [])]) /\
  (forall (s : State) (now1 : Z),
     reachable s ->
     isBlank (message s) = false ->
     loading s = false ->
     exists s1,
       step (Send now1) s = Some (s1, [CallQuery (requestOf s)]) /\
       messages s1 = messages s ++ [mkMessage now1 user (message s) now1 None] /\
       forall (es : list Event) (out : list Output) (s1' : State)
              (now2 : Z) (err : ApiError),
         run s1 es out s1' ->
         forallb keepsTurn es = true ->
         exists s2,
           step (QueryRejected 0 now2 err) s1' =
             Some (s2, [ToastQueryFailed (failureDescription err)]) /\
           messages s2 =
             messages s ++
             [mkMessage now1 user (message s) now1 None;
              mkMessage (now2 + 1) assistant
                (str "Sorry, I encountered an error processing your request. Please try again.")
                now2 (Some [])] /\
           loading s2 = false /\ inflight s2 = []).
Proof.
  split.
  - intros s i now err req Hn. unfold step, handler. rewrite Hn.
    unfold queryRejected.
    rewrite afterRender_keeps; [| reflexivity |].
    + eexists. split; reflexivity.
    + simpl. intro H. apply app_eq_nil in H as [_ H]. discriminate.
  - intros s now1 Hr Hb Hl.
    assert (Hi : inflight s = []).
    { destruct (reachable_guard Hr) as [[_ Hi] | [Hl' _]];
        [exact Hi | congruence]. }
    pose proof (step_send_started now1 s Hb Hl) as Hsend.
    rewrite (handleSend_started now1 s Hb Hl) in Hsend. simpl fst in Hsend.
    rewrite Hi in Hsend. simpl app in Hsend.
    eexists. split; [exact Hsend |]. split; [reflexivity |].
    intros es out s1' now2 err Hrun Hk.
    destruct (@run_keepsTurn _ _ _ _ Hrun Hk eq_refl) as (Hm & Hi' & _).
    simpl in Hm, Hi'.
    unfold step, handler. rewrite Hi'. simpl nth_error. unfold queryRejected.
    rewrite afterRender_keeps; [| reflexivity |].
    + eexists. split; [reflexivity |]. simpl. rewrite Hm, <- app_assoc.
      repeat split.
    + simpl. intro H. apply app_eq_nil in H as [_ H]. discriminate.
Qed.

(** C4, counterexample. The user's message is not always kept: in the
    session [s1] the user sends a question and presses New Chat before the
    query fails; the list is cleared, and after the failure it holds the
    apology alone. *)
Lemma new_chat_drops_user_message :
  ~ (forall (s s1 s1' s2 : State) (now1 now2 : Z) (err : ApiError)
            (es : list Event) (out1 out out2 : list Output),
       reachable s ->
       isBlank (message s) = false ->
       loading s = false ->
       step (Send now1) s = Some (s1, out1) ->
       run s1 es out s1' ->
       step (QueryRejected 0 now2 err) s1' = Some (s2, out2) ->
       In (mkMessage now1 user (message s) now1 None) (messages s2)).
Proof.
  intro H.
  destruct (runEvents (firstn 3 abandonedTurn) mounted) as [[s out0] |] eqn:H0;
    [| vm_compute in H0; discriminate H0].
  destruct (step (Send 1000%Z) s) as [[s1 out1] |] eqn:H1.
  2: { vm_compute in H0. injection H0 as <- <-.
       vm_compute in H1. discriminate H1. }
  destruct (runEvents [SessionSelect []] s1) as [[s1' out'] |] eqn:H2.
  2: { vm_compute in H0. injection H0 as <- <-.
       vm_compute in H1. injection H1 as <- <-.
       vm_compute in H2. discriminate H2. }
  destruct (step (QueryRejected 0 2000%Z (mkApiError None)) s1')
    as [[s2 out2] |] eqn:H3.
  2: { vm_compute in H0. injection H0 as <- <-.
       vm_compute in H1. injection H1 as <- <-.
       vm_compute in H2. injection H2 as <- <-.
       vm_compute in H3. discriminate H3. }
  assert (Hr : reachable s).
  { exists (firstn 3 abandonedTurn), out0. apply runEvents_run. exact H0. }
  assert (Hb : isBlank (message s) = false /\ loading s = false).
  { vm_compute in H0. injection H0 as <- <-. split; reflexivity. }
  destruct Hb as [Hb Hl].
  pose proof (@runEvents_run _ _ _ _ H2) as Hrun.
  specialize (H s s1 s1' s2 1000%Z 2000%Z (mkApiError None) [SessionSelect []]
                out1 out' out2 Hr Hb Hl H1 Hrun H3).
  vm_compute in H0. injection H0 as <- <-.
  vm_compute in H1. injection H1 as <- <-.
  vm_compute in H2. injection H2 as <- <-.
  vm_compute in H3. injection H3 as <- <-.
  vm_compute in H. destruct H as [H | []]. discriminate H.
Qed.

(** C5 (as amended). At most one query is in flight. In every state the
    component reaches, the number of pending queries is at most one and
    the loading flag is set exactly when there is one. In any state in
    which a query is loading, and in any state whose input is empty or
    white space only, a send changes nothing: the state is the same, no
    message is appended and no query is issued. Hence, in a stretch of a
    run that starts with no query pending and in which no session is
    chosen and no stored conversation arrives, the messages appended to
    those shown at its start are (user, assistant) pairs in order,
    followed by the user message of the pending query if there is one. *)
Theorem single_inflight_query (es : list Event) (out : list Output)
    (s : State) (now : Z) :
  run mounted es out s ->
  (List.length (inflight s) <= 1)%nat /\
  (loading s = true <-> inflight s <> []) /\
  (forall s0 : State,
     loading s0 = true \/ trim (message s0) = [] ->
     handleSend now s0 = (s0, []) /\
     step (Send now) s0 = Some (s0, []) /\
     messages (fst (handleSend now s0)) = messages s0 /\
     queriesOf (snd (handleSend now s0)) = []) /\
  (forall (es' : list Event) (out' : list Output) (s' : State),
     loading s = false ->
     run s es' out' s' ->
     forallb keepsHistory es' = true ->
     exists t, messages s' = messages s ++ t /\ paired (loading s') t).
Proof.
  intro Hrun. pose proof (run_guard Hrun mounted_guard) as Hr.
  split; [| split; [| split]].
  - destruct Hr as [[_ ->] | [_ [r ->]]]; simpl; lia.
  - destruct Hr as [[Hl ->] | [Hl [r ->]]]; rewrite Hl; split; congruence.
  - intros s0 Hb. pose proof (handleSend_blocked now s0 Hb) as Hs.
    split; [exact Hs |]. split; [| rewrite Hs; split; reflexivity].
    unfold step, handler. rewrite Hs.
    rewrite afterRender_idle; reflexivity.
  - intros es' out' s' Hl Hrun' Hk.
    apply (@run_paired _ _ _ _ Hrun' (messages s) [] Hk Hr).
    + symmetry. apply app_nil_r.
    + rewrite Hl. constructor.
Qed.

(** C5, counterexample. The order of (user, assistant) pairs is not kept
    in every run: the user sends a question in the session [s1] and opens
    the session [s2] before the answer arrives; the answer is appended to
    the conversation of [s2], which then ends with two assistant messages
    in a row. Both stored conversations are one question and its answer. *)
Lemma answer_lands_in_other_session :
  ~ (forall (es : list Event) (out : list Output) (s : State),
       run mounted es out s ->
       exists pending, paired pending (messages s)).
Proof.
  intro H.
  destruct (runEvents crossedSessions mounted) as [[s out] |] eqn:Hrun;
    [| vm_compute in Hrun; discriminate Hrun].
  destruct (H _ _ _ (@runEvents_run _ _ _ _ Hrun)) as [pending Hp].
  apply paired_roles in Hp as [Hroles _].
  vm_compute in Hrun. injection Hrun as <- <-.
  pose proof (Hroles 2%nat) as H2. simpl in H2.
  specialize (H2 _ eq_refl). discriminate H2.
Qed.







End ChatFacts.

(** ** Searching in strings *)

Section SearchFacts.

Import Js ChatMessage.

Lemma startsWith_app pat s :
  startsWith pat s = true -> s = pat ++ skipn (List.length pat) s.
Proof.
  revert s. induction pat as [| a pat IH]; intros s H; [reflexivity |].
  destruct s as [| b s]; [discriminate |]. simpl in H.
  apply andb_prop in H as [Hab Hs].
  apply Ascii.eqb_eq in Hab. subst b. simpl. f_equal. apply IH. exact Hs.
Qed.

Lemma startsWith_prefix pat s :
  startsWith pat (pat ++ s) = true.
Proof.
  induction pat as [| a pat IH]; [reflexivity |].
  simpl. rewrite Ascii.eqb_refl. exact IH.
Qed.

Lemma cut_split pat s before after :
  cut pat s = Some (before, after) -> s = before ++ pat ++ after.
Proof.
  revert before. induction s as [| c s IH]; intros before H.
  - simpl in H. destruct (startsWith pat []) eqn:Hp; [| discriminate].
    injection H as <- <-. apply (startsWith_app pat [] Hp).
  - simpl in H. destruct (startsWith pat (c :: s)) eqn:Hp.
    + injection H as <- <-. apply (startsWith_app pat (c :: s) Hp).
    + destruct (cut pat s) as [[b a] |]; [| discriminate].
      injection H as <- <-. simpl. f_equal. apply IH. reflexivity.
Qed.

Lemma cut_length pat s before after :
  cut pat s = Some (before, after) ->
  List.length s = List.length before + List.length pat + List.length after.
Proof.
  intro H. apply cut_split in H. subst s. rewrite !length_app. lia.
Qed.

(** No occurrence in a string, none in its suffixes. *)
Lemma cut_none_suffix pat x y :
  cut pat (x ++ y) = None -> cut pat y = None.
Proof.
  induction x as [| c x IH]; intro H; [exact H |].
  apply IH. simpl in H.
  destruct (startsWith pat (c :: x ++ y)); [discriminate |].
  destruct (cut pat (x ++ y)) as [[b a] |]; [discriminate | reflexivity].
Qed.

Lemma cut_cons pat c s :
  startsWith pat (c :: s) = false ->
  cut pat (c :: s) =
    match cut pat s with
    | Some (before, after) => Some (c :: before, after)
    | None => None
    end.
Proof. intro H. simpl cut. rewrite H. reflexivity. Qed.

Lemma cut_here pat s :
  startsWith pat s = true ->
  cut pat s = Some ([], skipn (List.length pat) s).
Proof. intro H. destruct s; simpl cut; rewrite H; reflexivity. Qed.

Lemma firstBlock_split s before body after :
  firstBlock s = Some (before, body, after) ->
  s = before ++ FLASHCARD_START ++ body ++ FLASHCARD_END ++ after.
Proof.
  unfold firstBlock.
  destruct (cut FLASHCARD_START s) as [[b r] |] eqn:H1; [| discriminate].
  destruct (cut FLASHCARD_END r) as [[bd a] |] eqn:H2; [| discriminate].
  intro H. injection H as <- <- <-.
  apply cut_split in H1, H2. subst. reflexivity.
Qed.

Lemma firstBlock_shorter s before body after :
  firstBlock s = Some (before, body, after) ->
  List.length after < List.length s.
Proof.
  intro H. apply firstBlock_split in H. subst s.
  rewrite !length_app. simpl. lia.
Qed.

Lemma stripBlocksFuel_enough f1 : forall f2 s,
  List.length s <= f1 -> List.length s <= f2 ->
  stripBlocksFuel f1 s = stripBlocksFuel f2 s.
Proof.
  induction f1 as [| f1 IH]; intros f2 s H1 H2.
  - destruct s; [| simpl in H1; lia]. destruct f2; reflexivity.
  - destruct f2 as [| f2].
    + destruct s; [| simpl in H2; lia]. reflexivity.
    + simpl. destruct (firstBlock s) as [[[b bd] a] |] eqn:Hb; [| reflexivity].
      apply firstBlock_shorter in Hb. f_equal. apply IH; lia.
Qed.

(** The defining equation of [stripBlocks]. *)
Lemma stripBlocks_unfold s :
  stripBlocks s =
    match firstBlock s with
    | Some (before, _, after) => before ++ stripBlocks after
    | None => s
    end.
Proof.
  unfold stripBlocks. destruct s as [| c s]; [reflexivity |].
  simpl List.length. simpl stripBlocksFuel.
  destruct (firstBlock (c :: s)) as [[[b bd] a] |] eqn:Hb; [| reflexivity].
  apply firstBlock_shorter in Hb. simpl in Hb. f_equal.
  apply stripBlocksFuel_enough; lia.
Qed.

End SearchFacts.

(** ** The matcher on the flashcard pattern *)

Section BlockPatternFacts.

Import Js Regex ChatMessage.

(** A run of literals, case-sensitive, is a prefix test. *)
Lemma matchRe_lits R pat : forall s c (k : jsstring -> captures -> option R),
  matchRe false (lits pat) s c k =
    if startsWith pat s then k (skipn (List.length pat) s) c else None.
Proof.
  induction pat as [| a pat IH]; intros s c k; [reflexivity |].
  simpl. destruct s as [| b s]; [reflexivity |].
  unfold litMatches. destruct (Ascii.eqb a b); simpl; [apply IH | reflexivity].
Qed.

Lemma anyChar_true c : anyChar c = true.
Proof. unfold anyChar. destruct (isSpace c); reflexivity. Qed.

(** The lazy repetition of any character in front of a final literal run
    stops at the first occurrence of the run. *)
Lemma starLazy_cut R pat (g : jsstring -> R) : forall s,
  starLazy anyChar s
    (fun s' =>
       if startsWith pat s' then Some (g (skipn (List.length pat) s')) else None) =
    match cut pat s with
    | Some (_, after) => Some (g after)
    | None => None
    end.
Proof.
  induction s as [| ch s IH].
  - simpl. destruct (startsWith pat []); reflexivity.
  - simpl starLazy. simpl cut.
    destruct (startsWith pat (ch :: s)); [reflexivity |].
    rewrite anyChar_true, IH.
    destruct (cut pat s) as [[b a] |]; reflexivity.
Qed.

Lemma starLazy_ext R p (k1 k2 : jsstring -> option R) :
  (forall s, k1 s = k2 s) ->
  forall s, starLazy p s k1 = starLazy p s k2.
Proof.
  intros Hk s. induction s as [| ch s IH]; simpl; rewrite Hk.
  - reflexivity.
  - rewrite IH. reflexivity.
Qed.

(** What [exec] does with the flashcard pattern. *)
Lemma exec_flashcardBlock s :
  exec false flashcardBlock s =
    if startsWith FLASHCARD_START s then
      match cut FLASHCARD_END (skipn (List.length FLASHCARD_START) s) with
      | Some (_, after) => Some ([], after)
      | None => None
      end
    else None.
Proof.
  unfold exec, flashcardBlock.
  change (matchRe false (Seq ?a ?b) ?s ?c ?k)
    with (matchRe false a s c (fun s' c' => matchRe false b s' c' k)).
  rewrite matchRe_lits.
  destruct (startsWith FLASHCARD_START s); [| reflexivity].
  change (matchRe false (Seq ?a ?b) ?s ?c ?k)
    with (matchRe false a s c (fun s' c' => matchRe false b s' c' k)).
  change (matchRe false (Star false ?p) ?s ?c ?k)
    with (starLazy p s (fun s' => k s' c)).
  rewrite <- (starLazy_cut FLASHCARD_END (fun after => (@nil (nat * jsstring), after))).
  apply starLazy_ext. intro s'. apply matchRe_lits.
Qed.

Lemma removeFrom_skip r x : forall y,
  removeFrom false r (List.length x) (x ++ y) = removeFrom false r 0 y.
Proof.
  induction x as [| c x IH]; intro y; [reflexivity |].
  simpl. apply IH.
Qed.

Lemma length_START : List.length FLASHCARD_START = 15.
Proof. reflexivity. Qed.

Lemma length_END : List.length FLASHCARD_END = 13.
Proof. reflexivity. Qed.

(** A start marker with no end marker after it: no block begins later
    either. *)
Lemma firstBlock_none_later c s :
  startsWith FLASHCARD_START (c :: s) = true ->
  cut FLASHCARD_END (skipn (List.length FLASHCARD_START) (c :: s)) = None ->
  firstBlock s = None.
Proof.
  intros Hs Hc. unfold firstBlock.
  destruct (cut FLASHCARD_START s) as [[b r] |] eqn:Hb; [| reflexivity].
  apply cut_split in Hb. subst s.
  assert (Hr : cut FLASHCARD_END r = None); [| rewrite Hr; reflexivity].
  apply (cut_none_suffix FLASHCARD_END
           (skipn (List.length FLASHCARD_START) (c :: b ++ FLASHCARD_START))).
  rewrite <- Hc. f_equal.
  change (c :: b ++ FLASHCARD_START ++ r) with ((c :: b) ++ FLASHCARD_START ++ r).
  change (c :: b ++ FLASHCARD_START) with ((c :: b) ++ FLASHCARD_START).
  rewrite (app_assoc (c :: b)).
  rewrite (skipn_app (List.length FLASHCARD_START) ((c :: b) ++ FLASHCARD_START) r).
  replace (List.length FLASHCARD_START - List.length ((c :: b) ++ FLASHCARD_START))
    with 0 by (rewrite length_app, length_START; lia).
  reflexivity.
Qed.

Lemma removeFrom_here r ch rest :
  removeFrom false r 0 (ch :: rest) =
    match exec false r (ch :: rest) with
    | Some (_, after) =>
      match List.length (ch :: rest) - List.length after with
      | O => ch :: removeFrom false r 0 rest
      | S n => removeFrom false r n rest
      end
    | None => ch :: removeFrom false r 0 rest
    end.
Proof. reflexivity. Qed.

Lemma removeAll_stripBlocks_bounded n : forall s,
  List.length s <= n ->
  removeAll false flashcardBlock s = stripBlocks s.
Proof.
  induction n as [| n IH]; intros s Hn.
  - destruct s; [reflexivity | simpl in Hn; lia].
  - destruct s as [| c s]; [reflexivity |].
    simpl in Hn. rewrite stripBlocks_unfold.
    unfold removeAll. rewrite removeFrom_here, exec_flashcardBlock.
    destruct (startsWith FLASHCARD_START (c :: s)) eqn:Hs.
    + destruct (cut FLASHCARD_END (skipn (List.length FLASHCARD_START) (c :: s)))
        as [[body after] |] eqn:Hc.
      * unfold firstBlock. rewrite (cut_here _ _ Hs), Hc. simpl app.
        pose proof (startsWith_app _ _ Hs) as Hsplit.
        pose proof (cut_split _ _ Hc) as Hsplit2.
        rewrite Hsplit2 in Hsplit.
        assert (Hlen : List.length (c :: s) - List.length after =
                       S (14 + List.length body + List.length FLASHCARD_END)).
        { rewrite Hsplit, !length_app, length_START. lia. }
        rewrite Hlen.
        assert (Hs' : s = (skipn 1 FLASHCARD_START ++ body ++ FLASHCARD_END) ++ after).
        { rewrite <- !app_assoc.
          change FLASHCARD_START
            with (hd c FLASHCARD_START :: skipn 1 FLASHCARD_START) in Hsplit.
          rewrite <- app_comm_cons in Hsplit.
          injection Hsplit as _ Hsplit. exact Hsplit. }
        rewrite Hs' at 1.
        replace (14 + List.length body + List.length FLASHCARD_END)
          with (List.length (skipn 1 FLASHCARD_START ++ body ++ FLASHCARD_END))
          by (rewrite !length_app; reflexivity).
        rewrite removeFrom_skip. apply IH.
        apply (f_equal (@List.length _)) in Hsplit.
        rewrite !length_app, length_START in Hsplit. cbn [List.length] in Hsplit. lia.
      * assert (Hf : firstBlock (c :: s) = None).
        { unfold firstBlock. rewrite (cut_here _ _ Hs), Hc. reflexivity. }
        rewrite Hf. f_equal.
        change (removeFrom false flashcardBlock 0 s)
          with (removeAll false flashcardBlock s).
        rewrite IH by lia. rewrite stripBlocks_unfold.
        rewrite (firstBlock_none_later c s Hs Hc). reflexivity.
    + f_equal. change (removeFrom false flashcardBlock 0 s)
        with (removeAll false flashcardBlock s).
      rewrite IH by lia. rewrite (stripBlocks_unfold s).
      unfold firstBlock. rewrite (cut_cons _ _ _ Hs).
      destruct (cut FLASHCARD_START s) as [[b r] |]; [| reflexivity].
      destruct (cut FLASHCARD_END r) as [[bd a] |]; reflexivity.
Qed.

(** The pattern-based removal of the component is the removal of every
    delimited block. *)
Lemma removeAll_stripBlocks s :
  removeAll false flashcardBlock s = stripBlocks s.
Proof. apply removeAll_stripBlocks_bounded with (n := List.length s). lia. Qed.

(** An occurrence is found, and what follows the first occurrence ends
    with what follows any occurrence. *)
Lemma cut_found pat x : forall y,
  exists before z, cut pat (x ++ pat ++ y) = Some (before, z ++ y).
Proof.
  induction x as [| c x IH]; intro y.
  - exists [], []. simpl app. rewrite cut_here by apply startsWith_prefix.
    rewrite skipn_app, skipn_all, Nat.sub_diag. reflexivity.
  - destruct (startsWith pat ((c :: x) ++ pat ++ y)) eqn:Hp.
    + exists [], (skipn (List.length pat) ((c :: x) ++ pat)).
      rewrite (cut_here _ _ Hp). f_equal. f_equal.
      rewrite (app_assoc (c :: x)), skipn_app.
      replace (List.length pat - List.length ((c :: x) ++ pat)) with 0
        by (rewrite length_app; lia).
      reflexivity.
    + destruct (IH y) as (b & z & Hc). exists (c :: b), z.
      simpl app. simpl app in Hp. rewrite (cut_cons _ _ _ Hp), Hc. reflexivity.
Qed.

(** [hasBlock] decides whether a start marker is followed by an end
    marker. *)
Lemma hasBlock_spec s :
  hasBlock s = true <->
  exists before body after,
    s = before ++ FLASHCARD_START ++ body ++ FLASHCARD_END ++ after.
Proof.
  unfold hasBlock. split.
  - destruct (firstBlock s) as [[[b bd] a] |] eqn:Hb; [| discriminate].
    intros _. exists b, bd, a. apply firstBlock_split. exact Hb.
  - intros (b & bd & a & ->). unfold firstBlock.
    destruct (cut_found FLASHCARD_START b (bd ++ FLASHCARD_END ++ a))
      as (b' & z & ->).
    rewrite app_assoc.
    destruct (cut_found FLASHCARD_END (z ++ bd) a) as (bd' & z' & ->).
    reflexivity.
Qed.

Lemma includes_cut pat s :
  includes pat s = false -> cut pat s = None.
Proof.
  induction s as [| c s IH]; simpl; intro H;
    apply orb_false_elim in H as [Hp Hi]; rewrite Hp; [reflexivity |].
  rewrite (IH Hi). reflexivity.
Qed.

(** C2 (as amended). For a message whose content holds a delimited
    flashcard block, the displayed text is the content with every
    delimited block removed and the surrounding white space trimmed. The
    blocks are taken from left to right, each from a start marker to the
    nearest end marker after it: the first block goes, and the text after
    it is treated in the same way. *)
Theorem displayContent_removes_blocks (content : jsstring) :
  hasBlock content = true ->
  displayContent content = trim (stripBlocks content) /\
  exists before body after,
    firstBlock content = Some (before, body, after) /\
    content = before ++ FLASHCARD_START ++ body ++ FLASHCARD_END ++ after /\
    stripBlocks content = before ++ stripBlocks after /\
    (hasBlock after = false -> displayContent content = trim (before ++ after)).
Proof.
  intro H. unfold displayContent. rewrite removeAll_stripBlocks.
  split; [reflexivity |].
  unfold hasBlock in H.
  destruct (firstBlock content) as [[[b bd] a] |] eqn:Hb; [| discriminate].
  exists b, bd, a. split; [reflexivity |].
  split; [apply firstBlock_split; exact Hb |].
  assert (Hs : stripBlocks content = b ++ stripBlocks a)
    by (rewrite stripBlocks_unfold, Hb; reflexivity).
  split; [exact Hs |].
  intro Ha. rewrite Hs. rewrite (stripBlocks_unfold a).
  unfold hasBlock in Ha. destruct (firstBlock a); [discriminate | reflexivity].
Qed.

(** C2, counterexample. The displayed text is not always the content
    with the blocks removed: white space left around the removed block
    is trimmed as well. *)
Lemma displayContent_also_trims :
  ~ (forall content : jsstring,
       hasBlock content = true ->
       displayContent content = stripBlocks content).
Proof.
  intro H.
  specialize (H (str "Cards: FLASHCARD_STARTQ: a A: bFLASHCARD_END")
                eq_refl).
  vm_compute in H. discriminate H.
Qed.

(** C3 (as amended). For a message whose content has no start marker
    followed by an end marker, nothing is removed: the displayed text is
    the content with only the surrounding white space trimmed. When one
    of the two markers does not occur at all, no flashcard viewer is
    shown. *)
Theorem malformed_markers_keep_text (content : jsstring)
    (sessionId : option jsstring) :
  hasBlock content = false ->
  stripBlocks content = content /\
  displayContent content = trim content /\
  (includes FLASHCARD_START content = false \/
   includes FLASHCARD_END content = false ->
   hasFlashcards content = false /\
   showsFlashcardViewer content sessionId = false).
Proof.
  intro H.
  assert (Hs : stripBlocks content = content).
  { rewrite stripBlocks_unfold. unfold hasBlock in H.
    destruct (firstBlock content); [discriminate | reflexivity]. }
  split; [exact Hs |]. split.
  - unfold displayContent. rewrite removeAll_stripBlocks, Hs. reflexivity.
  - unfold showsFlashcardViewer, hasFlashcards.
    intros [-> | ->]; rewrite ?andb_false_r; split; reflexivity.
Qed.

(** C3, counterexample. A text without markers is not always displayed
    unmodified: its surrounding white space is trimmed. *)
Lemma unmarked_text_is_trimmed :
  ~ (forall content : jsstring,
       hasBlock content = false -> displayContent content = content).
Proof.
  intro H. specialize (H (str " hi") eq_refl).
  vm_compute in H. discriminate H.
Qed.

(** The removal is one pass over the content: text around two removed
    blocks can join into the markers of a block that stays. *)
Example removal_is_one_pass :
  displayContent
    (str "FLASHCARD_FLASHCARD_STARTaFLASHCARD_ENDSTART b FLASHCARD_FLASHCARD_STARTcFLASHCARD_ENDEND") =
    str "FLASHCARD_START b FLASHCARD_END".
Proof. reflexivity. Qed.

(** [hasFlashcards] looks for the two markers in any order: with the end
    marker in front of the start marker nothing is removed, and the viewer
    is rendered when there is a session. *)
Example misordered_markers_show_viewer :
  hasBlock (str "FLASHCARD_END x FLASHCARD_START") = false /\
  displayContent (str "FLASHCARD_END x FLASHCARD_START") =
    str "FLASHCARD_END x FLASHCARD_START" /\
  showsFlashcardViewer (str "FLASHCARD_END x FLASHCARD_START")
    (Some (str "s1")) = true.
Proof. repeat split. Qed.

End BlockPatternFacts.

(** ** Decimal numerals *)

Section DecimalFacts.

Import Js.
Local Open Scope Z_scope.

Lemma digitChar_ok d :
  0 <= d <= 9 ->
  isDigit (digitChar d) = true /\ digitValue (digitChar d) = d.
Proof.
  intro H.
  assert (Hd : d = 0 \/ d = 1 \/ d = 2 \/ d = 3 \/ d = 4 \/
               d = 5 \/ d = 6 \/ d = 7 \/ d = 8 \/ d = 9) by lia.
  repeat (destruct Hd as [-> | Hd]; [split; reflexivity |]).
  subst d. split; reflexivity.
Qed.

Lemma decimalValue_snoc ds c :
  decimalValue (ds ++ [c]) = decimalValue ds * 10 + digitValue c.
Proof. unfold decimalValue. rewrite fold_left_app. reflexivity. Qed.

Lemma digitsOf_spec fuel : forall n acc,
  0 <= n < 2 ^ Z.of_nat (S fuel) ->
  exists ds,
    digitsOf (S fuel) n acc = ds ++ acc /\ ds <> [] /\
    forallb isDigit ds = true /\ decimalValue ds = n.
Proof.
  induction fuel as [| fuel IH]; intros n acc Hn;
    assert (Hm : 0 <= n mod 10 <= 9)
      by (pose proof (Z.mod_pos_bound n 10); lia);
    destruct (digitChar_ok Hm) as [Hd Hv];
    cbn [digitsOf];
    destruct (Z.eqb_spec (n / 10) 0) as [Hq | Hq].
  - exists [digitChar (n mod 10)]. split; [reflexivity |].
    split; [discriminate |]. split; [simpl; rewrite Hd; reflexivity |].
    unfold decimalValue. simpl. rewrite Hv.
    pose proof (Z.div_mod n 10). lia.
  - exfalso. apply Hq. apply Z.div_small.
    change (2 ^ Z.of_nat 1) with 2 in Hn. lia.
  - exists [digitChar (n mod 10)]. split; [reflexivity |].
    split; [discriminate |]. split; [simpl; rewrite Hd; reflexivity |].
    unfold decimalValue. simpl. rewrite Hv.
    pose proof (Z.div_mod n 10). lia.
  - assert (Hb : 0 <= n / 10 < 2 ^ Z.of_nat (S fuel)).
    { split; [apply Z.div_pos; lia |].
      rewrite (Nat2Z.inj_succ (S fuel)), Z.pow_succ_r in Hn by lia.
      apply Z.div_lt_upper_bound; lia. }
    destruct (IH (n / 10) (digitChar (n mod 10) :: acc) Hb)
      as (ds & Heq & Hne & Hall & Hval).
    exists (ds ++ [digitChar (n mod 10)]).
    split; [rewrite <- app_assoc; exact Heq |].
    split; [intro H; apply app_eq_nil in H as [_ H]; discriminate |].
    split; [rewrite forallb_app, Hall; simpl; rewrite Hd; reflexivity |].
    rewrite decimalValue_snoc, Hval, Hv.
    pose proof (Z.div_mod n 10). lia.
Qed.

Lemma decimal_spec n :
  0 <= n ->
  decimal n <> [] /\ forallb isDigit (decimal n) = true /\
  decimalValue (decimal n) = n.
Proof.
  intro Hn. unfold decimal.
  destruct (digitsOf_spec (Z.to_nat (Z.log2 n)) (n := n) []) as (ds & Heq & H).
  - split; [exact Hn |].
    rewrite Nat2Z.inj_succ, Z2Nat.id by apply Z.log2_nonneg.
    destruct (Z.eq_dec n 0) as [-> | Hz]; [reflexivity |].
    apply Z.log2_spec. lia.
  - rewrite app_nil_r in Heq. rewrite Heq. exact H.
Qed.

Lemma digitPrefix_all ds :
  forallb isDigit ds = true -> digitPrefix ds = ds.
Proof.
  induction ds as [| d ds IH]; simpl; [reflexivity |].
  intro H. apply andb_prop in H as [Hd Hds]. rewrite Hd, IH by exact Hds.
  reflexivity.
Qed.

Lemma isDigit_plain d :
  isDigit d = true ->
  isSpace d = false /\ Ascii.eqb d "-"%char = false /\
  Ascii.eqb d "+"%char = false /\ Ascii.eqb d "]"%char = false /\
  Ascii.eqb d "."%char = false.
Proof.
  unfold isDigit, isSpace, code. intro H.
  apply andb_prop in H as [H1 H2].
  apply Nat.leb_le in H1, H2.
  assert (Hne : forall c, (nat_of_ascii c < 48 \/ 57 < nat_of_ascii c)%nat ->
                          Ascii.eqb d c = false).
  { intros c Hc. destruct (Ascii.eqb_spec d c); [subst; lia | reflexivity]. }
  repeat split; try (apply Hne; vm_compute; lia).
  destruct (Nat.leb_spec 9 (nat_of_ascii d)); simpl;
    repeat match goal with
           | |- context [(?a <=? ?b)%nat] => destruct (Nat.leb_spec a b); simpl
           | |- context [(?a =? ?b)%nat] => destruct (Nat.eqb_spec a b); simpl
           end; try reflexivity; lia.
Qed.

(** Reading a run of digits gives its value. *)
Lemma parseInt10_digits ds :
  ds <> [] -> forallb isDigit ds = true ->
  parseInt10 ds = Int (decimalValue ds).
Proof.
  intros Hne Hall. unfold parseInt10.
  destruct ds as [| d ds']; [congruence |].
  pose proof Hall as Hall'. simpl in Hall'.
  apply andb_prop in Hall' as [Hd _].
  destruct (isDigit_plain _ Hd) as (Hs & Hm & Hp & _).
  simpl trimStart. rewrite Hs, Hm, Hp.
  rewrite (digitPrefix_all _ Hall). reflexivity.
Qed.

Lemma Number_toString_nonneg n :
  0 <= n -> Number_toString (Int n) = decimal n.
Proof.
  intro H. simpl. destruct (Z.ltb_spec n 0); [lia | reflexivity].
Qed.

End DecimalFacts.

(** ** The matcher on the source pattern *)

Section SourcePatternFacts.

Import Js Regex ChatMessage.

Variable R : Type.

Lemma matchRe_seq i a b s c (k : jsstring -> captures -> option R) :
  matchRe i (Seq a b) s c k =
  matchRe i a s c (fun s' c' => matchRe i b s' c' k).
Proof. reflexivity. Qed.

Lemma matchRe_lits_ci pat : forall u s c (k : jsstring -> captures -> option R),
  sameLetters pat u = true ->
  matchRe true (lits pat) (u ++ s) c k = k s c.
Proof.
  induction pat as [| a pat IH]; intros u s c k H; destruct u as [| b u];
    try discriminate; [reflexivity |].
  simpl in H. apply andb_prop in H as [Hab Hu].
  simpl. rewrite Hab. apply IH. exact Hu.
Qed.

Lemma starGreedy_here p (K : jsstring -> option R) : forall y,
  (forall y1 y2, y = y1 ++ y2 -> y1 <> [] -> forallb p y1 = true ->
                 K y2 = None) ->
  starGreedy p y K = K y.
Proof.
  induction y as [| ch y IH]; intro H; [reflexivity |].
  simpl. destruct (p ch) eqn:Hp; [| reflexivity].
  rewrite IH.
  - rewrite (H [ch] y); [reflexivity | reflexivity | discriminate |].
    simpl. rewrite Hp. reflexivity.
  - intros y1 y2 Hy Hne Hall. apply (H (ch :: y1) y2).
    + rewrite Hy. reflexivity.
    + discriminate.
    + simpl. rewrite Hp. exact Hall.
Qed.

(** A greedy repetition gives back what its continuation needs: it
    settles on the longest run after which the continuation succeeds. *)
Lemma starGreedy_commit p (K : jsstring -> option R) x : forall y r,
  forallb p x = true ->
  K y = Some r ->
  (forall y1 y2, y = y1 ++ y2 -> y1 <> [] -> forallb p y1 = true ->
                 K y2 = None) ->
  starGreedy p (x ++ y) K = Some r.
Proof.
  induction x as [| ch x IH]; intros y r Hx Hy Hfail.
  - simpl. rewrite starGreedy_here by exact Hfail. exact Hy.
  - simpl in Hx. apply andb_prop in Hx as [Hch Hx].
    simpl. rewrite Hch. rewrite (IH y r Hx Hy Hfail). reflexivity.
Qed.

(** A greedy repetition in front of a character outside its class. *)
Lemma starGreedy_blocked p (K : jsstring -> option R) x ch y r :
  forallb p x = true -> p ch = false ->
  K (ch :: y) = Some r ->
  starGreedy p (x ++ ch :: y) K = Some r.
Proof.
  intros Hx Hch Hk. apply starGreedy_commit; [exact Hx | exact Hk |].
  intros y1 y2 Hy Hne Hall. destruct y1 as [| a y1]; [congruence |].
  simpl in Hy. injection Hy as <- _. simpl in Hall.
  rewrite Hch in Hall. discriminate.
Qed.

Lemma captured_text (x y : jsstring) :
  firstn (List.length (x ++ y) - List.length y) (x ++ y) = x.
Proof.
  rewrite length_app, Nat.add_sub, firstn_app, Nat.sub_diag, firstn_all.
  simpl. apply app_nil_r.
Qed.

End SourcePatternFacts.

(** ** Citation paragraphs *)

Section CitationFacts.

Import Js Regex ChatMessage.

(** Decides the comparisons between literal characters. *)
Ltac literals :=
  repeat match goal with
         | |- context [Ascii.eqb (canonicalize ?a) (canonicalize ?b)] =>
           let v := eval vm_compute in (Ascii.eqb (canonicalize a) (canonicalize b)) in
           change (Ascii.eqb (canonicalize a) (canonicalize b)) with v
         end;
  cbv iota.

Lemma match_afterName ds c :
  ds <> [] -> forallb isDigit ds = true ->
  matchRe true afterName (str ", p." ++ ds ++ str "]") c done =
    Some ((2, ds) :: c, []).
Proof.
  intros Hne Hall. destruct ds as [| d0 ds]; [congruence |].
  simpl in Hall. apply andb_prop in Hall as [Hd0 Hds].
  unfold afterName. cbn -[starGreedy]. literals.
  apply (@starGreedy_blocked _ isSpace _ [" "%char] "p"%char);
    [reflexivity | reflexivity |].
  literals. rewrite Hd0.
  apply (@starGreedy_blocked _ isDigit _ ds "]"%char []);
    [exact Hds | reflexivity |].
  literals. unfold done.
  pose proof (captured_text (d0 :: ds) ["]"%char]) as Hc.
  change ((d0 :: ds) ++ ["]"%char]) with (d0 :: ds ++ ["]"%char]) in Hc.
  rewrite Hc. reflexivity.
Qed.

Lemma app_cons_cases (y1 y2 : jsstring) a l :
  y1 ++ y2 = a :: l ->
  (y1 = [] /\ y2 = a :: l) \/ (exists y1', y1 = a :: y1' /\ y1' ++ y2 = l).
Proof.
  destruct y1 as [| b y1]; simpl; intro H.
  - left. split; [reflexivity | exact H].
  - right. injection H as -> H. exists y1. split; [reflexivity | exact H].
Qed.

(** The suffixes of a run of digits closed by a bracket. *)
Lemma digits_suffix ds : forall y1 y2,
  forallb isDigit ds = true ->
  y1 ++ y2 = ds ++ ["]"%char] ->
  y2 = [] \/ exists h t, y2 = h :: t /\ (isDigit h = true \/ h = "]"%char).
Proof.
  induction ds as [| d ds IH]; intros y1 y2 Hall Hy.
  - simpl in Hy. apply app_cons_cases in Hy as [[_ ->] | (y1' & _ & Hy)].
    + right. exists "]"%char, []. auto.
    + apply app_eq_nil in Hy as [_ ->]. left. reflexivity.
  - simpl in Hall. apply andb_prop in Hall as [Hd Hds].
    simpl in Hy. apply app_cons_cases in Hy as [[_ ->] | (y1' & _ & Hy)].
    + right. exists d, (ds ++ ["]"%char]). auto.
    + apply (IH y1' y2 Hds Hy).
Qed.

Lemma canonicalize_digit d : isDigit d = true -> canonicalize d = d.
Proof.
  unfold isDigit, canonicalize. intro H.
  apply andb_prop in H as [_ H]. apply Nat.leb_le in H.
  destruct (Nat.leb_spec 97 (code d)); [lia | reflexivity].
Qed.

(** A digit or a closing bracket is not the dot of [.pdf], and a digit
    is not its [p]. *)
Lemma not_a_dot h :
  isDigit h = true \/ h = "]"%char -> litMatches true "."%char h = false.
Proof.
  intros [H | ->]; [| reflexivity].
  unfold litMatches. rewrite (canonicalize_digit _ H).
  rewrite Ascii.eqb_sym. apply (isDigit_plain _ H).
Qed.

Lemma not_a_p h :
  isDigit h = true -> litMatches true "p"%char h = false.
Proof.
  intro H. unfold litMatches. rewrite (canonicalize_digit _ H).
  destruct (Ascii.eqb_spec (canonicalize "p") h) as [<- | _]; [| reflexivity].
  discriminate H.
Qed.

(** Where [.pdf] cannot match. *)
Lemma lits_pdf_fail R y c (k : jsstring -> captures -> option R) :
  match y with
  | [] => True
  | h :: t =>
    litMatches true "."%char h = false \/
    match t with
    | [] => True
    | h2 :: _ => litMatches true "p"%char h2 = false
    end
  end ->
  matchRe true (lits (str ".pdf")) y c k = None.
Proof.
  destruct y as [| h t]; [reflexivity |].
  intros [H | H]; cbn [str list_ascii_of_string lits matchRe].
  - rewrite H. reflexivity.
  - destruct (litMatches true "." h); [| reflexivity].
    destruct t as [| h2 t]; [reflexivity |]. rewrite H. reflexivity.
Qed.

(** The shape of an accepted file name. *)
Lemma pdfName_split f :
  pdfName f = true ->
  exists c0 stem ext,
    f = c0 :: stem ++ ext /\
    notBracket c0 = true /\ forallb notBracket stem = true /\
    sameLetters (str ".pdf") ext = true.
Proof.
  unfold pdfName. intro H.
  apply andb_prop in H as [H Hext]. apply andb_prop in H as [Hnb Hlen].
  apply Nat.leb_le in Hlen.
  rewrite <- (firstn_skipn (List.length f - 4) f) in Hnb.
  rewrite forallb_app in Hnb. apply andb_prop in Hnb as [Hstem _].
  destruct (firstn (List.length f - 4) f) as [| c0 stem] eqn:Hf.
  - apply (f_equal (@List.length _)) in Hf.
    rewrite length_firstn in Hf. simpl in Hf. lia.
  - simpl in Hstem. apply andb_prop in Hstem as [Hc0 Hstem].
    exists c0, stem, (skipn (List.length f - 4) f).
    split; [| auto].
    rewrite app_comm_cons, <- Hf. symmetry. apply firstn_skipn.
Qed.

Lemma sameLetters_pdf ext :
  sameLetters (str ".pdf") ext = true ->
  exists e1 e2 e3 e4,
    ext = [e1; e2; e3; e4] /\
    litMatches true "."%char e1 = true /\ litMatches true "p"%char e2 = true /\
    litMatches true "d"%char e3 = true /\ litMatches true "f"%char e4 = true.
Proof.
  intro H. destruct ext as [| e1 [| e2 [| e3 [| e4 [| e5 ext]]]]];
    simpl in H; repeat (apply andb_prop in H as [? H]);
    try discriminate H.
  exists e1, e2, e3, e4. repeat split; assumption.
Qed.

(** A letter of [.pdf], in either case, is not its dot. *)
Lemma letter_not_dot l e :
  l = "p"%char \/ l = "d"%char \/ l = "f"%char ->
  litMatches true l e = true -> litMatches true "."%char e = false.
Proof.
  unfold litMatches. intros Hl H. apply Ascii.eqb_eq in H. rewrite <- H.
  destruct Hl as [-> | [-> | ->]]; reflexivity.
Qed.

(** The source pattern matches a whole source line, and its groups are
    the file name and the digits of the page. *)
Lemma exec_sourcePattern f ds :
  pdfName f = true -> ds <> [] -> forallb isDigit ds = true ->
  exec true sourcePattern (str "Source: [" ++ f ++ str ", p." ++ ds ++ str "]") =
    Some ([(2, ds); (1, f)], []).
Proof.
  intros Hf Hne Hall.
  destruct (pdfName_split _ Hf) as (c0 & stem & ext & -> & Hc0 & Hstem & Hext).
  unfold exec, sourcePattern.
  set (T := str ", p." ++ ds ++ str "]").
  change (str "Source: [" ++ (c0 :: stem ++ ext) ++ T)
    with (str "Source:" ++ [" "%char] ++ "["%char :: (c0 :: stem ++ ext) ++ T).
  rewrite matchRe_seq, matchRe_lits_ci by reflexivity.
  rewrite matchRe_seq.
  change (matchRe true (Star true ?p) ?s ?c ?k)
    with (starGreedy p s (fun s' => k s' c)).
  apply starGreedy_blocked; [reflexivity | reflexivity |].
  cbv beta. rewrite matchRe_seq.
  change (matchRe true (Lit ?l) (?ch :: ?rest) ?c ?k)
    with (if litMatches true l ch then k rest c else None).
  change (litMatches true "[" "[") with true. cbv beta iota.
  rewrite matchRe_seq.
  change (matchRe true (Group ?i ?g) ?s ?c ?k)
    with (matchRe true g s c
            (fun s' c' => k s' ((i, firstn (List.length s - List.length s') s) :: c'))).
  unfold Plus. rewrite !matchRe_seq.
  change ((c0 :: stem ++ ext) ++ T) with (c0 :: (stem ++ ext) ++ T).
  change (matchRe true (Class ?p) (?ch :: ?rest) ?c ?k)
    with (if p ch then k rest c else None).
  rewrite Hc0. cbv beta.
  change (matchRe true (Star true ?p) ?s ?c ?k)
    with (starGreedy p s (fun s' => k s' c)).
  rewrite <- app_assoc.
  apply starGreedy_commit; [exact Hstem | |]; cbv beta.
  - rewrite matchRe_lits_ci by exact Hext.
    pose proof (captured_text (c0 :: stem ++ ext) T) as Hc.
    rewrite <- app_comm_cons, <- app_assoc in Hc. rewrite Hc.
    apply match_afterName; assumption.
  - intros y1 y2 Hy Hy1 _. cbv beta. apply lits_pdf_fail.
    destruct (sameLetters_pdf _ Hext) as (e1 & e2 & e3 & e4 & -> & H1 & H2 & H3 & H4).
    symmetry in Hy. unfold T in Hy. simpl in Hy.
    apply app_cons_cases in Hy as [[-> _] | (z0 & _ & Hy)]; [congruence |].
    clear Hy1.
    apply app_cons_cases in Hy as [[_ ->] | (z1 & _ & Hy)];
      [left; apply (letter_not_dot (l := "p"%char)); auto |].
    apply app_cons_cases in Hy as [[_ ->] | (z2 & _ & Hy)];
      [left; apply (letter_not_dot (l := "d"%char)); auto |].
    apply app_cons_cases in Hy as [[_ ->] | (z3 & _ & Hy)];
      [left; apply (letter_not_dot (l := "f"%char)); auto |].
    apply app_cons_cases in Hy as [[_ ->] | (z4 & _ & Hy)];
      [left; reflexivity |].
    apply app_cons_cases in Hy as [[_ ->] | (z5 & _ & Hy)];
      [left; reflexivity |].
    apply app_cons_cases in Hy as [[_ ->] | (z6 & _ & Hy)];
      [left; reflexivity |].
    apply app_cons_cases in Hy as [[_ ->] | (z7 & _ & Hy)].
    + right. destruct ds as [| d0 ds']; [congruence |].
      simpl. apply not_a_p. simpl in Hall.
      apply andb_prop in Hall as [Hd _]. exact Hd.
    + destruct (digits_suffix _ _ _ Hall Hy) as [-> | (h & t & -> & Hh)];
        [exact I |].
      left. apply not_a_dot. exact Hh.
Qed.

Lemma trim_tight a m z :
  isSpace a = false -> isSpace z = false ->
  trim (a :: m ++ [z]) = a :: m ++ [z].
Proof.
  intros Ha Hz. unfold trim.
  assert (H1 : trimStart (a :: m ++ [z]) = a :: m ++ [z])
    by (simpl; rewrite Ha; reflexivity).
  rewrite H1. unfold trimEnd.
  assert (H2 : rev (a :: m ++ [z]) = z :: rev m ++ [a])
    by (simpl; rewrite rev_app_distr; reflexivity).
  rewrite H2. simpl trimStart. rewrite Hz.
  simpl. rewrite rev_app_distr, rev_involutive. reflexivity.
Qed.

Lemma search_found i r s c after :
  exec i r s = Some (c, after) -> search i r s = Some c.
Proof. intro H. destruct s; simpl; rewrite H; reflexivity. Qed.

(** The renderer on a source line with an accepted file name. *)
Lemma p_source_line f ds rest :
  pdfName f = true -> ds <> [] -> forallb isDigit ds = true ->
  p (Text (str "Source: [" ++ f ++ str ", p." ++ ds ++ str "]") :: rest) =
    CitationParagraph (mkCitation f (Int (decimalValue ds)) []).
Proof.
  intros Hf Hne Hall. unfold p.
  assert (Ht : trim (str "Source: [" ++ f ++ str ", p." ++ ds ++ str "]") =
               str "Source: [" ++ f ++ str ", p." ++ ds ++ str "]").
  { change (str "Source: [" ++ f ++ str ", p." ++ ds ++ str "]")
      with ("S"%char :: str "ource: [" ++ f ++ str ", p." ++ ds ++ ["]"%char]).
    rewrite !app_assoc. apply trim_tight; reflexivity. }
  rewrite Ht.
  change (startsWith (str "Source:")
            (str "Source: [" ++ f ++ str ", p." ++ ds ++ str "]")) with true.
  cbv iota.
  rewrite (search_found _ _ _ (@exec_sourcePattern f ds Hf Hne Hall)).
  unfold matchGroup. cbn [capture Nat.eqb].
  rewrite (@parseInt10_digits ds Hne Hall). reflexivity.
Qed.

Lemma p_not_source children :
  notSource children -> p children = PlainParagraph false children.
Proof.
  unfold notSource, p. destruct children as [| [t |] rest]; try reflexivity.
  intros ->. reflexivity.
Qed.

(** C1 (as amended). A paragraph of the form [Source: [<filename>, p.<n>]]
    whose file name ends in [.pdf] (in any letter case, after at least
    one character) and holds no closing bracket is rendered as a citation
    button and nothing else: it carries exactly one citation, with that
    file name and the page [n]; the text shown is the label of the
    button, equal to the line, and no text of the line is left outside
    the button. A paragraph whose first child is not a string starting
    with [Source:] carries no citation. *)
Theorem source_line_becomes_citation (filename : jsstring) (n : Z)
    (rest : list Child) :
  pdfName filename = true ->
  (0 <= n <= maxSafeInteger)%Z ->
  let line := str "Source: [" ++ filename ++ str ", p." ++ decimal n ++ str "]" in
  let par := p (Text line :: rest) in
  citationsOf par = [mkCitation filename (Int n) []] /\
  visibleText par = line /\
  bareText par = [] /\
  (forall children, notSource children -> citationsOf (p children) = []).
Proof.
  intros Hf Hn line par.
  destruct (decimal_spec (n := n)) as (Hne & Hall & Hval); [lia |].
  assert (Hp : par = CitationParagraph (mkCitation filename (Int n) [])).
  { unfold par, line. rewrite (@p_source_line filename (decimal n) rest Hf Hne Hall), Hval.
    reflexivity. }
  rewrite Hp. split; [reflexivity |]. split; [| split; [reflexivity |]].
  - unfold visibleText, citationLabel, line. simpl file. simpl page.
    rewrite Number_toString_nonneg by lia. reflexivity.
  - intros children Hc. rewrite (p_not_source _ Hc). reflexivity.
Qed.

(** C1, counterexample. A source line whose file name does not end in
    [.pdf] yields no citation and stays in the text as it is. *)
Lemma other_extension_is_not_cited :
  citationsOf (p [Text (str "Source: [notes.txt, p.4]")]) = [] /\
  bareText (p [Text (str "Source: [notes.txt, p.4]")]) =
    str "Source: [notes.txt, p.4]".
Proof. split; reflexivity. Qed.

End CitationFacts.

(** ** The theorems on concrete inputs *)

Section Instances.

Import Js.

(** The line [Source: [report.pdf, p.4]] is cited as page 4 of
    [report.pdf]. *)
Lemma source_line_becomes_citation_witness :
  ChatMessage.pdfName (str "report.pdf") = true /\
  (0 <= 4 <= maxSafeInteger)%Z /\
  ChatMessage.citationsOf
    (ChatMessage.p [ChatMessage.Text (str "Source: [report.pdf, p.4]")]) =
    [ChatMessage.mkCitation (str "report.pdf") (Int 4) []].
Proof.
  assert (Hn : (0 <= 4 <= maxSafeInteger)%Z) by (unfold maxSafeInteger; lia).
  split; [reflexivity |]. split; [exact Hn |].
  destruct (@source_line_becomes_citation (str "report.pdf") 4%Z []
              eq_refl Hn) as [H _].
  exact H.
Defined.

(** A reply with text, a blank and a flashcard block. *)
Lemma displayContent_removes_blocks_witness :
  ChatMessage.hasBlock
    (str "Cards: FLASHCARD_STARTQ: a A: bFLASHCARD_END") = true /\
  ChatMessage.displayContent
    (str "Cards: FLASHCARD_STARTQ: a A: bFLASHCARD_END") =
    trim (ChatMessage.stripBlocks
            (str "Cards: FLASHCARD_STARTQ: a A: bFLASHCARD_END")).
Proof.
  split; [reflexivity |].
  destruct (@displayContent_removes_blocks
              (str "Cards: FLASHCARD_STARTQ: a A: bFLASHCARD_END") eq_refl)
    as [H _].
  exact H.
Defined.

(** A reply with a start marker and no end marker. *)
Lemma malformed_markers_keep_text_witness :
  ChatMessage.hasBlock (str " FLASHCARD_START Q: a") = false /\
  ChatMessage.displayContent (str " FLASHCARD_START Q: a") =
    trim (str " FLASHCARD_START Q: a") /\
  ChatMessage.showsFlashcardViewer (str " FLASHCARD_START Q: a")
    (Some (str "s1")) = false.
Proof.
  split; [reflexivity |].
  destruct (@malformed_markers_keep_text (str " FLASHCARD_START Q: a")
              (Some (str "s1")) eq_refl) as (_ & Hd & Hv).
  split; [exact Hd |].
  destruct (Hv (or_intror eq_refl)) as [_ H]. exact H.
Defined.

(** The first message of a chat, typed after the component is mounted;
    while its query is pending the user types again, presses send and
    closes the mode dialog; then the query fails. *)
Lemma failed_query_is_recorded_witness :
  let s := ChatArea.setMessage (str "hi") ChatArea.mounted in
  let es := [ChatArea.Type_ (str "more"); ChatArea.Send 1500%Z;
             ChatArea.CloseModeDialog] in
  ChatArea.reachable s /\
  isBlank (ChatArea.message s) = false /\
  ChatArea.loading s = false /\
  forallb ChatArea.keepsTurn es = true /\
  exists s1 s1' s2 out,
    ChatArea.step (ChatArea.Send 1000) s =
      Some (s1, [ChatArea.CallQuery (ChatArea.requestOf s)]) /\
    ChatArea.run s1 es out s1' /\
    ChatArea.step (ChatArea.QueryRejected 0 2000 (ChatArea.mkApiError None)) s1' =
      Some (s2, [ChatArea.ToastQueryFailed (str "Failed to get response")]) /\
    ChatArea.messages s2 =
      [ChatArea.mkMessage 1000 ChatArea.user (str "hi") 1000 None;
       ChatArea.mkMessage 2001 ChatArea.assistant
         (str "Sorry, I encountered an error processing your request. Please try again.")
         2000 (Some [])].
Proof.
  intros s es.
  assert (Hr : ChatArea.reachable s).
  { exists [ChatArea.Type_ (str "hi")]. eexists.
    apply runEvents_run. reflexivity. }
  split; [exact Hr |]. split; [reflexivity |]. split; [reflexivity |].
  split; [reflexivity |].
  destruct failed_query_is_recorded as [_ H].
  destruct (H s 1000%Z Hr eq_refl eq_refl) as (s1 & H1 & _ & Hrest).
  pose proof H1 as H1'. vm_compute in H1'. injection H1' as <-.
  match type of Hrest with
  | context [ChatArea.run ?c _ _ _] =>
    destruct (ChatArea.runEvents es c) as [[s1' out] |] eqn:H2;
      [| vm_compute in H2; discriminate H2]
  end.
  destruct (Hrest es out s1' 2000%Z (ChatArea.mkApiError None)
              (@runEvents_run _ _ _ _ H2) eq_refl) as (s2 & H3 & H4 & _).
  eexists. exists s1', s2, out.
  split; [exact H1 |]. split; [exact (@runEvents_run _ _ _ _ H2) |].
  split; [exact H3 | exact H4].
Defined.

(** The stored conversation of the session [s1] is shown; the user types
    a question and sends it. *)
Lemma single_inflight_query_witness :
  let es := firstn 2 ChatArea.crossedSessions in
  let es' := [ChatArea.Type_ (str "q2"); ChatArea.Send 1000%Z] in
  exists s out s' out',
    ChatArea.run ChatArea.mounted es out s /\
    ChatArea.loading s = false /\
    ChatArea.run s es' out' s' /\
    forallb ChatArea.keepsHistory es' = true /\
    ChatArea.loading s' = true /\
    ChatArea.handleSend 3000 s' = (s', []) /\
    exists t, ChatArea.messages s' = ChatArea.messages s ++ t /\
              ChatArea.paired true t.
Proof.
  intros es es'.
  destruct (ChatArea.runEvents es ChatArea.mounted) as [[s out] |] eqn:H1;
    [| vm_compute in H1; discriminate H1].
  destruct (ChatArea.runEvents es' s) as [[s' out'] |] eqn:H2.
  2: { vm_compute in H1. injection H1 as <- <-.
       vm_compute in H2. discriminate H2. }
  pose proof (@runEvents_run _ _ _ _ H1) as Hr1.
  pose proof (@runEvents_run _ _ _ _ H2) as Hr2.
  assert (Hl : ChatArea.loading s = false /\ ChatArea.loading s' = true).
  { vm_compute in H1. injection H1 as <- <-.
    vm_compute in H2. injection H2 as <- <-. split; reflexivity. }
  destruct Hl as [Hl Hl'].
  destruct (@single_inflight_query es out s 3000%Z Hr1) as (_ & _ & Hb & Hp).
  destruct (Hp es' out' s' Hl Hr2 eq_refl) as (t & Ht & Hpt).
  exists s, out, s', out'.
  split; [exact Hr1 |]. split; [exact Hl |]. split; [exact Hr2 |].
  split; [reflexivity |]. split; [exact Hl' |].
  split; [exact (proj1 (Hb s' (or_introl Hl'))) |].
  exists t. split; [exact Ht |]. rewrite Hl' in Hpt. exact Hpt.
Defined.


(** An isolated upload of one file with a name of two blanks. *)
Lemma isolated_upload_needs_name_witness :
  let s :=
    FileUpload.Dialog.mkState
      [FileUpload.mkFile (str "a.pdf") (str "application/pdf") 10]
      FileUpload.isolated (str "  ") false 0 true in
  FileUpload.Dialog.collectionType s = FileUpload.isolated /\
  trim (FileUpload.Dialog.collectionName s) = [] /\
  fst (FileUpload.Dialog.handleUpload s) = s /\
  forall r, ~ In (FileUpload.Upload r) (snd (FileUpload.Dialog.handleUpload s)).
Proof.
  intro s. split; [reflexivity |]. split; [reflexivity |].
  destruct isolated_upload_needs_name as (H & _).
  destruct (H s eq_refl eq_refl) as (H1 & _ & H3).
  split; [exact H1 | exact H3].
Defined.

End Instances.

(* ===================================================================== *)
(** * Part III: further properties of the components                       *)
(* ===================================================================== *)

Unset Implicit Arguments.

(** ** The upload dialog *)

Section UploadDialogFacts.

Import Js FileUpload UploadDialog.

Lemma dropIndex_pdf index : forall i l,
  forallb isPdf l = true -> forallb isPdf (dropIndex index i l) = true.
Proof.
  intros i l. revert i. induction l as [| f l IH]; intros i H; [reflexivity |].
  simpl in H. apply andb_prop in H as [Hf Hl]. simpl.
  destruct (i =? index)%nat; simpl; [| rewrite Hf]; apply IH; exact Hl.
Qed.

Lemma filter_pdf l : forallb isPdf (filter isPdf l) = true.
Proof.
  induction l as [| f l IH]; [reflexivity |]. simpl.
  destruct (isPdf f) eqn:Hf; [simpl; rewrite Hf |]; exact IH.
Qed.

Lemma controlsEnabled_idle m :
  controlsEnabled m = true -> phase m ->
  Dialog.uploading (cells m) = false /\ pending m = [] /\ resets m = 0 /\
  (Dialog.uploadProgress (cells m) <= 90)%Z.
Proof.
  unfold controlsEnabled. intros H Hp.
  apply andb_prop in H as [_ H]. apply negb_true_iff in H.
  destruct Hp as [Hp | [[Hu _] | [Hu _]]]; [exact Hp | congruence | congruence].
Qed.

(** Changing the cells of an idle dialog without touching the upload
    flag or the progress keeps the dialog idle. *)
Lemma idle_cells m c k :
  controlsEnabled m = true ->
  invariant k m ->
  Dialog.uploading c = Dialog.uploading (cells m) ->
  Dialog.uploadProgress c = Dialog.uploadProgress (cells m) ->
  forallb isPdf (Dialog.files c) = true ->
  invariant k (withCells c m).
Proof.
  intros He (Hpdf & Hph & H0 & H10 & Ht) Hu Hp Hf.
  destruct (controlsEnabled_idle m He Hph) as (Hu' & Hpe & Hr & Hle).
  unfold invariant, phase. simpl. rewrite Hu, Hp.
  split; [exact Hf |]. split; [left; auto |]. auto.
Qed.

(** Opening or closing the dialog changes nothing else. *)
Lemma setOpen_invariant b m k :
  invariant k m -> invariant k (withCells (setOpen b (cells m)) m).
Proof.
  unfold invariant, phase, currentRequest. simpl. intro H. exact H.
Qed.

(** A promise that settles is the one of the request shown. *)
Lemma settling_phase m i r :
  phase m -> nth_error (pending m) i = Some r ->
  i = 0 /\ r = currentRequest (cells m) /\
  pending m = [currentRequest (cells m)] /\
  Dialog.uploading (cells m) = true /\
  Dialog.files (cells m) <> [] /\
  nameMissing (Dialog.collectionType (cells m))
    (Dialog.collectionName (cells m)) = false /\
  resets m = 0 /\ (Dialog.uploadProgress (cells m) <= 90)%Z.
Proof.
  intros [(_ & Hpe & _) | [(Hu & Hpe & Hf & Hn & Hr & Hle) | (_ & Hpe & _)]] Hi;
    rewrite Hpe in Hi; try (destruct i; discriminate Hi).
  destruct i as [| [| i]]; simpl in Hi; try discriminate Hi.
  injection Hi as <-. repeat split; auto.
Qed.

Lemma step_invariant e m m' out k :
  step e m = Some (m', out) ->
  invariant k m ->
  invariant (k + failures [e]) m' /\
  forall r, In r (uploadsOf out) -> wellFormed r.
Proof.
  intros Hs Hinv. pose proof Hinv as (Hpdf & Hph & H0 & H10 & Ht).
  destruct e; simpl in Hs; simpl failures; rewrite ?Nat.add_0_r.
  - (* Open *)
    injection Hs as <- <-. split; [| intros r []].
    apply setOpen_invariant. exact Hinv.
  - (* Dismiss *)
    destruct (Dialog.isOpen (cells m)); [| discriminate].
    injection Hs as <- <-. split; [| intros r []].
    apply setOpen_invariant. exact Hinv.
  - (* ClickCancel *)
    destruct (controlsEnabled m) eqn:He; [| discriminate].
    injection Hs as <- <-. split; [| intros r []].
    apply setOpen_invariant. exact Hinv.
  - (* SelectFiles *)
    destruct (controlsEnabled m) eqn:He; [| discriminate].
    unfold handleFileSelect in Hs. injection Hs as <- <-.
    split.
    + apply idle_cells; auto. simpl.
      rewrite forallb_app, Hpdf, filter_pdf. reflexivity.
    + intros r Hr. destruct (_ =? _)%nat; destruct Hr.
  - (* RemoveFile *)
    destruct (controlsEnabled m && _) eqn:He; [| discriminate].
    apply andb_prop in He as [He _].
    injection Hs as <- <-. split; [| intros r []].
    apply idle_cells; auto. simpl. apply dropIndex_pdf. exact Hpdf.
  - (* ChooseType *)
    destruct (controlsEnabled m) eqn:He; [| discriminate].
    injection Hs as <- <-. split; [| intros r []].
    apply idle_cells; auto.
  - (* TypeName *)
    destruct (controlsEnabled m && _) eqn:He; [| discriminate].
    apply andb_prop in He as [He _].
    injection Hs as <- <-. split; [| intros r []].
    apply idle_cells; auto.
  - (* ClickUpload *)
    destruct (uploadEnabled m) eqn:He; [| discriminate].
    unfold uploadEnabled in He. apply andb_prop in He as [He Hne].
    destruct (controlsEnabled_idle m He Hph) as (Hu & Hpe & Hr & Hle).
    rewrite Hpe in Ht.
    unfold commit, Dialog.handleUpload in Hs.
    destruct (Dialog.files (cells m)) as [| f fs] eqn:Hf; [discriminate Hne |].
    destruct (nameMissing _ _) eqn:Hn.
    + injection Hs as <- <-. split; [| intros r []].
      simpl. unfold invariant, phase. simpl. rewrite Hf, Hu, Hpe, Hr.
      split; [exact Hpdf |]. split; [left; auto |]. auto.
    + injection Hs as <- <-. split.
      * simpl. unfold invariant, phase, currentRequest. simpl. rewrite Hpe, Hr.
        split; [exact Hpdf |].
        split.
        { right; left. repeat split; [discriminate | exact Hn | lia]. }
        split; [lia |]. split; [exists 0%Z; reflexivity |].
        rewrite Ht. reflexivity.
      * simpl. intros r [<- | []]. split; [discriminate | exact Hpdf].
  - (* Tick *)
    destruct (timers m) as [| n] eqn:Hn; [discriminate |].
    injection Hs as <- <-. split; [| intros r []].
    unfold invariant, phase, progressTick, currentRequest. simpl.
    destruct H10 as [q Hq].
    split; [exact Hpdf |].
    destruct (Z.leb_spec 90 (Dialog.uploadProgress (cells m))) as [Hge | Hlt].
    + split; [exact Hph |]. split; [exact H0 |].
      split; [exists q; exact Hq | congruence].
    + split.
      { destruct Hph as [(Hu & Hpe & Hr & Hle) |
                         [(Hu & Hpe & Hf & Hm & Hr & Hle) | (Hu & Hpe & Hr & Hp)]].
        - left. repeat split; auto. lia.
        - right. left. repeat split; auto. lia.
        - lia. }
      split; [lia |]. split; [exists (q + 1)%Z; lia | congruence].
  - (* UploadFulfilled *)
    destruct (nth_error (pending m) i) as [r |] eqn:Hi; [| discriminate].
    injection Hs as <- <-.
    destruct (settling_phase m i r Hph Hi)
      as (-> & _ & Hpe & Hu & Hf & Hm & Hr & Hle).
    split; [| intros r' []].
    simpl. unfold invariant, phase. simpl. rewrite Hpe, Hu, Hr. simpl.
    split; [exact Hpdf |].
    split; [right; right; auto |].
    split; [lia |]. split; [exists 10%Z; reflexivity |].
    rewrite Ht, Hpe. reflexivity.
  - (* UploadRejected *)
    destruct (nth_error (pending m) i) as [r |] eqn:Hi; [| discriminate].
    injection Hs as <- <-.
    destruct (settling_phase m i r Hph Hi)
      as (-> & _ & Hpe & Hu & Hf & Hm & Hr & Hle).
    split; [| intros r' []].
    simpl. unfold invariant, phase. simpl. rewrite Hpe, Hr. simpl.
    split; [exact Hpdf |].
    split; [left; repeat split; lia |].
    split; [lia |]. split; [exists 0%Z; reflexivity |].
    rewrite Ht, Hpe. simpl. lia.
  - (* ResetFires *)
    destruct (resets m) as [| n] eqn:Hn; [discriminate |].
    injection Hs as <- <-. split; [| intros r []].
    destruct Hph as [(_ & _ & Hr & _) | [(_ & _ & _ & _ & Hr & _) | (Hu & Hpe & Hr & Hp)]];
      try congruence.
    assert (n = 0) as -> by lia.
    unfold invariant, phase. simpl.
    split; [reflexivity |]. split; [left; repeat split; auto; lia |].
    split; [lia |]. split; [exists 0%Z; reflexivity | exact Ht].
Qed.

Lemma failures_cons e es : failures (e :: es) = failures [e] + failures es.
Proof. destruct e; reflexivity. Qed.

Lemma uploadsOf_app a b : uploadsOf (a ++ b) = uploadsOf a ++ uploadsOf b.
Proof.
  induction a as [| o a IH]; [reflexivity |].
  destruct o as [[] |]; simpl; rewrite ?IH; reflexivity.
Qed.

Lemma run_invariant m es out m' :
  run m es out m' -> forall k,
  invariant k m ->
  invariant (k + failures es) m' /\
  forall r, In r (uploadsOf out) -> wellFormed r.
Proof.
  induction 1 as [| m e m1 out1 es out2 m2 Hstep _ IH]; intros k Hinv.
  - simpl. rewrite Nat.add_0_r. split; [exact Hinv | intros r []].
  - destruct (step_invariant _ _ _ _ _ Hstep Hinv) as [H1 Hw1].
    destruct (IH _ H1) as [H2 Hw2].
    rewrite failures_cons, Nat.add_assoc. split; [exact H2 |].
    intros r Hr. rewrite uploadsOf_app in Hr.
    apply in_app_or in Hr as [Hr | Hr]; auto.
Qed.

Lemma initial_invariant : invariant 0 initial.
Proof.
  unfold invariant, phase, initial. simpl.
  split; [reflexivity |]. split; [left; repeat split; lia |].
  split; [lia |]. split; [exists 0%Z; reflexivity | reflexivity].
Qed.

Lemma upload_runEvents_run es : forall m m' out,
  runEvents es m = Some (m', out) -> run m es out m'.
Proof.
  induction es as [| e es IH]; intros m m' out H; simpl in H.
  - injection H as <- <-. constructor.
  - destruct (step e m) as [[m1 out1] |] eqn:Hs; [| discriminate].
    destruct (runEvents es m1) as [[m2 out2] |] eqn:Hr; [| discriminate].
    injection H as <- <-. econstructor; [exact Hs | apply IH; exact Hr].
Qed.

Lemma reached_invariant es m out :
  runEvents es initial = Some (m, out) ->
  invariant (failures es) m /\
  forall r, In r (uploadsOf out) -> wellFormed r.
Proof.
  intro H. apply upload_runEvents_run in H.
  exact (run_invariant _ _ _ _ H 0 initial_invariant).
Qed.

(** X1. Whatever the user does with the upload dialog, the files listed
    in it are PDF files (the others are dropped when they are chosen), and
    every request passed to [documentsAPI.upload] carries at least one
    file and PDF files only. *)
Theorem upload_requests_are_pdf (es : list Event) (m : Machine)
    (out : list Output) :
  runEvents es initial = Some (m, out) ->
  forallb isPdf (Dialog.files (cells m)) = true /\
  forall r, In r (uploadsOf out) ->
    req_files r <> [] /\ forallb isPdf (req_files r) = true.
Proof.
  intro H. destruct (reached_invariant _ _ _ H) as [(Hpdf & _) Hw].
  split; [exact Hpdf | exact Hw].
Qed.

(** X2. The upload dialog has at most one upload pending: the uploading
    flag is set exactly from the click on Upload until the promise is
    rejected or, after it is fulfilled, until the reset one second later;
    while a request is pending the Upload button does nothing. *)
Theorem upload_dialog_one_at_a_time (es : list Event) (m : Machine)
    (out : list Output) :
  runEvents es initial = Some (m, out) ->
  List.length (pending m) <= 1 /\
  (Dialog.uploading (cells m) = true <-> pending m <> [] \/ resets m = 1) /\
  (pending m <> [] -> step ClickUpload m = None) /\
  (resets m = 1 -> step ClickUpload m = None).
Proof.
  intro H. destruct (reached_invariant _ _ _ H) as [(_ & Hph & _) _].
  assert (Hbusy : Dialog.uploading (cells m) = true -> step ClickUpload m = None).
  { intro Hu. simpl. unfold uploadEnabled, controlsEnabled. rewrite Hu.
    rewrite andb_false_r. reflexivity. }
  destruct Hph as [(Hu & Hpe & Hr & _) |
                   [(Hu & Hpe & _ & _ & Hr & _) | (Hu & Hpe & Hr & _)]];
    rewrite Hpe; simpl.
  - split; [lia |]. split; [| split; [intros []; reflexivity | lia]].
    rewrite Hu, Hr. split; [discriminate | intros [[] | ]; [reflexivity | lia]].
  - split; [lia |]. split; [| split; auto].
    split; [left; discriminate | auto].
  - split; [lia |]. split; [| split; auto].
    split; [right; exact Hr | auto].
Qed.

(** X3. The progress shown by the upload dialog is one of 0, 10, ..., 100.
    The simulated progress stops at 90: the value 100 is shown exactly
    from the moment the server accepted the upload until the dialog
    resets. *)
Theorem upload_progress_is_bounded (es : list Event) (m : Machine)
    (out : list Output) :
  runEvents es initial = Some (m, out) ->
  (0 <= Dialog.uploadProgress (cells m) <= 100)%Z /\
  (10 | Dialog.uploadProgress (cells m))%Z /\
  (Dialog.uploadProgress (cells m) = 100%Z <-> resets m = 1) /\
  (pending m <> [] -> (Dialog.uploadProgress (cells m) <= 90)%Z).
Proof.
  intro H. destruct (reached_invariant _ _ _ H) as [(_ & Hph & H0 & H10 & _) _].
  split; [| split; [exact H10 |]].
  - destruct Hph as [(_ & _ & _ & Hle) |
                     [(_ & _ & _ & _ & _ & Hle) | (_ & _ & _ & Hp)]]; lia.
  - destruct Hph as [(_ & Hpe & Hr & Hle) |
                     [(_ & Hpe & _ & _ & Hr & Hle) | (_ & Hpe & Hr & Hp)]].
    + split; [split; lia | intros _; exact Hle].
    + split; [split; lia | intros _; exact Hle].
    + split; [split; auto | intro Hne; contradiction].
Qed.

(** X4. The progress interval of an upload is cleared only when the
    upload succeeds: each failed upload leaves its interval running. The
    intervals that run are those of the pending upload and of every upload
    that failed before, so after a failure the progress keeps ticking
    although nothing is uploaded. *)
Theorem failed_upload_leaves_timer (es : list Event) (m : Machine)
    (out : list Output) :
  runEvents es initial = Some (m, out) ->
  timers m = List.length (pending m) + failures es /\
  (failures es = 0 -> pending m = [] -> step Tick m = None) /\
  (failures es <> 0 -> exists m', step Tick m = Some (m', [])).
Proof.
  intro H. destruct (reached_invariant _ _ _ H) as [(_ & _ & _ & _ & Ht) _].
  split; [exact Ht |]. split.
  - intros Hf Hpe. rewrite Hf, Hpe in Ht. simpl. simpl in Ht. rewrite Ht.
    reflexivity.
  - intro Hf. simpl. destruct (timers m) as [| n]; [lia |].
    eexists. reflexivity.
Qed.

(** X5. A failed upload keeps the selection: after the promise is
    rejected the dialog still lists the same files for the same
    collection, the failure is reported, and, if the dialog is still open,
    a click on Upload issues the same request again. *)
Theorem failed_upload_can_be_retried (es : list Event) (m m1 : Machine)
    (out out1 : list Output) (i : nat) :
  runEvents es initial = Some (m, out) ->
  step (UploadRejected i) m = Some (m1, out1) ->
  out1 = [Eff (Toast UploadFailed)] /\
  Dialog.files (cells m1) = Dialog.files (cells m) /\
  Dialog.collectionType (cells m1) = Dialog.collectionType (cells m) /\
  Dialog.collectionName (cells m1) = Dialog.collectionName (cells m) /\
  Dialog.uploading (cells m1) = false /\
  pending m1 = [] /\
  (Dialog.isOpen (cells m1) = true ->
   exists m2 out2, step ClickUpload m1 = Some (m2, out2) /\
                   uploadsOf out2 = pending m).
Proof.
  intros H Hs. destruct (reached_invariant _ _ _ H) as [(_ & Hph & _) _].
  simpl in Hs.
  destruct (nth_error (pending m) i) as [r |] eqn:Hi; [| discriminate].
  destruct (settling_phase m i r Hph Hi)
    as (-> & _ & Hpe & Hu & Hf & Hm & Hr & Hle).
  injection Hs as <- <-. rewrite Hpe. simpl.
  repeat (split; [reflexivity |]).
  intro Ho. unfold uploadEnabled, controlsEnabled, commit. simpl.
  rewrite Ho. unfold Dialog.handleUpload. simpl.
  destruct (Dialog.files (cells m)) as [| f fs] eqn:Hfs; [contradiction |].
  simpl. rewrite Hm. eexists. eexists. split; [reflexivity |].
  simpl. unfold currentRequest. rewrite Hfs. reflexivity.
Qed.

End UploadDialogFacts.

(** ** The documents page *)

Section DocumentsPageFacts.

Import Js FileUpload DocumentsPage.

Lemma documents_step_invariant e m m' out :
  step e m = Some (m', out) -> invariant m -> invariant m'.
Proof.
  intros Hs [Hph Hsel].
  destruct e; simpl in Hs.
  - (* PickFiles *)
    destruct (Documents.uploading (cells m)) eqn:Hu; [discriminate |].
    injection Hs as <- <-.
    destruct Hph as [(_ & Hpe) | (Hu' & _)]; [| congruence].
    unfold invariant, handleFileSelect.
    destruct files as [| f fs]; simpl.
    + split; [left; auto | exact Hsel].
    + split; [left; auto | discriminate].
  - (* ChooseType *)
    destruct (Documents.uploadDialogOpen (cells m)) eqn:Ho; [| discriminate].
    injection Hs as <- <-. unfold invariant. simpl. rewrite Ho.
    split; [| auto].
    destruct Hph as [H | (_ & Hc & _)]; [left; exact H | congruence].
  - (* TypeName *)
    destruct (Documents.uploadDialogOpen (cells m)) eqn:Ho; [| discriminate].
    destruct (isIsolated _); [| discriminate].
    injection Hs as <- <-. unfold invariant. simpl. rewrite Ho.
    split; [| auto].
    destruct Hph as [H | (_ & Hc & _)]; [left; exact H | congruence].
  - (* CloseDialog *)
    destruct (Documents.uploadDialogOpen (cells m)) eqn:Ho; [| discriminate].
    injection Hs as <- <-. unfold invariant. simpl.
    split; [| discriminate].
    destruct Hph as [H | (_ & Hc & _)]; [left; exact H | congruence].
  - (* ClickUpload *)
    destruct (Documents.uploadDialogOpen (cells m)) eqn:Ho; [| discriminate].
    destruct (nameMissing _ _) eqn:Hn; [discriminate |]. simpl in Hs.
    destruct Hph as [(Hu & Hpe) | (_ & Hc & _)]; [| congruence].
    unfold Documents.handleUpload in Hs. rewrite Hn in Hs.
    destruct (Documents.selectedFiles (cells m)) as [| f fs] eqn:Hf.
    + exfalso. apply Hsel; reflexivity.
    + injection Hs as <- <-. unfold invariant. simpl. rewrite Hpe.
      split; [right; repeat split; eexists; reflexivity | discriminate].
  - (* UploadFulfilled *)
    destruct (nth_error (pending m) i) as [r |] eqn:Hi; [| discriminate].
    injection Hs as <- <-.
    destruct Hph as [(_ & Hpe) | (Hu & Hc & r' & Hpe)]; rewrite Hpe in Hi.
    + destruct i; discriminate Hi.
    + destruct i as [| [| i]]; simpl in Hi; try discriminate Hi.
      unfold invariant. simpl. rewrite Hpe, Hc. simpl.
      split; [left; auto | discriminate].
  - (* UploadRejected *)
    destruct (nth_error (pending m) i) as [r |] eqn:Hi; [| discriminate].
    injection Hs as <- <-.
    destruct Hph as [(_ & Hpe) | (Hu & Hc & r' & Hpe)]; rewrite Hpe in Hi.
    + destruct i; discriminate Hi.
    + destruct i as [| [| i]]; simpl in Hi; try discriminate Hi.
      unfold invariant. simpl. rewrite Hpe, Hc. simpl.
      split; [left; auto | discriminate].
Qed.

Lemma documents_run_invariant es : forall m m' out,
  runEvents es m = Some (m', out) -> invariant m -> invariant m'.
Proof.
  induction es as [| e es IH]; intros m m' out H Hinv; simpl in H.
  - injection H as <- <-. exact Hinv.
  - destruct (step e m) as [[m1 out1] |] eqn:Hs; [| discriminate].
    destruct (runEvents es m1) as [[m2 out2] |] eqn:Hr; [| discriminate].
    injection H as <- <-.
    eapply IH; [exact Hr |]. eapply documents_step_invariant; eassumption.
Qed.

Lemma documents_initial_invariant : invariant initial.
Proof.
  unfold invariant, initial. simpl. split; [left; auto | discriminate].
Qed.

(** X6. On the documents page the two guards at the head of
    [handleUpload] never fire from the Upload button: whenever the button
    can be clicked, the click issues exactly one request and nothing else,
    and the request carries the selected files as they were chosen (any
    file type), the collection type and, for an isolated collection, the
    name. The click closes the dialog and sets the uploading flag. *)
Theorem documents_click_always_uploads (es : list Event) (m m1 : Machine)
    (out out1 : list Effect) :
  runEvents es initial = Some (m, out) ->
  step ClickUpload m = Some (m1, out1) ->
  Documents.selectedFiles (cells m) <> [] /\
  out1 = [Upload (mkUploadRequest (Documents.selectedFiles (cells m))
                    (Documents.collectionType (cells m))
                    (nameArgument (Documents.collectionType (cells m))
                       (Documents.collectionName (cells m))))] /\
  pending m = [] /\ pending m1 = uploadsOf out1 /\
  Documents.uploading (cells m1) = true /\
  Documents.uploadDialogOpen (cells m1) = false.
Proof.
  intros H Hs.
  destruct (documents_run_invariant _ _ _ _ H documents_initial_invariant)
    as [Hph Hsel].
  simpl in Hs.
  destruct (Documents.uploadDialogOpen (cells m)) eqn:Ho; [| discriminate].
  destruct (nameMissing _ _) eqn:Hn; [discriminate |]. simpl in Hs.
  destruct Hph as [(Hu & Hpe) | (_ & Hc & _)]; [| congruence].
  unfold Documents.handleUpload in Hs. rewrite Hn in Hs.
  specialize (Hsel eq_refl).
  destruct (Documents.selectedFiles (cells m)) as [| f fs] eqn:Hf;
    [contradiction |].
  injection Hs as <- <-. rewrite Hpe. simpl.
  repeat split. discriminate.
Qed.

(** X7. The documents page has at most one upload pending, and the
    uploading flag is set exactly while it is. While it is pending the
    dialog is closed and the file chooser is disabled, so neither a
    selection nor a click on Upload can happen. *)
Theorem documents_one_upload_at_a_time (es : list Event) (m : Machine)
    (out : list Effect) :
  runEvents es initial = Some (m, out) ->
  List.length (pending m) <= 1 /\
  (Documents.uploading (cells m) = true <-> pending m <> []) /\
  (pending m <> [] ->
   Documents.uploadDialogOpen (cells m) = false /\
   step ClickUpload m = None /\
   forall files, step (PickFiles files) m = None).
Proof.
  intro H.
  destruct (documents_run_invariant _ _ _ _ H documents_initial_invariant)
    as [[(Hu & Hpe) | (Hu & Hc & r & Hpe)] _]; rewrite Hpe; simpl.
  - split; [lia |]. split; [| intros []; reflexivity].
    rewrite Hu. split; [discriminate | intros []; reflexivity].
  - split; [lia |]. split; [split; [discriminate | auto] |].
    intros _. rewrite Hc, Hu. auto.
Qed.

(** X8. On the documents page an upload that settles, fulfilled or
    rejected, runs the [finally] block: the selection is emptied, the
    collection is set back to the main corpus with an empty name, and the
    flag is cleared. The dialog is closed then, so, unlike in the upload
    dialog of the chat, a failed upload cannot be repeated without
    choosing the files again. *)
Theorem documents_upload_settles_clean (es : list Event) (m m1 : Machine)
    (out out1 : list Effect) (e : Event) :
  runEvents es initial = Some (m, out) ->
  (exists i, e = UploadFulfilled i \/ e = UploadRejected i) ->
  step e m = Some (m1, out1) ->
  cells m1 = Documents.mkState false false main [] [] /\
  pending m1 = [] /\
  uploadsOf out1 = [] /\
  step ClickUpload m1 = None.
Proof.
  intros H (i & He) Hs.
  destruct (documents_run_invariant _ _ _ _ H documents_initial_invariant)
    as [Hph _].
  assert (Hset : forall r, nth_error (pending m) i = Some r ->
            Documents.uploadDialogOpen (cells m) = false /\
            ChatArea.removeAt i (pending m) = []).
  { intros r Hi.
    destruct Hph as [(_ & Hpe) | (Hu & Hc & r' & Hpe)]; rewrite Hpe in *.
    - destruct i; discriminate Hi.
    - destruct i as [| [| i]]; simpl in Hi; try discriminate Hi.
      split; [exact Hc | reflexivity]. }
  destruct He as [-> | ->]; simpl in Hs;
    (destruct (nth_error (pending m) i) as [r |] eqn:Hi; [| discriminate]);
    destruct (Hset r eq_refl) as [Hc Hrm];
    injection Hs as <- <-; simpl; unfold Documents.settle;
    rewrite Hc, Hrm; repeat split.
Qed.

End DocumentsPageFacts.

(** ** The chat area: queries, sessions and the mode dialog *)

Section ChatTurnFacts.

Import Js ChatArea ChatTurns.
Local Open Scope Z_scope.

Lemma removeAt_length {A} (l : list A) : forall i x,
  nth_error l i = Some x ->
  S (List.length (removeAt i l)) = List.length l.
Proof.
  induction l as [| a l IH]; intros [| i] x H; simpl in *; try discriminate.
  - reflexivity.
  - rewrite (IH i x H). reflexivity.
Qed.

Lemma queriesOf_app a b : queriesOf (a ++ b) = queriesOf a ++ queriesOf b.
Proof.
  induction a as [| o a IH]; [reflexivity |].
  destruct o; simpl; rewrite ?IH; reflexivity.
Qed.

Lemma modeDialogEffect_cells t :
  sessionId (modeDialogEffect t) = sessionId t /\
  messages (modeDialogEffect t) = messages t.
Proof.
  unfold modeDialogEffect. destruct (_ && _); split; reflexivity.
Qed.

Lemma sessionEffect_cells t t' out :
  sessionEffect t = (t', out) ->
  sessionId t' = sessionId t /\ modeDialogOpen t' = modeDialogOpen t /\
  queriesOf out = [] /\
  (messages t' = messages t \/
   (hasSession (sessionId t) = false /\ messages t' = [])).
Proof.
  unfold sessionEffect, hasSession.
  destruct (sessionId t) as [v |] eqn:Hs; [destruct (truthy v) eqn:Hv |];
    intro H; injection H as <- <-; simpl; rewrite ?Hs; simpl; rewrite ?Hv;
    repeat split; auto.
Qed.

(** The effects neither change the session nor issue a query. *)
Lemma afterRender_session old new s out :
  afterRender old new = (s, out) ->
  sessionId s = sessionId new /\ queriesOf out = [].
Proof.
  unfold afterRender.
  set (s1 := if negb (sameSession (sessionId old) (sessionId new)) ||
                negb (sameLength (messages old) (messages new))
             then modeDialogEffect new else new).
  destruct (if negb (sameSession (sessionId old) (sessionId new))
            then sessionEffect s1 else (s1, [])) as [s2 out2] eqn:H2.
  intro H. injection H as <- <-.
  assert (H1 : sessionId s1 = sessionId new).
  { subst s1. destruct (_ || _); [apply modeDialogEffect_cells | reflexivity]. }
  assert (H3 : sessionId s2 = sessionId s1 /\ queriesOf out2 = []).
  { destruct (negb _).
    - apply sessionEffect_cells in H2 as (Hs & _ & Hq & _). auto.
    - injection H2 as <- <-. auto. }
  destruct H3 as [H3 Hq]. split; [| exact Hq].
  destruct (sameLength (messages s1) (messages s2)); [congruence |].
  destruct (modeDialogEffect_cells s2) as [-> _]. congruence.
Qed.

Lemma orAbsent_proper sid : properSession (orAbsent sid).
Proof.
  unfold orAbsent, hasSession. destruct sid as [v |]; [| left; reflexivity].
  destruct (truthy v) eqn:Hv; [right; exists v; auto | left; reflexivity].
Qed.

Lemma hasSession_proper sid : hasSession sid = true -> properSession sid.
Proof.
  destruct sid as [v |]; simpl; [| discriminate].
  intro H. right. exists v. auto.
Qed.

Lemma step_turn e s s' out :
  step e s = Some (s', out) ->
  properSession (sessionId s) ->
  properSession (sessionId s') /\
  (forall r, In r (queriesOf out) -> wellFormed r) /\
  (List.length (queriesOf out) + List.length (inflight s) =
   (if settles e then 1 else 0) + List.length (inflight s'))%nat.
Proof.
  unfold step. destruct (handler e s) as [[s1 out1] |] eqn:Hh; [| discriminate].
  destruct (afterRender s s1) as [s2 out2] eqn:Ha.
  intro H. injection H as <- <-. intro Hp.
  pose proof (afterRender_cells _ _ Ha) as (_ & Hi & _).
  apply afterRender_session in Ha as (Hs & Hq).
  rewrite queriesOf_app, Hq, app_nil_r, Hs, Hi. clear Hs Hi Hq s2 out2.
  destruct e; simpl in Hh; try (injection Hh as <- <-; simpl;
    (split; [first [exact Hp | apply orAbsent_proper] |]);
    (split; [intros r [] | reflexivity])).
  - (* Send *)
    unfold handleSend in Hh.
    destruct (isBlank (message s)) eqn:Hb; simpl in Hh;
      [| destruct (loading s)]; injection Hh as <- <-; simpl;
      (split; [exact Hp |]);
      try (split; [intros r [] | reflexivity]).
    split.
    + intros r [<- | []]. unfold wellFormed, requestOf. simpl.
      split; [exact Hb |]. split; [reflexivity | apply orAbsent_proper].
    + rewrite length_app. simpl. lia.
  - (* QueryFulfilled *)
    destruct (nth_error (inflight s) i) as [req |] eqn:Hn; [| discriminate].
    injection Hh as <- <-. unfold queryFulfilled.
    pose proof (removeAt_length _ _ _ Hn) as Hlen.
    destruct (negb (hasSession (session_id req)) && hasSession (resp_session_id r))
      eqn:Hc; simpl.
    + apply andb_prop in Hc as [_ Hc].
      split; [apply hasSession_proper; exact Hc |].
      split; [intros r' [] | lia].
    + split; [exact Hp |]. split; [intros r' [] | lia].
  - (* QueryRejected *)
    destruct (nth_error (inflight s) i) as [req |] eqn:Hn; [| discriminate].
    injection Hh as <- <-.
    pose proof (removeAt_length _ _ _ Hn) as Hlen. simpl.
    split; [exact Hp |]. split; [intros r' [] | lia].
  - (* SelectMode *)
    destruct (modeDialogOpen s); [| discriminate].
    injection Hh as <- <-. simpl.
    split; [exact Hp |]. split; [intros r' [] | reflexivity].
Qed.

Lemma settled_cons e es :
  settled (e :: es) = ((if settles e then 1 else 0) + settled es)%nat.
Proof. unfold settled. simpl. destruct (settles e); reflexivity. Qed.

Lemma run_turns s es out s' :
  run s es out s' ->
  properSession (sessionId s) ->
  properSession (sessionId s') /\
  (forall r, In r (queriesOf out) -> wellFormed r) /\
  (List.length (queriesOf out) + List.length (inflight s) =
   settled es + List.length (inflight s'))%nat.
Proof.
  induction 1 as [| s e s1 out1 es out2 s2 Hstep _ IH]; intro Hp.
  - split; [exact Hp |]. split; [intros r [] | reflexivity].
  - destruct (step_turn _ _ _ _ Hstep Hp) as (Hp1 & Hw1 & Hc1).
    destruct (IH Hp1) as (Hp2 & Hw2 & Hc2).
    split; [exact Hp2 |]. split.
    + intros r Hr. rewrite queriesOf_app in Hr.
      apply in_app_or in Hr as [Hr | Hr]; auto.
    + rewrite queriesOf_app, length_app, settled_cons. lia.
Qed.

(** X9. Every call of [chatAPI.query] is well formed and accounted for.
    In every run of the chat area from its mounted state, each query that
    was issued carries a text that is not blank, [top_k] 15 and a session
    identifier that is absent or a non-empty string; the session the
    component holds is absent or non-empty as well; and the number of
    queries issued equals the number of query promises settled plus the
    number still pending. *)
Theorem queries_are_well_formed (es : list Event) (out : list Output)
    (s : State) :
  run mounted es out s ->
  properSession (sessionId s) /\
  (forall r, In r (queriesOf out) ->
     isBlank (query r) = false /\ top_k r = 15 /\ properSession (session_id r)) /\
  List.length (queriesOf out) = (settled es + List.length (inflight s))%nat.
Proof.
  intro H.
  destruct (run_turns _ _ _ _ H) as (Hp & Hw & Hc).
  - left. reflexivity.
  - split; [exact Hp |]. split; [exact Hw |].
    simpl in Hc. lia.
Qed.


Lemma handler_dialog e s s1 out :
  handler e s = Some (s1, out) ->
  modeDialogOpen s = false -> modeDialogOpen s1 = false.
Proof.
  intros H Ho. destruct e; simpl in H;
    try (injection H as <- <-; simpl; first [exact Ho | reflexivity]).
  - unfold handleSend in H.
    destruct (isBlank (message s) || loading s); injection H as <- <-;
      simpl; exact Ho.
  - destruct (nth_error (inflight s) i); [| discriminate].
    injection H as <- <-. unfold queryFulfilled.
    destruct (negb _ && _); simpl; exact Ho.
  - destruct (nth_error (inflight s) i); [| discriminate].
    injection H as <- <-. simpl. exact Ho.
  - rewrite Ho in H. discriminate.
Qed.

Lemma modeDialogEffect_opens t :
  modeDialogOpen t = false -> modeDialogOpen (modeDialogEffect t) = true ->
  newChat t.
Proof.
  unfold modeDialogEffect, newChat. intros Ho.
  destruct (hasSession (sessionId t)); simpl; [congruence |].
  destruct (messages t); simpl; [auto | congruence].
Qed.

Lemma newChat_sessionEffect t t' out :
  sessionEffect t = (t', out) -> newChat t -> newChat t'.
Proof.
  intros H [Hs Hm]. apply sessionEffect_cells in H as (Hs' & _ & _ & Hm').
  unfold newChat. rewrite Hs'. split; [exact Hs |].
  destruct Hm' as [-> | [_ ->]]; [exact Hm | reflexivity].
Qed.

Lemma afterRender_opens old new s out :
  afterRender old new = (s, out) ->
  modeDialogOpen new = false -> modeDialogOpen s = true -> newChat s.
Proof.
  unfold afterRender.
  set (s1 := if negb (sameSession (sessionId old) (sessionId new)) ||
                negb (sameLength (messages old) (messages new))
             then modeDialogEffect new else new).
  destruct (if negb (sameSession (sessionId old) (sessionId new))
            then sessionEffect s1 else (s1, [])) as [s2 out2] eqn:H2.
  intro H. injection H as <- <-. intros Hn Ho.
  destruct (modeDialogOpen s1) eqn:Ho1.
  - (* opened by the first effect *)
    assert (Hnew : newChat s1).
    { subst s1. destruct (_ || _).
      - destruct (modeDialogEffect_cells new) as [Hs Hm].
        pose proof (modeDialogEffect_opens new Hn Ho1) as [Ha Hb].
        unfold newChat. rewrite Hs, Hm. auto.
      - congruence. }
    assert (Hnew2 : newChat s2).
    { destruct (negb _).
      - eapply newChat_sessionEffect; eassumption.
      - injection H2 as <- <-. exact Hnew. }
    destruct (sameLength (messages s1) (messages s2)); [exact Hnew2 |].
    destruct (modeDialogEffect_cells s2) as [Hs Hm].
    destruct Hnew2 as [Ha Hb]. unfold newChat. rewrite Hs, Hm. auto.
  - (* opened by the last effect *)
    assert (Ho2 : modeDialogOpen s2 = false).
    { destruct (negb _).
      - apply sessionEffect_cells in H2 as (_ & -> & _ & _). exact Ho1.
      - injection H2 as <- <-. exact Ho1. }
    destruct (sameLength (messages s1) (messages s2)); [congruence |].
    destruct (modeDialogEffect_cells s2) as [Hs Hm].
    pose proof (modeDialogEffect_opens s2 Ho2 Ho) as [Ha Hb].
    unfold newChat. rewrite Hs, Hm. auto.
Qed.

(** X11. The mode dialog opens by itself only on a new chat. Whenever an
    event takes the chat area from a state with the dialog closed to a
    state with the dialog open, the new state has no session and shows no
    message; and the event is the choice of a session or the arrival of a
    stored conversation, the only events that can empty the chat: no
    typing, sending, answer or dialog event opens the mode dialog. *)
Theorem mode_dialog_opens_on_new_chat (e : Event) (s s' : State)
    (out : list Output) :
  step e s = Some (s', out) ->
  modeDialogOpen s = false ->
  modeDialogOpen s' = true ->
  newChat s' /\ keepsHistory e = false.
Proof.
  unfold step. destruct (handler e s) as [[s1 out1] |] eqn:Hh; [| discriminate].
  destruct (afterRender s s1) as [s2 out2] eqn:Ha.
  intro H. injection H as <- <-. intros Hc Ho.
  pose proof (handler_dialog _ _ _ _ Hh Hc) as Hc1.
  split; [eapply afterRender_opens; eassumption |].
  destruct (keepsHistory e) eqn:Hk; [| reflexivity]. exfalso.
  (* an event that keeps the history keeps the session and the number of
     messages, or appends a message *)
  assert (Hsame : (sessionId s1 = sessionId s /\
                   List.length (messages s1) = List.length (messages s)) \/
                  messages s1 <> []).
  { destruct e; simpl in Hh; try discriminate Hk;
      try (injection Hh as <- <-; left; split; reflexivity).
    - unfold handleSend in Hh.
      destruct (isBlank (message s) || loading s); injection Hh as <- <-.
      + left. split; reflexivity.
      + right. simpl. intro H. apply app_eq_nil in H as [_ H]. discriminate.
    - destruct (nth_error (inflight s) i); [| discriminate].
      injection Hh as <- <-. right. unfold queryFulfilled.
      destruct (negb _ && _); simpl; intro H;
        apply app_eq_nil in H as [_ H]; discriminate.
    - destruct (nth_error (inflight s) i); [| discriminate].
      injection Hh as <- <-. right. simpl. intro H.
      apply app_eq_nil in H as [_ H]. discriminate.
    - destruct (modeDialogOpen s); [| discriminate].
      injection Hh as <- <-. left. split; reflexivity. }
  destruct Hsame as [[Hs Hl] | Hne].
  - rewrite (afterRender_idle s s1 Hs Hl) in Ha. injection Ha as <- <-.
    congruence.
  - pose proof (afterRender_opens _ _ _ _ Ha Hc1 Ho) as [Hx Hy].
    (* the session effect alone empties the messages, and it runs only
       when the session changed, which these events do only by adopting a
       session *)
    unfold afterRender in Ha.
    assert (Hm : modeDialogEffect s1 = s1).
    { unfold modeDialogEffect. destruct (messages s1); [congruence |].
      simpl. rewrite andb_false_r. reflexivity. }
    assert (Hsess : sessionId s1 = sessionId s \/ hasSession (sessionId s1) = true).
    { destruct e; simpl in Hh; try discriminate Hk;
        try (injection Hh as <- <-; left; reflexivity).
      - unfold handleSend in Hh.
        destruct (isBlank (message s) || loading s); injection Hh as <- <-;
          left; reflexivity.
      - destruct (nth_error (inflight s) i); [| discriminate].
        injection Hh as <- <-. unfold queryFulfilled.
        destruct (negb _ && hasSession (resp_session_id r)) eqn:Hb; simpl.
        + right. apply andb_prop in Hb as [_ Hb]. exact Hb.
        + left. reflexivity.
      - destruct (nth_error (inflight s) i); [| discriminate].
        injection Hh as <- <-. left. reflexivity.
      - destruct (modeDialogOpen s); [| discriminate].
        injection Hh as <- <-. left. reflexivity. }
    assert (Hmsg : messages s2 = messages s1).
    { eapply afterRender_messages.
      - unfold afterRender. exact Ha.
      - destruct Hsess as [-> | Hs]; [left; apply sameSession_refl | right; exact Hs]. }
    rewrite Hmsg in Hy. contradiction.
Qed.

Lemma Js_eqb_true a : forall b, Js.eqb a b = true -> a = b.
Proof.
  induction a as [| x a IH]; intros [| y b] H; simpl in H;
    try discriminate; [reflexivity |].
  apply andb_prop in H as [Hxy Hab].
  apply Ascii.eqb_eq in Hxy. subst y. f_equal. apply IH. exact Hab.
Qed.

Lemma loadedFrom_nth l : forall index n m,
  nth_error l n = Some m ->
  nth_error (loadedFrom index l) n =
    Some (mkMessage (index + Z.of_nat n) (roleOf m) (api_content m)
            (api_timestamp m)
            (Some (match api_citations m with Some cs => cs | None => [] end))).
Proof.
  induction l as [| a l IH]; intros index [| n] m H; simpl in H; try discriminate.
  - injection H as <-. simpl. rewrite Z.add_0_r. reflexivity.
  - simpl loadedFrom. simpl nth_error. rewrite (IH (index + 1) n m H).
    rewrite Nat2Z.inj_succ.
    replace (index + 1 + Z.of_nat n) with (index + Z.succ (Z.of_nat n)) by lia.
    reflexivity.
Qed.

Lemma loadedFrom_length l : forall index,
  List.length (loadedFrom index l) = List.length l.
Proof.
  induction l as [| a l IH]; intro index; simpl; [| rewrite IH]; reflexivity.
Qed.

(** X12. A stored conversation is shown as it is stored: [loadSession]
    builds one message for each stored message, in the same order, with
    the position in the list as identifier, the stored text and time, and
    the stored citations, or the empty list when the stored message has
    none; a message is a user message exactly when its role is the string
    [user], and every other role, whatever it is, is shown as the
    assistant. An absent list gives no message. *)
Theorem loaded_messages_mirror_session (l : list ApiMessage) :
  loadedMessages None = [] /\
  List.length (loadedMessages (Some l)) = List.length l /\
  (forall n m, nth_error l n = Some m ->
     exists msg, nth_error (loadedMessages (Some l)) n = Some msg /\
       id msg = Z.of_nat n /\
       content msg = api_content m /\
       timestamp msg = api_timestamp m /\
       (type msg = user <-> role m = str "user") /\
       citations msg =
         Some (match api_citations m with Some cs => cs | None => [] end)) /\
  NoDup (map id (loadedMessages (Some l))).
Proof.
  split; [reflexivity |]. split; [apply loadedFrom_length |]. split.
  - intros n m H. eexists. split; [apply loadedFrom_nth; exact H |]. simpl.
    split; [reflexivity |]. split; [reflexivity |]. split; [reflexivity |].
    split.
    + unfold roleOf. destruct (Js.eqb (role m) (str "user")) eqn:He.
      * split; [intros _; apply Js_eqb_true; exact He | reflexivity].
      * split; [discriminate |]. intro Hr. rewrite Hr, Js_eqb_refl in He.
        discriminate.
    + reflexivity.
  - unfold loadedMessages.
    assert (Hids : forall index,
              map id (loadedFrom index l) =
              map (fun n => index + Z.of_nat n) (seq 0 (List.length l))).
    { induction l as [| a l' IH]; intro index; [reflexivity |].
      simpl. rewrite Z.add_0_r. f_equal. rewrite IH.
      rewrite <- seq_shift, map_map. apply map_ext. intro n.
      rewrite Nat2Z.inj_succ. lia. }
    rewrite Hids. apply Finite.Injective_map_NoDup; [| apply seq_NoDup].
    intros a b Hab. lia.
Qed.

End ChatTurnFacts.

(** ** The displayed text of a message *)

Section DisplayedTextFacts.

Import Js Regex ChatMessage DisplayedText.

Lemma subsequence_nil b : subsequence [] b.
Proof. induction b; constructor; assumption. Qed.

Lemma subsequence_refl a : subsequence a a.
Proof. induction a; [constructor | apply sub_keep; assumption]. Qed.

Lemma subsequence_app a1 b1 a2 b2 :
  subsequence a1 b1 -> subsequence a2 b2 -> subsequence (a1 ++ a2) (b1 ++ b2).
Proof.
  intros H1 H2. induction H1; simpl;
    [exact H2 | apply sub_skip | apply sub_keep]; assumption.
Qed.

Lemma subsequence_trans a b c :
  subsequence a b -> subsequence b c -> subsequence a c.
Proof.
  intros Hab Hbc. revert a Hab.
  induction Hbc as [| x b c Hbc IH | x b c Hbc IH]; intros a Hab.
  - exact Hab.
  - constructor. apply IH. exact Hab.
  - inversion Hab; subst.
    + apply sub_skip. apply IH. assumption.
    + apply sub_keep. apply IH. assumption.
Qed.

Lemma subsequence_rev a b : subsequence a b -> subsequence (rev a) (rev b).
Proof.
  induction 1; simpl.
  - constructor.
  - rewrite <- (app_nil_r (rev a)).
    apply subsequence_app; [assumption | apply subsequence_nil].
  - apply subsequence_app; [assumption | apply subsequence_refl].
Qed.

Lemma subsequence_length a b :
  subsequence a b -> List.length a <= List.length b.
Proof. induction 1; simpl; lia. Qed.

Lemma trimStart_subsequence s : subsequence (trimStart s) s.
Proof.
  induction s as [| c s IH]; simpl; [constructor |].
  destruct (isSpace c); [apply sub_skip; exact IH | apply subsequence_refl].
Qed.

Lemma trim_subsequence s : subsequence (trim s) s.
Proof.
  unfold trim, trimEnd.
  apply subsequence_trans with (b := trimStart s); [| apply trimStart_subsequence].
  rewrite <- (rev_involutive (trimStart s)) at 2.
  apply subsequence_rev, trimStart_subsequence.
Qed.

Lemma stripBlocksFuel_subsequence fuel : forall s,
  subsequence (stripBlocksFuel fuel s) s.
Proof.
  induction fuel as [| fuel IH]; intro s; simpl; [apply subsequence_refl |].
  destruct (firstBlock s) as [[[before body] after] |] eqn:Hb;
    [| apply subsequence_refl].
  rewrite (firstBlock_split _ Hb) at 1.
  apply subsequence_app; [apply subsequence_refl |].
  rewrite !app_assoc. rewrite <- (app_nil_l (stripBlocksFuel fuel after)).
  apply subsequence_app; [apply subsequence_nil | apply IH].
Qed.

Lemma stripBlocks_short s :
  hasBlock s = true -> List.length (stripBlocks s) + 28 <= List.length s.
Proof.
  unfold hasBlock. rewrite stripBlocks_unfold.
  destruct (firstBlock s) as [[[before body] after] |] eqn:Hb; [| discriminate].
  intros _. rewrite (firstBlock_split _ Hb) at 1.
  pose proof (subsequence_length _ _
                (stripBlocksFuel_subsequence (List.length after) after)) as Hl.
  fold (stripBlocks after) in Hl.
  rewrite !length_app, length_START, length_END. lia.
Qed.

Lemma includes_found pat x : forall y, includes pat (x ++ pat ++ y) = true.
Proof.
  intro y. destruct (includes pat (x ++ pat ++ y)) eqn:H; [reflexivity |].
  apply includes_cut in H.
  destruct (cut_found pat x y) as (b & z & Hc). congruence.
Qed.

(** X13. The displayed text only leaves characters out. For every
    content, [displayContent] is the content with some characters
    deleted, nothing added or reordered; it is never longer than the
    content, and when the content holds a delimited flashcard block it is
    shorter by at least the 28 characters of the two markers. *)
Theorem displayed_text_only_leaves_out (content : jsstring) :
  subsequence (displayContent content) content /\
  List.length (displayContent content) <= List.length content /\
  (hasBlock content = true ->
   List.length (displayContent content) + 28 <= List.length content).
Proof.
  assert (Hs : subsequence (displayContent content) content).
  { unfold displayContent. rewrite removeAll_stripBlocks.
    apply subsequence_trans with (b := stripBlocks content);
      [apply trim_subsequence | apply stripBlocksFuel_subsequence]. }
  split; [exact Hs |]. split; [apply subsequence_length; exact Hs |].
  intro Hb. unfold displayContent. rewrite removeAll_stripBlocks.
  pose proof (subsequence_length _ _ (trim_subsequence (stripBlocks content))).
  pose proof (stripBlocks_short _ Hb). lia.
Qed.

(** X14. Text is removed only where the flashcard viewer can stand in for
    it, and the viewer needs a session. Whenever the content holds a
    delimited block (so that text is removed), [hasFlashcards] is true;
    the viewer is rendered exactly when [hasFlashcards] is true and the
    session identifier is a non-empty string. Hence a message with a
    block that is rendered without a session loses the block and shows no
    viewer. *)
Theorem viewer_needs_session (content : jsstring) (sessionId : option jsstring) :
  (hasBlock content = true -> hasFlashcards content = true) /\
  (showsFlashcardViewer content sessionId = true <->
   hasFlashcards content = true /\
   exists v, sessionId = Some v /\ v <> []) /\
  (hasBlock content = true ->
   showsFlashcardViewer content None = false /\
   showsFlashcardViewer content (Some []) = false /\
   List.length (displayContent content) < List.length content).
Proof.
  assert (H1 : hasBlock content = true -> hasFlashcards content = true).
  { intro Hb. apply hasBlock_spec in Hb as (b & bd & a & ->).
    unfold hasFlashcards. rewrite includes_found.
    replace (b ++ FLASHCARD_START ++ bd ++ FLASHCARD_END ++ a)
      with ((b ++ FLASHCARD_START ++ bd) ++ FLASHCARD_END ++ a)
      by (rewrite <- !app_assoc; reflexivity).
    rewrite includes_found. reflexivity. }
  split; [exact H1 |]. split; [| intro Hb; split; [| split]].
  - unfold showsFlashcardViewer, ChatArea.hasSession. split.
    + intro H. apply andb_prop in H as [Hf Hs]. split; [exact Hf |].
      destruct sessionId as [v |]; [| discriminate].
      exists v. split; [reflexivity |]. destruct v; [discriminate | discriminate].
    + intros (Hf & v & -> & Hv). rewrite Hf.
      destruct v; [contradiction | reflexivity].
  - unfold showsFlashcardViewer. simpl. apply andb_false_r.
  - unfold showsFlashcardViewer. simpl. apply andb_false_r.
  - unfold displayContent. rewrite removeAll_stripBlocks.
    pose proof (subsequence_length _ _ (trim_subsequence (stripBlocks content))).
    pose proof (stripBlocks_short _ Hb). lia.
Qed.

End DisplayedTextFacts.

(** ** Opening a cited document *)

Section CitationClickFacts.

Import Js ChatMessage CitationClick.
Local Open Scope Z_scope.

Ltac each_code_unit c :=
  destruct c as [b0 b1 b2 b3 b4 b5 b6 b7];
  destruct b0, b1, b2, b3, b4, b5, b6, b7.

Lemma encodeUnit_safe c : forallb urlSafe (encodeUnit c) = true.
Proof. each_code_unit c; reflexivity. Qed.

Lemma encodeUnit_decoded c fuel rest :
  decodeFuel (S fuel) (encodeUnit c ++ rest) = c :: decodeFuel fuel rest.
Proof. each_code_unit c; reflexivity. Qed.

Lemma encodeUnit_length c : (1 <= List.length (encodeUnit c))%nat.
Proof. each_code_unit c; simpl; lia. Qed.

Lemma encode_safe s : forallb urlSafe (encodeURIComponent s) = true.
Proof.
  induction s as [| c s IH]; [reflexivity |].
  simpl. rewrite forallb_app, encodeUnit_safe. exact IH.
Qed.

Lemma encode_length s :
  (List.length s <= List.length (encodeURIComponent s))%nat.
Proof.
  induction s as [| c s IH]; [reflexivity |].
  simpl. rewrite length_app. pose proof (encodeUnit_length c). lia.
Qed.

Lemma decodeFuel_encode s : forall fuel,
  (List.length s <= fuel)%nat -> decodeFuel fuel (encodeURIComponent s) = s.
Proof.
  induction s as [| c s IH]; intros fuel H.
  - destruct fuel; reflexivity.
  - destruct fuel as [| fuel]; [simpl in H; lia |].
    simpl encodeURIComponent. rewrite encodeUnit_decoded.
    f_equal. apply IH. simpl in H. lia.
Qed.

(** X15. The file name of a citation is one segment of the address of
    the document. [encodeURIComponent] writes the name with letters,
    digits, the marks [-_.!~*'()] and [%] only, so the name adds no [/],
    [?] or [#] to the address; the name can be read back from its
    encoding, so two file names never give the same address. *)
Theorem file_name_is_one_segment (API_BASE_URL file : jsstring) :
  forallb urlSafe (encodeURIComponent file) = true /\
  (forall c, In c (encodeURIComponent file) ->
     c <> "/"%char /\ c <> "?"%char /\ c <> "#"%char /\ c <> " "%char) /\
  decode (encodeURIComponent file) = file /\
  (forall other, viewUrl API_BASE_URL file = viewUrl API_BASE_URL other ->
     file = other).
Proof.
  assert (Hd : forall f, decode (encodeURIComponent f) = f).
  { intro f. apply decodeFuel_encode, encode_length. }
  split; [apply encode_safe |]. split; [| split; [apply Hd |]].
  - intros c Hc.
    pose proof (proj1 (forallb_forall _ _) (encode_safe file) c Hc) as Hs.
    repeat split; intros ->; discriminate Hs.
  - intros other H. unfold viewUrl in H.
    apply app_inv_head in H. apply app_inv_head in H.
    rewrite <- (Hd file), <- (Hd other), H. reflexivity.
Qed.

Lemma click_with_token base t c u size popup :
  truthy t = true -> size <> 0 ->
  handleCitationClick base true (Some t) c (Ok (BlobRead size u)) popup =
    [Fetch (viewUrl base (ChatMessage.file c)) (str "Bearer " ++ t);
     OpenPDF u (ChatMessage.file c) (pageOrOne (ChatMessage.page c))].
Proof.
  intros Ht Hs. unfold handleCitationClick. rewrite Ht.
  destruct (Z.eqb_spec size 0); [contradiction | reflexivity].
Qed.

Lemma pageOrOne_src u f z :
  pdfUrlWithPage (mkPDFViewState u f (pageOrOne (Int z))) =
    if 1 <? z then u ++ str "#page=" ++ decimal z else u.
Proof.
  unfold pdfUrlWithPage, pageOrOne. simpl.
  destruct (Z.eqb_spec z 0) as [-> | Hz]; simpl; [reflexivity |].
  destruct (Z.ltb_spec 1 z); [| reflexivity].
  destruct (Z.ltb_spec z 0); [lia | reflexivity].
Qed.


(** X17. A source line opens the document at its page. For a paragraph
    [Source: [<file>, p.<digits>]] with a PDF file name, the button the
    renderer puts in its place carries the file and the value of the
    digits; a click on it with a token, answered with a document that is
    not empty, opens the viewer on the blob, and the frame shows it at
    [#page=n], [n] written without leading zeros, when the value [n] is
    above 1, and at its first page for [p.0] and [p.1]. *)
Theorem source_line_opens_cited_page (API_BASE_URL t u f ds : jsstring)
    (rest : list Child) (size : Z) (popupBlocked : bool) :
  pdfName f = true -> ds <> [] -> forallb isDigit ds = true ->
  decimalValue ds <= maxSafeInteger ->
  truthy t = true -> size <> 0 ->
  let n := decimalValue ds in
  exists c p,
    ChatMessage.p (Text (str "Source: [" ++ f ++ str ", p." ++ ds ++ str "]") :: rest) =
      CitationParagraph c /\
    handleCitationClick API_BASE_URL true (Some t) c (Ok (BlobRead size u))
      popupBlocked =
      [Fetch (viewUrl API_BASE_URL f) (str "Bearer " ++ t); OpenPDF u f p] /\
    p = Int (if n =? 0 then 1 else n) /\
    pdfUrlWithPage (mkPDFViewState u f p) =
      (if 1 <? n then u ++ str "#page=" ++ decimal n else u).
Proof.
  intros Hf Hne Hall _ Ht Hs n.
  exists (mkCitation f (Int n) []), (pageOrOne (Int n)).
  split; [apply p_source_line; assumption |].
  split; [apply click_with_token; assumption |].
  split; [| apply pageOrOne_src].
  unfold pageOrOne. simpl. destruct (n =? 0); reflexivity.
Qed.

Lemma zoomAfter_snoc cs c :
  PDFViewer.zoomAfter (cs ++ [c]) = PDFViewer.onClick c (PDFViewer.zoomAfter cs).
Proof. unfold PDFViewer.zoomAfter. rewrite fold_left_app. reflexivity. Qed.

Lemma run_viewer es : forall s s' acc_view acc_clicks,
  runEvents es s = Some s' ->
  pdfView s = acc_view ->
  zoom s = option_map PDFViewer.zoomAfter acc_clicks ->
  (acc_view = None <-> acc_clicks = None) ->
  pdfView s' = lastOpened es acc_view /\
  zoom s' = option_map PDFViewer.zoomAfter (mountedClicks es acc_clicks) /\
  (lastOpened es acc_view = None <-> mountedClicks es acc_clicks = None).
Proof.
  induction es as [| e es IH]; intros s s' av ac H Hv Hz Hb; simpl in H.
  - injection H as <-. simpl. auto.
  - destruct (step e s) as [s1 |] eqn:Hs; [| discriminate].
    destruct e as [a | | c]; simpl in Hs.
    + destruct a; try (injection Hs as <-; simpl; apply (IH s s' av ac); assumption).
      injection Hs as <-. simpl.
      eapply IH; [exact H | reflexivity | | ].
      * simpl. rewrite Hz. destruct ac; reflexivity.
      * destruct ac; split; discriminate.
    + destruct (pdfView s); [| discriminate]. injection Hs as <-. simpl.
      eapply IH; [exact H | reflexivity | reflexivity | split; reflexivity].
    + destruct (zoom s) as [z |] eqn:Hzs; [| discriminate].
      injection Hs as <-. simpl.
      destruct ac as [cs |]; [| discriminate Hz].
      simpl in Hz. injection Hz as ->.
      eapply IH; [exact H | exact Hv | | ].
      * simpl. rewrite zoomAfter_snoc. reflexivity.
      * simpl. destruct Hb as [Hb1 Hb2].
        split; [intro E; apply Hb1 in E; discriminate E | discriminate].
Qed.

(** X18. The viewer keeps its zoom from one document to the next. In
    every run of the chat page, the document in the viewer is the last one
    opened since the viewer was closed, the viewer has a zoom cell exactly
    when a document is shown, and the zoom is the result of the zoom
    clicks made since the viewer was put on the page: opening another
    citation while the viewer is open keeps the zoom, and closing the
    viewer sets it back to 100 for the next document. The zoom stays
    between 50 and 200 in steps of 25. *)
Theorem viewer_keeps_zoom (es : list Event) (s : State) :
  runEvents es initial = Some s ->
  pdfView s = lastOpened es None /\
  zoom s = option_map PDFViewer.zoomAfter (mountedClicks es None) /\
  (pdfView s = None <-> zoom s = None) /\
  (forall z, zoom s = Some z -> PDFViewer.zoomOk z) /\
  (forall u f p z, zoom s = Some z -> zoom (handleOpenPDF u f p s) = Some z) /\
  (forall u f p, zoom (handleOpenPDF u f p (handleClosePDF s)) = Some 100).
Proof.
  intro H.
  destruct (run_viewer es initial s None None H eq_refl eq_refl)
    as (Hv & Hz & Hb); [split; reflexivity |].
  split; [exact Hv |]. split; [exact Hz |]. split; [| split; [| split]].
  - rewrite Hv, Hz. destruct (mountedClicks es None); simpl.
    + split; [intro E; apply Hb in E; discriminate | discriminate].
    + split; [reflexivity | intros _; apply Hb; reflexivity].
  - intros z Ez. rewrite Hz in Ez.
    destruct (mountedClicks es None) as [cs |]; [| discriminate].
    injection Ez as <-. apply zoomOk_fold, zoomOk_initial.
  - intros u f p z Ez. unfold handleOpenPDF. rewrite Ez. reflexivity.
  - reflexivity.
Qed.

End CitationClickFacts.

(** ** Signing in and out *)

Section AuthFacts.

Import Js Auth.

Variable stringify : User -> jsstring.

Lemma step_paired_storage e s :
  paired (storage s) -> paired (storage (step stringify e s)).
Proof.
  unfold paired. intro H.
  destruct e; simpl; try exact H; split; (reflexivity || discriminate).
Qed.

Lemma run_storage es : forall s,
  paired (storage s) ->
  paired (storage (runEvents stringify es s)) /\
  token (storage (runEvents stringify es s)) = lastToken es (token (storage s)).
Proof.
  induction es as [| e es IH]; intros s H; [split; [exact H | reflexivity] |].
  unfold runEvents. simpl fold_left. fold (runEvents stringify es (step stringify e s)).
  destruct (IH (step stringify e s) (step_paired_storage e s H)) as [Hp Ht].
  split; [exact Hp |]. rewrite Ht. destruct e; reflexivity.
Qed.

(** X19. Signing out always works. Whatever [authAPI.logout] answers,
    [logout] removes the token and the user from the storage, clears the
    user, says so in one toast and is fulfilled for its caller. So the
    settings page and the side bar always go to [/login] after a click on
    their logout buttons, and the [Logout failed] toast of the settings
    page is never shown. *)
Theorem logout_always_signs_out (server : Settled) (s : State) :
  let '(s', toasts, p) := logoutSettled server s in
  token (storage s') = None /\ storedUser (storage s') = None /\
  user s' = None /\ isAuthenticated s' = false /\
  toasts = [LoggedOut] /\ p = Fulfilled /\
  SettingsPage.logoutSettled p =
    [SettingsPage.ShowToast SettingsPage.LoggedOutSuccessfully;
     SettingsPage.Navigate (str "/login")] /\
  ~ In (SettingsPage.ShowToast SettingsPage.LogoutFailed)
       (SettingsPage.logoutSettled p) /\
  Sidebar.logoutSettled p =
    [Sidebar.Navigate (str "/login"); Sidebar.ShowToast Sidebar.LoggedOut] /\
  SettingsPage.timerSettled p = [SettingsPage.Navigate (str "/login")].
Proof.
  simpl. repeat split. intros [H | [H | []]]; discriminate H.
Qed.

(** X20. The login page enters the chat exactly when the server accepts
    the credentials. If [authAPI.login] is fulfilled, the token of the
    response and the user are stored, the user is set, and the page goes
    to [/chat]; if it is rejected, the storage and the user stay as they
    were, one toast shows the detail of the error or [Login failed], and
    the page stays. The loading flag of the page is cleared in both cases
    and its fields are kept. The signup page does the same with
    [authAPI.signup]. *)
Theorem login_enters_chat_when_accepted (s : State) (page : LoginPage.State)
    (form : SignupPage.State) :
  (forall r,
     let '(s', toasts, p) := loginFulfilled stringify r s in
     token (storage s') = Some (access_token r) /\
     storedUser (storage s') = Some (stringify (resp_user r)) /\
     user s' = Some (resp_user r) /\ isAuthenticated s' = true /\
     toasts = [LoginSuccessful (username (resp_user r))] /\
     snd (LoginPage.submitSettled p (fst (LoginPage.handleSubmit page))) =
       Some (str "/chat")) /\
  (forall e,
     let '(s', toasts, p) := loginRejected e s in
     s' = s /\
     toasts = [LoginFailed (orElse (ChatArea.detail e) (str "Login failed"))] /\
     snd (LoginPage.submitSettled p (fst (LoginPage.handleSubmit page))) = None) /\
  (forall p,
     fst (LoginPage.submitSettled p (fst (LoginPage.handleSubmit page))) =
       LoginPage.mkState (LoginPage.username page) (LoginPage.password page) false /\
     snd (LoginPage.handleSubmit page) =
       (LoginPage.username page, LoginPage.password page)) /\
  (forall r,
     let '(s', toasts, p) := signupFulfilled stringify r s in
     token (storage s') = Some (access_token r) /\
     user s' = Some (resp_user r) /\
     snd (SignupPage.submitSettled p (fst (SignupPage.handleSubmit form))) =
       Some (str "/chat")) /\
  (forall e,
     let '(s', toasts, p) := signupRejected e s in
     s' = s /\
     toasts = [SignupFailed (orElse (ChatArea.detail e) (str "Signup failed"))] /\
     snd (SignupPage.submitSettled p (fst (SignupPage.handleSubmit form))) = None).
Proof.
  repeat split.
Qed.

(** X21. The two keys of the storage go together. In every sequence of
    settled calls of the provider, starting from a storage that holds
    both keys or none, the storage holds both keys or none; the token it
    holds is the one of the last login or signup that was accepted, unless
    a logout or a failed check came after it, which remove it. *)
Theorem storage_keys_go_together (es : list Event) (st : Storage) :
  paired st ->
  let s := runEvents stringify es (initial st) in
  paired (storage s) /\
  token (storage s) = lastToken es (token st).
Proof.
  intros H s. apply (run_storage es (initial st) H).
Qed.

(** X29. A token that the server refuses is dropped. When the provider
    is created, [checkAuth] asks the server for the user exactly when the
    storage holds a token that is not empty; without one it only clears
    the loading flag. If the request is fulfilled the user is set and the
    storage kept; if it is rejected both keys are removed and no user is
    set, so that the next check makes no request. The loading flag is
    cleared in every case. *)
Theorem refused_token_is_dropped (st : Storage) (u : User) :
  let s0 := initial st in
  (snd (checkAuth s0) = true <-> exists t, token st = Some t /\ t <> []) /\
  (snd (checkAuth s0) = false ->
   fst (checkAuth s0) = mkState None false st) /\
  (snd (checkAuth s0) = true -> fst (checkAuth s0) = s0) /\
  checkFulfilled u s0 = mkState (Some u) false st /\
  checkRejected s0 = mkState None false (mkStorage None None) /\
  checkAuth (initial (storage (checkRejected s0))) =
    (mkState None false (mkStorage None None), false) /\
  isAuthenticated (checkRejected s0) = false.
Proof.
  intro s0. unfold checkAuth, s0, initial. simpl.
  destruct (token st) as [[| c t] |]; simpl.
  - split; [split; [discriminate | intros (t & H & Hne); injection H as <-; contradiction] |].
    destruct st; repeat split; discriminate.
  - split; [split; [intros _; eexists; split; [reflexivity | discriminate] | reflexivity] |].
    destruct st; repeat split; discriminate.
  - split; [split; [discriminate | intros (t & H & _); discriminate H] |].
    destruct st; repeat split; discriminate.
Qed.

End AuthFacts.

Section SettingsFacts.

Import Js SettingsPage.

Lemma Js_eqb_iff a b : Js.eqb a b = true <-> a = b.
Proof.
  split; [apply Js_eqb_true | intros ->; apply Js_eqb_refl].
Qed.

(** X22. A password change is sent only when the form is valid.
    [handleChangePassword] calls [authAPI.changePassword] exactly when the
    current password is not empty, the new password and its confirmation
    are equal, and the new password has at least six characters; the
    request then carries the current and the new password as typed.
    Otherwise the form and the flag are unchanged, nothing is sent, and
    one toast tells the first check that failed: the missing fields when
    one of the three fields is empty; else the mismatch when the new
    password and its confirmation differ; else the length when the new
    password has fewer than six characters. *)
Theorem password_change_is_validated (s : State) :
  let f := passwordForm s in
  let valid := currentPassword f <> [] /\ newPassword f = confirmPassword f /\
               6 <= List.length (newPassword f) in
  (valid ->
   handleChangePassword s =
     (mkState f true,
      [CallChangePassword (mkChangeRequest (currentPassword f) (newPassword f))])) /\
  (~ valid ->
   fst (handleChangePassword s) = s /\
   requestsOf (snd (handleChangePassword s)) = [] /\
   exists t, snd (handleChangePassword s) = [ShowToast t] /\
     (t = MissingFields <->
      currentPassword f = [] \/ newPassword f = [] \/ confirmPassword f = []) /\
     (t = PasswordsDontMatch <->
      currentPassword f <> [] /\ newPassword f <> [] /\
      confirmPassword f <> [] /\ newPassword f <> confirmPassword f) /\
     (t = PasswordTooShort <->
      currentPassword f <> [] /\ newPassword f <> [] /\
      newPassword f = confirmPassword f /\ List.length (newPassword f) < 6)) /\
  (forall r, In r (requestsOf (snd (handleChangePassword s))) -> valid).
Proof.
  intros f valid. subst valid. unfold handleChangePassword. fold f.
  destruct (currentPassword f) as [| c0 c] eqn:Hc;
    [| destruct (newPassword f) as [| n0 n] eqn:Hn;
       [| destruct (confirmPassword f) as [| k0 k] eqn:Hk]]; simpl.
  - split; [intros [H _]; contradiction |]. split.
    + intros _. split; [reflexivity |]. split; [reflexivity |].
      exists MissingFields. split; [reflexivity |].
      split; [split; auto |].
      split; (split; [discriminate | intros (H & _); contradiction]).
    + intros r [].
  - split; [intros (_ & _ & H); simpl in H; lia |]. split.
    + intros _. split; [reflexivity |]. split; [reflexivity |].
      exists MissingFields. split; [reflexivity |].
      split; [split; auto |].
      split; (split; [discriminate | intros (_ & H & _); contradiction]).
    + intros r [].
  - split; [intros (_ & H & _); discriminate H |]. split.
    + intros _. split; [reflexivity |]. split; [reflexivity |].
      exists MissingFields. split; [reflexivity |].
      split; [split; auto |]. split.
      * split; [discriminate | intros (_ & _ & H & _); contradiction].
      * split; [discriminate | intros (_ & _ & H & _); discriminate H].
    + intros r [].
  - destruct (Ascii.eqb n0 k0 && Js.eqb n k) eqn:He; simpl.
    + assert (Heq : n0 :: n = k0 :: k)
        by (apply Js_eqb_iff; exact He).
      destruct (Nat.ltb_spec (S (List.length n)) 6) as [Hlt | Hge]; simpl.
      * split; [intros (_ & _ & H); lia |]. split.
        -- intros _. split; [reflexivity |]. split; [reflexivity |].
           exists PasswordTooShort. split; [reflexivity |].
           split; [split; [discriminate | intros [H | [H | H]]; discriminate H] |].
           split.
           ++ split; [discriminate | intros (_ & _ & _ & H); contradiction].
           ++ split; [| reflexivity]. intros _.
              repeat split; [discriminate | discriminate | exact Heq | exact Hlt].
        -- intros r [].
      * split; [intros _; reflexivity |]. split.
        -- intro H. exfalso. apply H. repeat split; [discriminate | exact Heq | exact Hge].
        -- intros r _. repeat split; [discriminate | exact Heq | exact Hge].
    + assert (Hneq : n0 :: n <> k0 :: k).
      { intro H. apply Js_eqb_iff in H. simpl in H. congruence. }
      split; [intros (_ & H & _); contradiction |]. split.
      * intros _. split; [reflexivity |]. split; [reflexivity |].
        exists PasswordsDontMatch. split; [reflexivity |].
        split; [split; [discriminate | intros [H | [H | H]]; discriminate H] |].
        split.
        -- split; [| reflexivity]. intros _.
           repeat split; [discriminate | discriminate | discriminate | exact Hneq].
        -- split; [discriminate | intros (_ & _ & H & _); contradiction].
      * intros r [].
Qed.

(** X23. An accepted password change ends the session. When
    [authAPI.changePassword] is fulfilled the form is emptied, the flag
    is cleared and a logout is scheduled; when the timer fires, the logout
    clears the token and the user whatever the server answers, and the
    page goes to [/login]. A rejected change keeps the form, clears the
    flag, schedules nothing and shows one toast: with the detail of the
    error when the error has one that is not empty, and with the text
    [Please check your current password] when the detail is absent or
    empty. After an accepted change a second click on the button sends
    nothing, the form being empty. *)
Theorem password_change_ends_session (s : State) (a : Auth.State)
    (server : Auth.Settled) (e : ChatArea.ApiError) :
  changeFulfilled s =
    (mkState emptyForm false, [ShowToast PasswordChanged; ScheduleLogout]) /\
  (let '(a', _, p) := Auth.logoutSettled server a in
   Auth.token (Auth.storage a') = None /\ Auth.user a' = None /\
   timerSettled p = [Navigate (str "/login")]) /\
  fst (changeRejected e s) = mkState (passwordForm s) false /\
  ~ In ScheduleLogout (snd (changeRejected e s)) /\
  (forall d, ChatArea.detail e = Some d -> d <> [] ->
     snd (changeRejected e s) = [ShowToast (PasswordChangeFailed d)]) /\
  (ChatArea.detail e = None \/ ChatArea.detail e = Some [] ->
     snd (changeRejected e s) =
       [ShowToast (PasswordChangeFailed (str "Please check your current password"))]) /\
  handleChangePassword (fst (changeFulfilled s)) =
    (fst (changeFulfilled s), [ShowToast MissingFields]).
Proof.
  split; [reflexivity |]. split; [simpl; repeat split |].
  split; [reflexivity |]. split; [intros [H | []]; discriminate H |].
  split; [| split; [| reflexivity]].
  - intros d Hd Hne. simpl. unfold Auth.orElse. rewrite Hd.
    destruct d; [contradiction | reflexivity].
  - intros [Hd | Hd]; simpl; unfold Auth.orElse; rewrite Hd; reflexivity.
Qed.

End SettingsFacts.

(** ** The side bar *)

Section SidebarFacts.

Import Js ChatArea Sidebar.


End SidebarFacts.

Section GroupingEdgeFacts.

Import ChatSidebar.
Local Open Scope Z_scope.

Variable parseDate : string -> timeValue.
Variable startOfDay : timeValue -> timeValue.
Variable addDays : timeValue -> Z -> timeValue.
Variable now : timeValue.

Local Abbreviation classify := (classify parseDate startOfDay addDays now).

(** X25. Where a session is listed depends on its day alone. When the
    starts of today, of yesterday and of the day a week ago are valid
    dates in that order, a session whose day is [d] is listed under Today
    when [d] is the start of today, under Yesterday when it is the start
    of yesterday, under the last seven days when [d] is any other day
    from a week ago on, and under Older when [d] is earlier. So a session
    dated in the future is listed under the last seven days, and a
    session whose date cannot be read is listed under Older. *)
Theorem session_group_by_day (t y w : Z) (session : ChatSession) :
  startOfDay now = Some t ->
  addDays (Some t) (-1) = Some y ->
  addDays (Some t) (-7) = Some w ->
  w < y < t ->
  (startOfDay (parseDate (created_at session)) = None ->
   classify session = Older) /\
  (forall d, startOfDay (parseDate (created_at session)) = Some d ->
     (classify session = Today <-> d = t) /\
     (classify session = Yesterday <-> d = y) /\
     (classify session = LastWeek <-> w <= d /\ d <> t /\ d <> y) /\
     (classify session = Older <-> d < w) /\
     (t < d -> classify session = LastWeek)).
Proof.
  intros Ht Hy Hw Hord.
  unfold ChatSidebar.classify, lastWeekStart, yesterdayStart, todayStart.
  rewrite Ht, Hy, Hw. split.
  - intros ->. reflexivity.
  - intros d ->. simpl.
    destruct (Z.eqb_spec d t) as [-> | Hdt].
    + repeat split; intros; try discriminate; try lia; reflexivity.
    + destruct (Z.eqb_spec d y) as [-> | Hdy].
      * repeat split; intros; try discriminate; try lia; try reflexivity.
      * destruct (Z.leb_spec w d) as [Hwd | Hwd].
        -- repeat split; intros; try discriminate; try lia; try reflexivity.
        -- repeat split; intros; try discriminate; try lia; try reflexivity.
Qed.

End GroupingEdgeFacts.

(** ** The landing page *)

Section LandingFacts.

Import Js Landing.

Lemma ticks_state text k :
  (k <= S (List.length text) ->
   ticks text k = mkState (firstn (k - 1) text) k true) /\
  (S (List.length text) < k ->
   ticks text k = mkState text (S (List.length text)) false).
Proof.
  induction k as [| k [IH1 IH2]].
  - split; [intros _; reflexivity | intro H; lia].
  - split; intro H.
    + replace (S k - 1) with k by lia.
      simpl ticks. rewrite IH1 by lia. unfold tick.
      cbn [running currentIndex displayText].
      destruct (Nat.leb_spec k (List.length text)); [reflexivity | lia].
    + simpl ticks.
      destruct (Nat.eq_dec k (S (List.length text))) as [-> | Hne].
      * rewrite IH1 by lia. unfold tick.
        cbn [running currentIndex displayText].
        destruct (Nat.leb_spec (S (List.length text)) (List.length text));
          [lia |].
        replace (S (List.length text) - 1) with (List.length text) by lia.
        rewrite firstn_all. reflexivity.
      * rewrite IH2 by lia. reflexivity.
Qed.

(** X26. The title types itself once and stops. After [k] periods of the
    interval the landing page shows the first [k - 1] characters of the
    text; the whole text is shown from period [n + 1] on, [n] being its
    length; the interval runs through period [n + 1] and is cleared at
    period [n + 2]. What is shown is always a prefix of the text and never
    gets shorter. For the text [IntelliBase_] the title is complete after
    13 periods. *)
Theorem title_types_itself (text : jsstring) (k : nat) :
  displayText (ticks text k) = firstn (k - 1) text /\
  (running (ticks text k) = true <-> k <= S (List.length text)) /\
  (S (List.length text) <= k -> displayText (ticks text k) = text) /\
  List.length (displayText (ticks text k)) <=
    List.length (displayText (ticks text (S k))) /\
  displayText (ticks fullText 13) = fullText.
Proof.
  assert (Hd : forall j, displayText (ticks text j) = firstn (j - 1) text).
  { intro j. destruct (ticks_state text j) as [H1 H2].
    destruct (Nat.le_gt_cases j (S (List.length text))) as [H | H].
    - rewrite (H1 H). reflexivity.
    - rewrite (H2 H). simpl. rewrite firstn_all2 by lia. reflexivity. }
  split; [apply Hd |]. split; [| split; [| split]].
  - destruct (ticks_state text k) as [H1 H2].
    destruct (Nat.le_gt_cases k (S (List.length text))) as [H | H].
    + rewrite (H1 H). simpl. split; auto.
    + rewrite (H2 H). simpl. split; [discriminate | lia].
  - intro H. rewrite Hd. apply firstn_all2. lia.
  - rewrite !Hd, !length_firstn. lia.
  - reflexivity.
Qed.

End LandingFacts.

(** ** The flashcard viewer *)

Section FlashcardViewerFacts.

Import Js FlashcardViewer.

Variable API_BASE_URL : jsstring.




End FlashcardViewerFacts.

(** ** Source lines with other spacing *)

Section SourceLineFacts.

Import Js Regex ChatMessage.

Ltac code_units c :=
  destruct c as [b0 b1 b2 b3 b4 b5 b6 b7];
  destruct b0, b1, b2, b3, b4, b5, b6, b7.

Ltac ci_literals :=
  repeat match goal with
         | |- context [Ascii.eqb (canonicalize ?a) (canonicalize ?b)] =>
           let v := eval vm_compute in (Ascii.eqb (canonicalize a) (canonicalize b)) in
           change (Ascii.eqb (canonicalize a) (canonicalize b)) with v
         end;
  cbv iota.

Lemma space_not_dot c : isSpace c = true -> litMatches true "."%char c = false.
Proof. code_units c; intro H; (reflexivity || discriminate H). Qed.

Lemma space_not_bracket c : isSpace c = true -> notBracket c = true.
Proof. code_units c; intro H; (reflexivity || discriminate H). Qed.

Lemma digit_not_bracket c : isDigit c = true -> notBracket c = true.
Proof. code_units c; intro H; (reflexivity || discriminate H). Qed.

(** The suffixes of a run of digits closed by a bracket, cut after a
    part without bracket. *)
Lemma suffix_after_digits tail ds : forall y1 y2,
  forallb isDigit ds = true -> forallb notBracket y1 = true ->
  y1 ++ y2 = ds ++ "]"%char :: tail ->
  exists h t, y2 = h :: t /\ (isDigit h = true \/ h = "]"%char).
Proof.
  induction ds as [| d ds IH]; intros y1 y2 Hall Hy1 Hy.
  - simpl in Hy. apply app_cons_cases in Hy as [[_ ->] | (y1' & -> & _)].
    + exists "]"%char, tail. auto.
    + simpl in Hy1. discriminate Hy1.
  - simpl in Hall. apply andb_prop in Hall as [Hd Hds].
    simpl in Hy. apply app_cons_cases in Hy as [[_ ->] | (y1' & -> & Hy)].
    + exists d, (ds ++ "]"%char :: tail). auto.
    + simpl in Hy1. apply andb_prop in Hy1 as [_ Hy1].
      apply (IH y1' y2 Hds Hy1 Hy).
Qed.

(** Where [.pdf] cannot match again: at no later place of the text
    between the file name and the closing bracket. *)
Lemma late_suffix tail ds seg : forall y1 y2,
  (forall c, In c seg -> litMatches true "."%char c = false) ->
  ds <> [] -> forallb isDigit ds = true ->
  forallb notBracket y1 = true ->
  y1 ++ y2 = seg ++ "."%char :: ds ++ "]"%char :: tail ->
  match y2 with
  | [] => True
  | h :: t =>
    litMatches true "."%char h = false \/
    match t with
    | [] => True
    | h2 :: _ => litMatches true "p"%char h2 = false
    end
  end.
Proof.
  induction seg as [| c seg IH]; intros y1 y2 Hseg Hne Hall Hy1 Hy.
  - simpl in Hy. apply app_cons_cases in Hy as [[_ ->] | (y1' & -> & Hy)].
    + right. destruct ds as [| d0 ds']; [congruence |].
      simpl. apply not_a_p. simpl in Hall.
      apply andb_prop in Hall as [Hd _]. exact Hd.
    + simpl in Hy1.
      destruct (suffix_after_digits tail ds y1' y2 Hall Hy1 Hy)
        as (h & t & -> & Hh).
      left. apply not_a_dot. exact Hh.
  - simpl in Hy. apply app_cons_cases in Hy as [[_ ->] | (y1' & -> & Hy)].
    + left. apply Hseg. left. reflexivity.
    + simpl in Hy1. apply andb_prop in Hy1 as [_ Hy1].
      apply (IH y1' y2); auto. intros c' Hc'. apply Hseg. right. exact Hc'.
Qed.

(** The part of the pattern after the file name, with any white space
    after the comma, [p] in either case and text after the bracket. *)
Lemma match_afterName_spaced ws pch ds tail c :
  forallb isSpace ws = true -> pch = "p"%char \/ pch = "P"%char ->
  ds <> [] -> forallb isDigit ds = true ->
  matchRe true afterName
    (","%char :: ws ++ pch :: "."%char :: ds ++ "]"%char :: tail) c done =
    Some ((2, ds) :: c, tail).
Proof.
  intros Hws Hp Hne Hall. destruct ds as [| d0 ds]; [congruence |].
  simpl in Hall. apply andb_prop in Hall as [Hd0 Hds].
  unfold afterName. rewrite matchRe_seq.
  change (matchRe true (Lit ?l) (?ch :: ?rest) ?c ?k)
    with (if litMatches true l ch then k rest c else None).
  change (litMatches true "," ",") with true. cbv beta iota.
  rewrite matchRe_seq.
  change (matchRe true (Star true ?p) ?s ?c ?k)
    with (starGreedy p s (fun s' => k s' c)).
  apply starGreedy_blocked;
    [exact Hws | destruct Hp as [-> | ->]; reflexivity |].
  cbv beta. rewrite matchRe_seq.
  change (pch :: "."%char :: (d0 :: ds) ++ "]"%char :: tail)
    with ([pch; "."%char] ++ (d0 :: ds) ++ "]"%char :: tail).
  rewrite (matchRe_lits_ci (str "p.") [pch; "."%char])
    by (destruct Hp as [-> | ->]; reflexivity).
  rewrite matchRe_seq.
  change (matchRe true (Group ?i ?g) ?s ?c ?k)
    with (matchRe true g s c
            (fun s' c' => k s' ((i, firstn (List.length s - List.length s') s) :: c'))).
  unfold Plus. rewrite matchRe_seq.
  change ((d0 :: ds) ++ "]"%char :: tail) with (d0 :: ds ++ "]"%char :: tail).
  change (matchRe true (Class ?p) (?ch :: ?rest) ?c ?k)
    with (if p ch then k rest c else None).
  rewrite Hd0. cbv beta.
  change (matchRe true (Star true ?p) ?s ?c ?k)
    with (starGreedy p s (fun s' => k s' c)).
  apply starGreedy_blocked; [exact Hds | reflexivity |].
  cbv beta.
  change (matchRe true (Lit ?l) (?ch :: ?rest) ?c ?k)
    with (if litMatches true l ch then k rest c else None).
  change (litMatches true "]" "]") with true. cbv beta iota.
  unfold done.
  pose proof (captured_text (d0 :: ds) ("]"%char :: tail)) as Hc.
  change ((d0 :: ds) ++ "]"%char :: tail) with (d0 :: ds ++ "]"%char :: tail) in Hc.
  rewrite Hc. reflexivity.
Qed.

(** The source pattern on a source line with any white space after
    [Source:] and after the comma, [p] in either case, and text after the
    closing bracket. *)
Lemma exec_sourcePattern_spaced ws1 f ws2 pch ds tail :
  forallb isSpace ws1 = true -> forallb isSpace ws2 = true ->
  pch = "p"%char \/ pch = "P"%char ->
  pdfName f = true -> ds <> [] -> forallb isDigit ds = true ->
  exec true sourcePattern
    (str "Source:" ++ ws1 ++ "["%char :: f ++
     ","%char :: ws2 ++ pch :: "."%char :: ds ++ "]"%char :: tail) =
    Some ([(2, ds); (1, f)], tail).
Proof.
  intros Hws1 Hws2 Hp Hf Hne Hall.
  destruct (pdfName_split _ Hf) as (c0 & stem & ext & -> & Hc0 & Hstem & Hext).
  unfold exec, sourcePattern.
  set (T := ","%char :: ws2 ++ pch :: "."%char :: ds ++ "]"%char :: tail).
  rewrite matchRe_seq, matchRe_lits_ci by reflexivity.
  rewrite matchRe_seq.
  change (matchRe true (Star true ?p) ?s ?c ?k)
    with (starGreedy p s (fun s' => k s' c)).
  apply starGreedy_blocked; [exact Hws1 | reflexivity |].
  cbv beta. rewrite matchRe_seq.
  change (matchRe true (Lit ?l) (?ch :: ?rest) ?c ?k)
    with (if litMatches true l ch then k rest c else None).
  change (litMatches true "[" "[") with true. cbv beta iota.
  rewrite matchRe_seq.
  change (matchRe true (Group ?i ?g) ?s ?c ?k)
    with (matchRe true g s c
            (fun s' c' => k s' ((i, firstn (List.length s - List.length s') s) :: c'))).
  unfold Plus. rewrite !matchRe_seq.
  change ((c0 :: stem ++ ext) ++ T) with (c0 :: (stem ++ ext) ++ T).
  change (matchRe true (Class ?p) (?ch :: ?rest) ?c ?k)
    with (if p ch then k rest c else None).
  rewrite Hc0. cbv beta.
  change (matchRe true (Star true ?p) ?s ?c ?k)
    with (starGreedy p s (fun s' => k s' c)).
  rewrite <- app_assoc.
  apply starGreedy_commit; [exact Hstem | |]; cbv beta.
  - rewrite matchRe_lits_ci by exact Hext.
    pose proof (captured_text (c0 :: stem ++ ext) T) as Hc.
    rewrite <- app_comm_cons, <- app_assoc in Hc. rewrite Hc.
    apply match_afterName_spaced; assumption.
  - intros y1 y2 Hy Hy1 Hnb. cbv beta. apply lits_pdf_fail.
    destruct (sameLetters_pdf _ Hext) as (e1 & e2 & e3 & e4 & -> & H1 & H2 & H3 & H4).
    symmetry in Hy. unfold T in Hy. simpl in Hy.
    apply app_cons_cases in Hy as [[-> _] | (y1' & -> & Hy)]; [congruence |].
    simpl in Hnb. apply andb_prop in Hnb as [_ Hnb].
    apply (late_suffix tail ds (e2 :: e3 :: e4 :: ","%char :: ws2 ++ [pch]) y1' y2);
      [| exact Hne | exact Hall | exact Hnb |].
    + intros c [<- | [<- | [<- | [<- | Hc]]]].
      * apply (letter_not_dot (l := "p"%char)); auto.
      * apply (letter_not_dot (l := "d"%char)); auto.
      * apply (letter_not_dot (l := "f"%char)); auto.
      * reflexivity.
      * apply in_app_or in Hc as [Hc | [<- | []]].
        -- apply space_not_dot.
           apply (proj1 (forallb_forall _ _) Hws2 c Hc).
        -- destruct Hp as [-> | ->]; reflexivity.
    + rewrite Hy. simpl. rewrite <- app_assoc. reflexivity.
Qed.

Lemma decimalValue_digits_nonneg ds :
  forallb isDigit ds = true -> (0 <= decimalValue ds)%Z.
Proof.
  assert (H : forall l acc, (0 <= acc)%Z -> forallb isDigit l = true ->
            (0 <= fold_left (fun a c => a * 10 + digitValue c) l acc)%Z).
  { induction l as [| d l IH]; intros acc Hacc Hl; [exact Hacc |].
    simpl in Hl. apply andb_prop in Hl as [Hd Hl]. simpl. apply IH; [| exact Hl].
    unfold isDigit in Hd. apply andb_prop in Hd as [Hd _].
    apply Nat.leb_le in Hd. unfold digitValue. lia. }
  intro Hl. apply (H ds 0%Z); [lia | exact Hl].
Qed.

(** X28. The renderer reads a source line whatever its spacing. A
    paragraph whose first child, trimmed, is [Source:], any white space,
    an opening bracket, a PDF file name, a comma, any white space, [p.]
    or [P.], digits, a closing bracket and then any text, is rendered as
    the citation button alone, for that file and the value of the digits.
    The button is labelled [Source: [<file>, p.<n>]] with single spaces
    and [n] without leading zeros; the text after the bracket and the
    other children of the paragraph are not shown. *)
Theorem source_line_in_any_spacing (raw ws1 f ws2 ds tail : jsstring)
    (pch : ascii) (rest : list Child) :
  trim raw =
    str "Source:" ++ ws1 ++ "["%char :: f ++
    ","%char :: ws2 ++ pch :: "."%char :: ds ++ "]"%char :: tail ->
  forallb isSpace ws1 = true -> forallb isSpace ws2 = true ->
  pch = "p"%char \/ pch = "P"%char ->
  pdfName f = true -> ds <> [] -> forallb isDigit ds = true ->
  (decimalValue ds <= maxSafeInteger)%Z ->
  let par := p (Text raw :: rest) in
  par = CitationParagraph (mkCitation f (Int (decimalValue ds)) []) /\
  visibleText par =
    str "Source: [" ++ f ++ str ", p." ++ decimal (decimalValue ds) ++ str "]" /\
  bareText par = [].
Proof.
  intros Htrim Hws1 Hws2 Hp Hf Hne Hall _ par.
  assert (Hpar : par = CitationParagraph (mkCitation f (Int (decimalValue ds)) [])).
  { unfold par, p. rewrite Htrim.
    rewrite startsWith_prefix.
    rewrite (search_found _ _ _
               (exec_sourcePattern_spaced ws1 f ws2 pch ds tail
                  Hws1 Hws2 Hp Hf Hne Hall)).
    unfold matchGroup. cbn [capture Nat.eqb].
    rewrite (parseInt10_digits Hne Hall). reflexivity. }
  rewrite Hpar. split; [reflexivity |]. split; [| reflexivity].
  unfold visibleText, citationLabel. cbn [file page].
  rewrite Number_toString_nonneg by (apply decimalValue_digits_nonneg; exact Hall).
  reflexivity.
Qed.

End SourceLineFacts.

(** ** Instances *)

Section UploadDialogInstances.

Import Js FileUpload UploadDialog.

(** The retry session: two requests are issued, both with the PDF file
    only. *)
Lemma upload_requests_are_pdf_witness :
  exists m out,
    runEvents retryScenario initial = Some (m, out) /\
    List.length (uploadsOf out) = 2 /\
    forall r, In r (uploadsOf out) ->
      req_files r <> [] /\ forallb isPdf (req_files r) = true.
Proof.
  destruct (runEvents retryScenario initial) as [[m out] |] eqn:H;
    [| vm_compute in H; discriminate H].
  exists m, out. split; [reflexivity |]. split.
  - vm_compute in H. injection H as <- <-. reflexivity.
  - exact (proj2 (upload_requests_are_pdf retryScenario m out H)).
Defined.

(** The dialog while the first upload of the retry session is pending. *)
Lemma upload_dialog_one_at_a_time_witness :
  exists m out,
    runEvents (firstn 6 retryScenario) initial = Some (m, out) /\
    pending m <> [] /\
    step ClickUpload m = None.
Proof.
  destruct (runEvents (firstn 6 retryScenario) initial) as [[m out] |] eqn:H;
    [| vm_compute in H; discriminate H].
  exists m, out. split; [reflexivity |].
  assert (Hp : pending m <> []).
  { vm_compute in H. injection H as <- <-. discriminate. }
  split; [exact Hp |].
  destruct (upload_dialog_one_at_a_time (firstn 6 retryScenario) m out H)
    as (_ & _ & Hc & _).
  exact (Hc Hp).
Defined.

(** After the second upload of the retry session is accepted, the dialog
    shows 100 until it resets. *)
Lemma upload_progress_is_bounded_witness :
  exists m out,
    runEvents (firstn 9 retryScenario) initial = Some (m, out) /\
    resets m = 1 /\
    Dialog.uploadProgress (cells m) = 100%Z.
Proof.
  destruct (runEvents (firstn 9 retryScenario) initial) as [[m out] |] eqn:H;
    [| vm_compute in H; discriminate H].
  exists m, out. split; [reflexivity |].
  assert (Hr : resets m = 1).
  { vm_compute in H. injection H as <- <-. reflexivity. }
  split; [exact Hr |].
  destruct (upload_progress_is_bounded (firstn 9 retryScenario) m out H)
    as (_ & _ & Hc & _).
  apply Hc. exact Hr.
Defined.

(** At the end of the retry session nothing is pending and one interval
    still runs. *)
Lemma failed_upload_leaves_timer_witness :
  exists m out,
    runEvents retryScenario initial = Some (m, out) /\
    timers m = List.length (pending m) + 1 /\
    exists m', step Tick m = Some (m', []).
Proof.
  destruct (runEvents retryScenario initial) as [[m out] |] eqn:H;
    [| vm_compute in H; discriminate H].
  exists m, out. split; [reflexivity |].
  destruct (failed_upload_leaves_timer retryScenario m out H) as (Ht & _ & Hk).
  split; [exact Ht |]. apply Hk. discriminate.
Defined.

(** The failure in the retry session. *)
Lemma failed_upload_can_be_retried_witness :
  exists m out m1 out1,
    runEvents (firstn 6 retryScenario) initial = Some (m, out) /\
    step (UploadRejected 0) m = Some (m1, out1) /\
    Dialog.files (cells m1) = Dialog.files (cells m) /\
    exists m2 out2, step ClickUpload m1 = Some (m2, out2) /\
                    uploadsOf out2 = pending m.
Proof.
  destruct (runEvents (firstn 6 retryScenario) initial) as [[m out] |] eqn:H;
    [| vm_compute in H; discriminate H].
  destruct (step (UploadRejected 0) m) as [[m1 out1] |] eqn:Hs.
  - exists m, out, m1, out1. split; [reflexivity |]. split; [exact Hs |].
    destruct (failed_upload_can_be_retried (firstn 6 retryScenario) m m1 out out1 0
                H Hs) as (_ & Hf & _ & _ & _ & _ & Hretry).
    split; [exact Hf |]. apply Hretry.
    vm_compute in H. injection H as <- <-.
    vm_compute in Hs. injection Hs as <- <-. reflexivity.
  - vm_compute in H. injection H as <- <-. vm_compute in Hs. discriminate Hs.
Defined.

End UploadDialogInstances.

Section DocumentsPageInstances.

Import Js FileUpload DocumentsPage.

(** A text file is accepted and sent by the documents page. *)
Lemma documents_click_always_uploads_witness :
  exists m out m1 out1,
    runEvents (firstn 1 textFileScenario) initial = Some (m, out) /\
    step ClickUpload m = Some (m1, out1) /\
    out1 = [Upload (mkUploadRequest
                      [mkFile (str "b.txt") (str "text/plain") 20] main None)].
Proof.
  destruct (runEvents (firstn 1 textFileScenario) initial) as [[m out] |] eqn:H;
    [| vm_compute in H; discriminate H].
  destruct (step ClickUpload m) as [[m1 out1] |] eqn:Hs.
  - exists m, out, m1, out1. split; [reflexivity |]. split; [exact Hs |].
    destruct (documents_click_always_uploads (firstn 1 textFileScenario)
                m m1 out out1 H Hs) as (_ & Ho & _).
    rewrite Ho. vm_compute in H. injection H as <- <-. reflexivity.
  - vm_compute in H. injection H as <- <-. vm_compute in Hs. discriminate Hs.
Defined.

(** The page while the upload of the text file is pending. *)
Lemma documents_one_upload_at_a_time_witness :
  exists m out,
    runEvents (firstn 2 textFileScenario) initial = Some (m, out) /\
    pending m <> [] /\
    step ClickUpload m = None.
Proof.
  destruct (runEvents (firstn 2 textFileScenario) initial) as [[m out] |] eqn:H;
    [| vm_compute in H; discriminate H].
  exists m, out. split; [reflexivity |].
  assert (Hp : pending m <> []).
  { vm_compute in H. injection H as <- <-. discriminate. }
  split; [exact Hp |].
  destruct (documents_one_upload_at_a_time (firstn 2 textFileScenario) m out H)
    as (_ & _ & Hc).
  exact (proj1 (proj2 (Hc Hp))).
Defined.

(** The failure of the upload of the text file. *)
Lemma documents_upload_settles_clean_witness :
  exists m out m1 out1,
    runEvents (firstn 2 textFileScenario) initial = Some (m, out) /\
    step (UploadRejected 0) m = Some (m1, out1) /\
    Documents.selectedFiles (cells m1) = [] /\
    step ClickUpload m1 = None.
Proof.
  destruct (runEvents (firstn 2 textFileScenario) initial) as [[m out] |] eqn:H;
    [| vm_compute in H; discriminate H].
  destruct (step (UploadRejected 0) m) as [[m1 out1] |] eqn:Hs.
  - exists m, out, m1, out1. split; [reflexivity |]. split; [exact Hs |].
    destruct (documents_upload_settles_clean (firstn 2 textFileScenario)
                m m1 out out1 (UploadRejected 0) H
                (ex_intro _ 0 (or_intror eq_refl)) Hs) as (Hc & _ & _ & Hn).
    split; [rewrite Hc; reflexivity | exact Hn].
  - vm_compute in H. injection H as <- <-. vm_compute in Hs. discriminate Hs.
Defined.

End DocumentsPageInstances.

Section ChatTurnInstances.

Import Js ChatArea ChatTurns.

(** The first turn of a chat: one query, settled. *)
Lemma queries_are_well_formed_witness :
  exists s out,
    run mounted firstTurn out s /\
    List.length (queriesOf out) = 1 /\
    forall r, In r (queriesOf out) ->
      isBlank (query r) = false /\ top_k r = 15%Z /\
      properSession (session_id r).
Proof.
  destruct (runEvents firstTurn mounted) as [[s out] |] eqn:H;
    [| vm_compute in H; discriminate H].
  exists s, out.
  pose proof (runEvents_run _ _ H) as Hrun.
  split; [exact Hrun |].
  destruct (queries_are_well_formed firstTurn out s Hrun) as (_ & Hw & _).
  split; [| exact Hw].
  vm_compute in H. injection H as <- <-. reflexivity.
Defined.


(** The New Chat button after a conversation: the dialog opens. *)
Lemma mode_dialog_opens_on_new_chat_witness :
  exists s s',
    runEvents (firstn 4 twoChats) mounted <> None /\
    step (SessionSelect []) s = Some (s', []) /\
    modeDialogOpen s = false /\ modeDialogOpen s' = true /\
    newChat s'.
Proof.
  destruct (runEvents (firstn 4 twoChats) mounted) as [[s out] |] eqn:H;
    [| vm_compute in H; discriminate H].
  destruct (step (SessionSelect []) s) as [[s' out'] |] eqn:Hs.
  - assert (Hc : modeDialogOpen s = false /\ modeDialogOpen s' = true /\ out' = []).
    { vm_compute in H. injection H as <- <-.
      vm_compute in Hs. injection Hs as <- <-. repeat split. }
    destruct Hc as (Hc & Ho & ->).
    exists s, s'. split; [discriminate |]. split; [exact Hs |].
    split; [exact Hc |]. split; [exact Ho |].
    exact (proj1 (mode_dialog_opens_on_new_chat (SessionSelect []) s s' [] Hs Hc Ho)).
  - vm_compute in H. injection H as <- <-. vm_compute in Hs. discriminate Hs.
Defined.

(** A stored conversation of two messages, the second with a role of its
    own. *)
Lemma loaded_messages_mirror_session_witness :
  let l := [mkApiMessage (str "user") (str "hi") 1000%Z None;
            mkApiMessage (str "system") (str "hello") 2000%Z None] in
  exists msg, nth_error (loadedMessages (Some l)) 1 = Some msg /\
              id msg = 1%Z /\ type msg = assistant.
Proof.
  intro l.
  destruct (loaded_messages_mirror_session l) as (_ & _ & Hn & _).
  destruct (Hn 1 (mkApiMessage (str "system") (str "hello") 2000%Z None) eq_refl)
    as (msg & Hmsg & Hid & _ & _ & Hrole & _).
  exists msg. split; [exact Hmsg |]. split; [exact Hid |].
  destruct (type msg) eqn:Ht; [| reflexivity].
  apply proj1 in Hrole. specialize (Hrole eq_refl). discriminate Hrole.
Defined.

End ChatTurnInstances.

Section DisplayedTextInstances.

Import Js ChatMessage DisplayedText.

(** A reply with one flashcard block. *)
Lemma displayed_text_only_leaves_out_witness :
  hasBlock (str "Cards: FLASHCARD_STARTQ: a A: bFLASHCARD_END") = true /\
  List.length (displayContent (str "Cards: FLASHCARD_STARTQ: a A: bFLASHCARD_END")) + 28
    <= List.length (str "Cards: FLASHCARD_STARTQ: a A: bFLASHCARD_END").
Proof.
  split; [reflexivity |].
  apply (proj2 (proj2 (displayed_text_only_leaves_out
                         (str "Cards: FLASHCARD_STARTQ: a A: bFLASHCARD_END")))).
  reflexivity.
Defined.

(** The same reply in a chat that has no session yet. *)
Lemma viewer_needs_session_witness :
  hasBlock (str "Cards: FLASHCARD_STARTQ: a A: bFLASHCARD_END") = true /\
  hasFlashcards (str "Cards: FLASHCARD_STARTQ: a A: bFLASHCARD_END") = true /\
  showsFlashcardViewer (str "Cards: FLASHCARD_STARTQ: a A: bFLASHCARD_END") None
    = false.
Proof.
  destruct (viewer_needs_session
              (str "Cards: FLASHCARD_STARTQ: a A: bFLASHCARD_END") None)
    as (H1 & _ & H3).
  split; [reflexivity |]. split; [apply H1; reflexivity |].
  apply (proj1 (H3 eq_refl)).
Defined.

End DisplayedTextInstances.

Section CitationClickInstances.

Import Js ChatMessage CitationClick.

(** A file name with a slash and a space. *)
Lemma file_name_is_one_segment_witness :
  encodeURIComponent (str "a/b c.pdf") = str "a%2Fb%20c.pdf" /\
  In "%"%char (encodeURIComponent (str "a/b c.pdf")) /\
  "%"%char <> "/"%char /\
  str "a/b c.pdf" = str "a/b c.pdf".
Proof.
  destruct (file_name_is_one_segment (str "http://h") (str "a/b c.pdf"))
    as (_ & Hc & _ & Hi).
  split; [reflexivity |].
  assert (Hin : In "%"%char (encodeURIComponent (str "a/b c.pdf")))
    by (vm_compute; auto).
  split; [exact Hin |]. split; [exact (proj1 (Hc _ Hin)) |].
  apply Hi. reflexivity.
Defined.


(** The line [Source: [a.pdf, p.007]]. *)
Lemma source_line_opens_cited_page_witness :
  pdfName (str "a.pdf") = true /\
  forallb isDigit (str "007") = true /\
  (decimalValue (str "007") <= maxSafeInteger)%Z /\
  exists c p,
    ChatMessage.p [Text (str "Source: [a.pdf, p.007]")] = CitationParagraph c /\
    handleCitationClick (str "http://h") true (Some (str "tok")) c
      (Ok (BlobRead 10 (str "blob:1"))) false =
      [Fetch (str "http://h/documents/view/a.pdf") (str "Bearer tok");
       OpenPDF (str "blob:1") (str "a.pdf") p] /\
    pdfUrlWithPage (mkPDFViewState (str "blob:1") (str "a.pdf") p) =
      str "blob:1#page=7".
Proof.
  assert (Hm : (decimalValue (str "007") <= maxSafeInteger)%Z)
    by (vm_compute; discriminate).
  assert (Hs : (10 <> 0)%Z) by discriminate.
  assert (Hne : str "007" <> []) by discriminate.
  split; [reflexivity |]. split; [reflexivity |]. split; [exact Hm |].
  destruct (source_line_opens_cited_page (str "http://h") (str "tok")
              (str "blob:1") (str "a.pdf") (str "007") [] 10%Z false
              eq_refl Hne eq_refl Hm eq_refl Hs) as (c & p & Hp & Hc & _ & Hu).
  exists c, p. split; [exact Hp |]. split; [exact Hc | exact Hu].
Defined.

(** Two documents: the zoom chosen for the first is kept for the second
    and is back at 100 after the viewer was closed. *)
Lemma viewer_keeps_zoom_witness :
  exists s1 s2,
    runEvents (firstn 4 twoDocuments) initial = Some s1 /\
    runEvents twoDocuments initial = Some s2 /\
    zoom s1 = Some 150%Z /\ zoom s2 = Some 100%Z /\
    frameSrc s2 = Some (str "blob:3#page=3").
Proof.
  destruct (runEvents (firstn 4 twoDocuments) initial) as [s1 |] eqn:H1;
    [| vm_compute in H1; discriminate H1].
  destruct (runEvents twoDocuments initial) as [s2 |] eqn:H2;
    [| vm_compute in H2; discriminate H2].
  exists s1, s2. split; [reflexivity |]. split; [reflexivity |].
  destruct (viewer_keeps_zoom _ _ H1) as (_ & Hz1 & _).
  destruct (viewer_keeps_zoom _ _ H2) as (Hv2 & Hz2 & _).
  split; [rewrite Hz1; reflexivity |]. split; [rewrite Hz2; reflexivity |].
  unfold frameSrc. rewrite Hv2. reflexivity.
Defined.

End CitationClickInstances.

Section AuthInstances.

Import Js.

(** A login followed by a logout that the server refuses, over an empty
    storage. *)
Lemma storage_keys_go_together_witness :
  let stringify := fun u : Auth.User => Auth.username u in
  let r := Auth.mkAuthResponse (str "tok")
             (Auth.mkUser (str "1") (str "ann") (str "a@b.c") (str "ns") (str "2024")) in
  let es := [Auth.LoggedIn r;
             Auth.LogoutDone (Auth.Rejected (ChatArea.mkApiError None))] in
  Auth.paired (Auth.mkStorage None None) /\
  Auth.token (Auth.storage
                (Auth.runEvents stringify es (Auth.initial (Auth.mkStorage None None)))) =
    None /\
  Auth.token (Auth.storage
                (Auth.runEvents stringify (firstn 1 es)
                   (Auth.initial (Auth.mkStorage None None)))) = Some (str "tok").
Proof.
  intros stringify r es.
  assert (Hp : Auth.paired (Auth.mkStorage None None)) by (split; reflexivity).
  split; [exact Hp |].
  destruct (storage_keys_go_together stringify es _ Hp) as [_ H1].
  destruct (storage_keys_go_together stringify (firstn 1 es) _ Hp) as [_ H2].
  split; [rewrite H1; reflexivity | rewrite H2; reflexivity].
Defined.

(** A form whose new password has five characters, and a valid one. *)
Lemma password_change_is_validated_witness :
  let short := SettingsPage.mkState
                 (SettingsPage.mkPasswordForm (str "old") (str "12345") (str "12345"))
                 false in
  let good := SettingsPage.mkState
                (SettingsPage.mkPasswordForm (str "old") (str "123456") (str "123456"))
                false in
  SettingsPage.requestsOf (snd (SettingsPage.handleChangePassword short)) = [] /\
  snd (SettingsPage.handleChangePassword short) =
    [SettingsPage.ShowToast SettingsPage.PasswordTooShort] /\
  SettingsPage.handleChangePassword good =
    (SettingsPage.mkState (SettingsPage.passwordForm good) true,
     [SettingsPage.CallChangePassword
        (SettingsPage.mkChangeRequest (str "old") (str "123456"))]).
Proof.
  intros short good.
  destruct (password_change_is_validated short) as (_ & H & _).
  assert (Hnv : ~ (SettingsPage.currentPassword (SettingsPage.passwordForm short) <> [] /\
                   SettingsPage.newPassword (SettingsPage.passwordForm short) =
                     SettingsPage.confirmPassword (SettingsPage.passwordForm short) /\
                   (6 <= List.length
                           (SettingsPage.newPassword (SettingsPage.passwordForm short)))%nat)).
  { simpl. intros (_ & _ & Hl). lia. }
  destruct (H Hnv) as (_ & Hreq & t & Ht & _ & _ & Hshort).
  split; [exact Hreq |]. split.
  - rewrite Ht. apply proj2 in Hshort. rewrite Hshort; [reflexivity |].
    simpl. repeat split; [discriminate | discriminate | lia].
  - destruct (password_change_is_validated good) as (Hg & _).
    apply Hg. simpl. repeat split; [discriminate | lia].
Defined.

(** A change the server refuses with a detail, and one it refuses
    without. *)
Lemma password_change_ends_session_witness :
  let s := SettingsPage.mkState
             (SettingsPage.mkPasswordForm (str "old") (str "123456") (str "123456"))
             true in
  snd (SettingsPage.changeRejected
         (ChatArea.mkApiError (Some (str "Wrong password"))) s) =
    [SettingsPage.ShowToast
       (SettingsPage.PasswordChangeFailed (str "Wrong password"))] /\
  snd (SettingsPage.changeRejected (ChatArea.mkApiError None) s) =
    [SettingsPage.ShowToast
       (SettingsPage.PasswordChangeFailed (str "Please check your current password"))].
Proof.
  intro s.
  assert (Hne : str "Wrong password" <> []) by discriminate.
  split.
  - destruct (password_change_ends_session s
                (Auth.initial (Auth.mkStorage None None)) Auth.Fulfilled
                (ChatArea.mkApiError (Some (str "Wrong password"))))
      as (_ & _ & _ & _ & H & _).
    exact (H (str "Wrong password") eq_refl Hne).
  - destruct (password_change_ends_session s
                (Auth.initial (Auth.mkStorage None None)) Auth.Fulfilled
                (ChatArea.mkApiError None))
      as (_ & _ & _ & _ & _ & H & _).
    exact (H (or_introl eq_refl)).
Defined.

End AuthInstances.

Section SidebarInstances.

Import Js.


(** A calendar in which a date is a number of days written in unary: the
    length of the text, or no date for the empty text. A session of day
    12 seen on day 10 is listed under the last seven days. *)
Lemma session_group_by_day_witness :
  let parseDate := fun s : string =>
    match String.length s with O => None | n => Some (Z.of_nat n) end in
  let startOfDay := fun d : ChatSidebar.timeValue => d in
  let addDays := fun (d : ChatSidebar.timeValue) (k : Z) =>
    match d with Some t => Some (t + k)%Z | None => None end in
  let session := ChatSidebar.mkChatSession "a"%string "t"%string
                   "............"%string 1 in
  let invalid := ChatSidebar.mkChatSession "b"%string "t"%string ""%string 1 in
  ChatSidebar.classify parseDate startOfDay addDays (Some 10%Z) session =
    ChatSidebar.LastWeek /\
  ChatSidebar.classify parseDate startOfDay addDays (Some 10%Z) invalid =
    ChatSidebar.Older.
Proof.
  intros parseDate startOfDay addDays session invalid.
  assert (Hord : (3 < 9 < 10)%Z) by lia.
  split.
  - destruct (session_group_by_day parseDate startOfDay addDays (Some 10%Z)
                10 9 3 session eq_refl eq_refl eq_refl Hord) as [_ H].
    destruct (H 12%Z eq_refl) as (_ & _ & _ & _ & Hf). apply Hf. lia.
  - destruct (session_group_by_day parseDate startOfDay addDays (Some 10%Z)
                10 9 3 invalid eq_refl eq_refl eq_refl Hord) as [H _].
    apply H. reflexivity.
Defined.

End SidebarInstances.

Section LandingInstances.

Import Js Landing.

(** The title of the landing page after 20 periods. *)
Lemma title_types_itself_witness :
  S (List.length fullText) <= 20 /\
  displayText (ticks fullText 20) = fullText /\
  running (ticks fullText 20) = false.
Proof.
  assert (Hk : S (List.length fullText) <= 20) by (simpl; lia).
  split; [exact Hk |].
  destruct (title_types_itself fullText 20) as (_ & Hr & Hd & _).
  split; [apply Hd; exact Hk |].
  destruct Hr as [Hr _].
  destruct (running (ticks fullText 20)); [| reflexivity].
  specialize (Hr eq_refl). simpl in Hr. lia.
Defined.

End LandingInstances.

Section FlashcardViewerInstances.

Import Js FlashcardViewer.


End FlashcardViewerInstances.

Section SourceLineInstances.

Import Js ChatMessage.

(** A source line without a space after the colon, with an upper-case
    extension and [P.], a page with leading zeros and a remark after the
    bracket. *)
Lemma source_line_in_any_spacing_witness :
  let raw := str "  Source:[Report.PDF,  P.007] (see above) " in
  trim raw = str "Source:[Report.PDF,  P.007] (see above)" /\
  pdfName (str "Report.PDF") = true /\
  p [Text raw; Element] =
    CitationParagraph (mkCitation (str "Report.PDF") (Int 7) []) /\
  visibleText (p [Text raw; Element]) = str "Source: [Report.PDF, p.7]".
Proof.
  intro raw.
  assert (Ht : trim raw = str "Source:[Report.PDF,  P.007] (see above)")
    by reflexivity.
  assert (Hm : (decimalValue (str "007") <= maxSafeInteger)%Z)
    by (vm_compute; discriminate).
  assert (Hne : str "007" <> []) by discriminate.
  split; [exact Ht |]. split; [reflexivity |].
  destruct (source_line_in_any_spacing raw [] (str "Report.PDF") (str "  ")
              (str "007") (str " (see above)") "P"%char [Element]
              Ht eq_refl eq_refl (or_intror eq_refl) eq_refl Hne eq_refl Hm)
    as (Hp & Hv & _).
  split; [exact Hp | exact Hv].
Defined.

End SourceLineInstances.

Section CheckAuthInstances.

Import Js Auth.

(** A storage with a token the server refuses. *)
Lemma refused_token_is_dropped_witness :
  let st := mkStorage (Some (str "old")) (Some (str "{}")) in
  let u := mkUser (str "1") (str "ann") (str "a@b.c") (str "ns") (str "2024") in
  snd (checkAuth (initial st)) = true /\
  fst (checkAuth (initial st)) = initial st /\
  snd (checkAuth (initial (storage (checkRejected (initial st))))) = false.
Proof.
  intros st u.
  destruct (refused_token_is_dropped st u) as (Hreq & _ & Hkeep & _ & _ & Hnext & _).
  assert (Hr : snd (checkAuth (initial st)) = true).
  { apply Hreq. exists (str "old"). split; [reflexivity | discriminate]. }
  split; [exact Hr |]. split; [exact (Hkeep Hr) |].
  rewrite Hnext. reflexivity.
Defined.

End CheckAuthInstances.
